(** * Conversation memory and orchestrator turn handling

    A shallow embedding of
    [backend/app/agents/memory/conversation_memory.py] and of the
    answer-processing path of
    [backend/app/agents/orchestrator/main_orchestrator.py].

    Conventions of the embedding:
    - a [UUID] is an opaque key, modelled as [N];
    - a [datetime] is a count of microseconds since the epoch, a [Z] in
      the range tested by [is_datetime]; [timedelta(hours=h)] is
      [h * 3600 * 10^6], and building it or subtracting it from a
      [datetime] raises [OverflowError] outside their ranges;
      [isoformat()] is kept as the identity (it is injective on
      timestamps);
    - a Python [int] is a [Z]; [//] is [Z.div] (both round towards minus
      infinity for a positive divisor);
    - [Dict[UUID, _]] is a [gmap N _]; the [defaultdict(list)] of the
      performance cache is a [gmap] whose missing keys read as [[]] on
      subscript access and are absent for [in];
    - a Python function that may raise returns a [Result];
    - [datetime.utcnow()] is an explicit [now] argument;
    - what Python computes by rules that are not written in the program,
      [str.lower()] and the quotient [sum(scores) / len(scores)] on [int]
      and [float], is a parameter of the definitions that use it. *)

From Stdlib Require Import ZArith QArith Ascii String List Bool Lia Sorted.
From stdpp Require Import gmap strings list fin_maps.

Local Open Scope Z_scope.

(** ** Python values

    A [float] is kept as the rational number it denotes. *)

Inductive PyVal :=
| PyInt (z : Z)
| PyFloat (q : Q)
| PyStr (s : string).

(** [Dict[str, Any]] used as a record of scores and free-form data; order
    of insertion is kept. *)
Definition PyDict := list (string * PyVal).

Inductive PyError :=
| ValueError (session_id : N)   (* ValueError(f"Session {session_id} not found ...") *)
| AttributeError                (* [.value] read on an object that has none *)
| OverflowError                 (* a number or a date out of range *)
| Exception (msg : string).     (* any other [Exception] raised by a remote agent call *)

Inductive Result (A : Type) :=
| Ok (a : A)
| Raise (e : PyError).
Arguments Ok {A} a.
Arguments Raise {A} e.

#[global] Instance result_ret : MRet Result := fun A a => Ok a.

#[global] Instance result_bind : MBind Result := fun A B k r =>
  match r with
  | Ok a => k a
  | Raise e => Raise e
  end.

(** Truthiness, as tested by [if x:] and [x or y]. *)
Definition truthy_str (o : option string) : bool :=
  match o with
  | Some (String _ _) => true
  | _ => false
  end.

Definition truthy_dict (o : option PyDict) : bool :=
  match o with
  | Some (_ :: _) => true
  | _ => false
  end.

Definition truthy_list {A} (l : list A) : bool :=
  match l with
  | [] => false
  | _ :: _ => true
  end.

Definition truthy_int (o : option Z) : bool :=
  match o with
  | Some z => negb (z =? 0)
  | None => false
  end.

(** ** Python slices

    [slice_bound n i] is the position a slice bound [i] denotes in a
    sequence of length [n]: a negative bound counts from the end and is
    clamped at [0], a non-negative one is clamped at [n]. *)
Definition slice_bound (n : nat) (i : Z) : nat :=
  if i <? 0 then Z.to_nat (Z.max 0 (Z.of_nat n + i))
  else Z.to_nat (Z.min i (Z.of_nat n)).

(** [l[i:]] *)
Definition slice_from {A} (l : list A) (i : Z) : list A :=
  drop (slice_bound (length l) i) l.

(** [l[:i]] *)
Definition slice_to {A} (l : list A) (i : Z) : list A :=
  take (slice_bound (length l) i) l.

(** ** Strings

    A [str] is kept as the string of the bytes of its UTF-8 encoding. The
    operator [in] on two [str] agrees with the search of one encoding in
    the other, because an encoded character never begins inside another
    one. [str.lower()] follows the Unicode case mappings; it is not
    defined here but is the parameter [lower] of the definitions that
    call it. *)

(** [needle in hay] *)
Fixpoint str_in (needle hay : string) : bool :=
  String.prefix needle hay ||
  match hay with
  | EmptyString => false
  | String _ hay' => str_in needle hay'
  end.

(** ** Data model *)

Inductive DifficultyLevel := BEGINNER | INTERMEDIATE | ADVANCED.

(** [DifficultyLevel.value] *)
Definition level_value (d : DifficultyLevel) : string :=
  match d with
  | BEGINNER => "beginner"
  | INTERMEDIATE => "intermediate"
  | ADVANCED => "advanced"
  end.

(** The object a session holds as its [difficulty]. The annotation is
    [DifficultyLevel]; nothing checks it, and
    [MainOrchestrator.start_interview] passes the [.value] of the level, a
    plain [str]. *)
Inductive Difficulty :=
| Level (level : DifficultyLevel)
| Plain (text : string).

Coercion Level : DifficultyLevel >-> Difficulty.

(** [difficulty.value] *)
Definition difficulty_value (d : Difficulty) : Result string :=
  match d with
  | Level level => Ok (level_value level)
  | Plain _ => Raise AttributeError
  end.

Record InteractionMemory := {
  timestamp : Z;
  question : option string;
  answer : option string;
  evaluation : option PyDict;
  feedback : option string;
  context : option PyDict;
  question_type : string;
  topics_covered : list string
}.

(** The dictionary built by [_summarize_interactions]. [list(set(xs))] is
    the list of the elements of a finite set, in an order the program does
    not control. *)
Record ContextSummary := {
  summarized_interactions : nat;
  time_period_start : Z;
  time_period_end : Z;
  topics_discussed : list string;
  question_types : list string;
  evaluation_count : nat
}.

(** [context_summary] is either the empty dictionary ([None]) or the
    dictionary above. *)
Record SessionMemory := {
  session_id : N;
  topic : string;
  difficulty : Difficulty;
  start_time : Z;
  interactions : list InteractionMemory;
  current_question : option string;
  covered_topics : list string;
  performance_trends : list PyDict;
  context_summary : option ContextSummary
}.

(** One entry of [performance_cache[session_id]]. *)
Record PerformanceSample := {
  ps_timestamp : Z;
  ps_evaluation : PyDict;
  ps_question_type : string
}.

Record ConversationMemory := {
  sessions : gmap N SessionMemory;
  max_memory_hours : Z;
  max_interactions_per_session : Z;
  performance_cache : gmap N (list PerformanceSample)
}.

(** [ConversationMemory.__init__] *)
Definition init_memory (max_memory_hours max_interactions_per_session : Z)
  : ConversationMemory :=
  {| sessions := ∅;
     max_memory_hours := max_memory_hours;
     max_interactions_per_session := max_interactions_per_session;
     performance_cache := ∅ |}.

Definition set_sessions (cm : ConversationMemory) (s : gmap N SessionMemory)
  : ConversationMemory :=
  {| sessions := s;
     max_memory_hours := max_memory_hours cm;
     max_interactions_per_session := max_interactions_per_session cm;
     performance_cache := performance_cache cm |}.

Definition set_performance_cache (cm : ConversationMemory)
    (p : gmap N (list PerformanceSample)) : ConversationMemory :=
  {| sessions := sessions cm;
     max_memory_hours := max_memory_hours cm;
     max_interactions_per_session := max_interactions_per_session cm;
     performance_cache := p |}.

Definition set_interactions (sm : SessionMemory) (l : list InteractionMemory)
  : SessionMemory :=
  {| session_id := session_id sm; topic := topic sm;
     difficulty := difficulty sm; start_time := start_time sm;
     interactions := l;
     current_question := current_question sm;
     covered_topics := covered_topics sm;
     performance_trends := performance_trends sm;
     context_summary := context_summary sm |}.

Definition set_current_question (sm : SessionMemory) (q : option string)
  : SessionMemory :=
  {| session_id := session_id sm; topic := topic sm;
     difficulty := difficulty sm; start_time := start_time sm;
     interactions := interactions sm;
     current_question := q;
     covered_topics := covered_topics sm;
     performance_trends := performance_trends sm;
     context_summary := context_summary sm |}.

Definition set_covered_topics (sm : SessionMemory) (t : list string)
  : SessionMemory :=
  {| session_id := session_id sm; topic := topic sm;
     difficulty := difficulty sm; start_time := start_time sm;
     interactions := interactions sm;
     current_question := current_question sm;
     covered_topics := t;
     performance_trends := performance_trends sm;
     context_summary := context_summary sm |}.

Definition set_context_summary (sm : SessionMemory) (c : option ContextSummary)
  : SessionMemory :=
  {| session_id := session_id sm; topic := topic sm;
     difficulty := difficulty sm; start_time := start_time sm;
     interactions := interactions sm;
     current_question := current_question sm;
     covered_topics := covered_topics sm;
     performance_trends := performance_trends sm;
     context_summary := c |}.

(** ** [initialize_session] *)

Definition fresh_session (sid : N) (topic : string)
    (difficulty : Difficulty) (now : Z) : SessionMemory :=
  {| session_id := sid; topic := topic; difficulty := difficulty;
     start_time := now;
     interactions := [];
     current_question := None;
     covered_topics := [];
     performance_trends := [];
     context_summary := None |}.

Definition initialize_session (cm : ConversationMemory) (sid : N)
    (topic : string) (difficulty : Difficulty) (now : Z)
  : ConversationMemory :=
  set_sessions cm (<[sid := fresh_session sid topic difficulty now]> (sessions cm)).

(** ** [_summarize_interactions] *)

Definition _summarize_interactions (l : list InteractionMemory)
  : option ContextSummary :=
  match l with
  | [] => None
  | first :: _ =>
    let topics := flat_map topics_covered l in
    let kinds :=
      List.filter (fun k => truthy_str (Some k)) (map question_type l) in
    let evaluations :=
      List.filter (fun i => truthy_dict (evaluation i)) l in
    Some {| summarized_interactions := length l;
            time_period_start := timestamp first;
            time_period_end := timestamp (List.last l first);
            topics_discussed := elements (list_to_set topics : gset string);
            question_types := elements (list_to_set kinds : gset string);
            evaluation_count := length evaluations |}
  end.

(** ** [_manage_memory_size], on the session object bound to
    [session_memory] *)

Definition _manage_memory_size (max_interactions : Z) (sm : SessionMemory)
  : SessionMemory :=
  if Z.of_nat (length (interactions sm)) >? max_interactions then
    let keep_count := max_interactions / 2 in
    let older_interactions := slice_to (interactions sm) (- keep_count) in
    let sm' := set_context_summary sm (_summarize_interactions older_interactions) in
    set_interactions sm' (slice_from (interactions sm') (- keep_count))
  else sm.

(** ** [add_interaction] *)

Record InteractionArgs := {
  arg_question : option string;
  arg_answer : option string;
  arg_evaluation : option PyDict;
  arg_feedback : option string;
  arg_context : option PyDict;
  arg_question_type : string;
  arg_expected_topics : option (list string);
  arg_timestamp : option Z
}.

(** The call [add_interaction(session_id)] with every default. *)
Definition default_args : InteractionArgs :=
  {| arg_question := None; arg_answer := None; arg_evaluation := None;
     arg_feedback := None; arg_context := None;
     arg_question_type := "general";
     arg_expected_topics := None; arg_timestamp := None |}.

Definition new_interaction (a : InteractionArgs) (now : Z) : InteractionMemory :=
  {| timestamp := default now (arg_timestamp a);
     question := arg_question a;
     answer := arg_answer a;
     evaluation := arg_evaluation a;
     feedback := arg_feedback a;
     context := arg_context a;
     question_type := arg_question_type a;
     topics_covered := default [] (arg_expected_topics a) |}.

(** The loop [for topic in expected_topics: if topic not in covered:
    covered.append(topic)]. *)
Definition add_topic (covered : list string) (t : string) : list string :=
  if bool_decide (t ∈ covered) then covered else covered ++ [t].

Definition update_covered (covered : list string) (expected : option (list string))
  : list string :=
  match expected with
  | Some ts => if truthy_list ts then foldl add_topic covered ts else covered
  | None => covered
  end.

(** The effect of [add_interaction] on the session object. *)
Definition session_add (max_interactions : Z) (sm : SessionMemory)
    (a : InteractionArgs) (now : Z) : SessionMemory :=
  let interaction := new_interaction a now in
  let sm1 := set_interactions sm (interactions sm ++ [interaction]) in
  let sm2 :=
    if truthy_str (arg_question a)
    then set_current_question sm1 (arg_question a) else sm1 in
  let sm3 :=
    set_covered_topics sm2 (update_covered (covered_topics sm2) (arg_expected_topics a)) in
  _manage_memory_size max_interactions sm3.

(** The effect of [add_interaction] on the performance cache:
    [self.performance_cache[session_id].append(...)] on a [defaultdict]. *)
Definition cache_add (cache : gmap N (list PerformanceSample)) (sid : N)
    (a : InteractionArgs) (now : Z) : gmap N (list PerformanceSample) :=
  if truthy_dict (arg_evaluation a) then
    <[sid := default [] (cache !! sid) ++
             [{| ps_timestamp := timestamp (new_interaction a now);
                 ps_evaluation := default [] (arg_evaluation a);
                 ps_question_type := arg_question_type a |}]]> cache
  else cache.

Definition add_interaction (cm : ConversationMemory) (sid : N)
    (a : InteractionArgs) (now : Z) : Result ConversationMemory :=
  match sessions cm !! sid with
  | None => Raise (ValueError sid)
  | Some session_memory =>
    Ok {| sessions :=
            <[sid := session_add (max_interactions_per_session cm) session_memory a now]>
              (sessions cm);
          max_memory_hours := max_memory_hours cm;
          max_interactions_per_session := max_interactions_per_session cm;
          performance_cache := cache_add (performance_cache cm) sid a now |}
  end.

(** A sequence of [add_interaction] calls on one session, each with the
    clock reading at the time of the call. *)
Fixpoint add_interactions (cm : ConversationMemory) (sid : N)
    (calls : list (InteractionArgs * Z)) : Result ConversationMemory :=
  match calls with
  | [] => Ok cm
  | (a, now) :: rest =>
    cm' ← add_interaction cm sid a now;
    add_interactions cm' sid rest
  end.

(** ** Read operations *)

(** [_get_recent_interactions] *)
Record RecentEntry := {
  r_question : option string;
  r_answer : option string;
  r_question_type : string;
  r_timestamp : Z
}.

Definition _get_recent_interactions (sm : SessionMemory) (limit : Z)
  : list RecentEntry :=
  let recent :=
    if truthy_list (interactions sm) then slice_from (interactions sm) (- limit)
    else [] in
  map (fun i => {| r_question := question i; r_answer := answer i;
                   r_question_type := question_type i;
                   r_timestamp := timestamp i |}) recent.

(** [key.endswith(suffix)] *)
Definition endswith (s suffix : string) : bool :=
  let n := String.length s in
  let k := String.length suffix in
  (k <=? n)%nat && String.eqb (String.substring (n - k) k s) suffix.

(** [isinstance(value, (int, float))] *)
Definition is_number (v : PyVal) : bool :=
  match v with
  | PyInt _ | PyFloat _ => true
  | PyStr _ => false
  end.

(** [total_scores[key].append(value)] on a [defaultdict(list)], keys in
    order of first insertion. *)
Fixpoint append_score (scores : list (string * list PyVal)) (key : string) (v : PyVal)
  : list (string * list PyVal) :=
  match scores with
  | [] => [(key, [v])]
  | (k, vs) :: rest =>
    if String.eqb k key then (k, vs ++ [v]) :: rest
    else (k, vs) :: append_score rest key v
  end.

Definition collect_scores (scores : list (string * list PyVal)) (ev : PyDict)
  : list (string * list PyVal) :=
  foldl (fun acc kv =>
           if endswith (fst kv) "_score" && is_number (snd kv)
           then append_score acc (fst kv) (snd kv) else acc) scores ev.

(** The dictionary comprehension
    [{key: sum(scores) / len(scores) for key, scores in total_scores.items()}].
    The quotient is computed by Python's arithmetic on [int] and [float]:
    it rounds, and it raises [OverflowError] when an [int] is too large
    for a [float]. It is the parameter [mean_of]; the first key whose
    quotient raises ends the comprehension. *)
Fixpoint averages (mean_of : list PyVal → Result PyVal)
    (total_scores : list (string * list PyVal)) : Result (list (string * PyVal)) :=
  match total_scores with
  | [] => Ok []
  | (key, scores) :: rest =>
    average ← mean_of scores;
    others ← averages mean_of rest;
    Ok ((key, average) :: others)
  end.

(** [_get_performance_summary]; [None] is the empty dictionary. *)
Record PerformanceSummary := {
  total_evaluations : nat;
  average_scores : list (string * PyVal);
  recent_trend : string
}.

Definition _get_performance_summary (mean_of : list PyVal → Result PyVal)
    (cm : ConversationMemory) (sid : N) : Result (option PerformanceSummary) :=
  match performance_cache cm !! sid with
  | None => Ok None
  | Some [] => Ok None
  | Some performance_data =>
    let total_scores :=
      foldl (fun acc d => collect_scores acc (ps_evaluation d)) [] performance_data in
    averages ← averages mean_of total_scores;
    Ok (Some {| total_evaluations := length performance_data;
                average_scores := averages;
                recent_trend :=
                  if (1 <? length performance_data)%nat then "improving"
                  else "initial" |})
  end.

(** [type_counts[qtype] += 1] on a [defaultdict(int)]. *)
Fixpoint count_up (counts : list (string * nat)) (key : string)
  : list (string * nat) :=
  match counts with
  | [] => [(key, 1%nat)]
  | (k, n) :: rest =>
    if String.eqb k key then (k, S n) :: rest else (k, n) :: count_up rest key
  end.

(** [_analyze_conversation_flow]; [None] is [{"flow_quality": "no_data"}]. *)
Record ConversationFlow := {
  total_interactions : nat;
  question_types_used : list (string * nat);
  flow_diversity : nat;
  progression : list string
}.

Definition _analyze_conversation_flow (sm : SessionMemory) : option ConversationFlow :=
  match interactions sm with
  | [] => None
  | _ :: _ =>
    let kinds :=
      List.filter (fun k => truthy_str (Some k)) (map question_type (interactions sm)) in
    Some {| total_interactions := length (interactions sm);
            question_types_used := foldl count_up [] kinds;
            flow_diversity := size (list_to_set kinds : gset string);
            progression :=
              if (5 <=? length kinds)%nat then slice_from kinds (-5) else kinds |}
  end.

(** [get_session_context] *)
Record SessionContext := {
  ctx_session_id : N;
  ctx_topic : string;
  ctx_difficulty : string;
  ctx_start_time : Z;
  ctx_current_question : option string;
  ctx_covered_topics : list string;
  interaction_count : nat;
  recent_interactions : list RecentEntry;
  performance_summary : option PerformanceSummary;
  conversation_flow : option ConversationFlow
}.

(** The entries of the dictionary are evaluated in the order written:
    [session_memory.difficulty.value] before [_get_performance_summary]. *)
Definition get_session_context (mean_of : list PyVal → Result PyVal)
    (cm : ConversationMemory) (sid : N) : Result SessionContext :=
  match sessions cm !! sid with
  | None => Raise (ValueError sid)
  | Some session_memory =>
    value ← difficulty_value (difficulty session_memory);
    summary ← _get_performance_summary mean_of cm sid;
    Ok {| ctx_session_id := sid;
          ctx_topic := topic session_memory;
          ctx_difficulty := value;
          ctx_start_time := start_time session_memory;
          ctx_current_question := current_question session_memory;
          ctx_covered_topics := covered_topics session_memory;
          interaction_count := length (interactions session_memory);
          recent_interactions := _get_recent_interactions session_memory 5;
          performance_summary := summary;
          conversation_flow := _analyze_conversation_flow session_memory |}
  end.

(** [get_conversation_history]; the key ["evaluation"] is present in an
    entry exactly when [h_evaluation] is [Some]. *)
Record HistoryEntry := {
  h_timestamp : Z;
  h_question : option string;
  h_answer : option string;
  h_feedback : option string;
  h_question_type : string;
  h_topics_covered : list string;
  h_evaluation : option PyDict
}.

Definition history_entry (include_evaluations : bool) (i : InteractionMemory)
  : HistoryEntry :=
  {| h_timestamp := timestamp i;
     h_question := question i;
     h_answer := answer i;
     h_feedback := feedback i;
     h_question_type := question_type i;
     h_topics_covered := topics_covered i;
     h_evaluation :=
       if include_evaluations && truthy_dict (evaluation i) then evaluation i
       else None |}.

Definition get_conversation_history (cm : ConversationMemory) (sid : N)
    (limit : option Z) (include_evaluations : bool) : Result (list HistoryEntry) :=
  match sessions cm !! sid with
  | None => Ok []
  | Some session_memory =>
    let interactions :=
      if truthy_int limit
      then slice_from (interactions session_memory) (- default 0 limit)
      else interactions session_memory in
    Ok (map (history_entry include_evaluations) interactions)
  end.

(** [get_performance_trends] *)
Definition get_performance_trends (cm : ConversationMemory) (sid : N)
    (window_size : Z) : Result (list PerformanceSample) :=
  match performance_cache cm !! sid with
  | None => Ok []
  | Some performance_data =>
    Ok (if truthy_list performance_data
        then slice_from performance_data (- window_size) else [])
  end.

(** [search_similar_interactions] *)
Record SimilarEntry := {
  s_timestamp : Z;
  s_question : option string;
  s_answer : option string;
  s_question_type : string;
  s_topics_covered : list string
}.

Definition similar_entry (i : InteractionMemory) : SimilarEntry :=
  {| s_timestamp := timestamp i;
     s_question := question i;
     s_answer := answer i;
     s_question_type := question_type i;
     s_topics_covered := topics_covered i |}.

(** [any(query_topic.lower() in topic.lower() for topic in topics)] *)
Definition topic_overlap (lower : string → string) (query_topic : string)
    (topics : list string) : bool :=
  existsb (fun topic => str_in (lower query_topic) (lower topic)) topics.

(** The condition under which the loop appends an interaction. *)
Definition is_similar (lower : string → string) (query_topic : string)
    (interaction_type : option string) (i : InteractionMemory) : bool :=
  truthy_list (topics_covered i) &&
  topic_overlap lower query_topic (topics_covered i) &&
  (negb (truthy_str interaction_type) ||
   bool_decide (Some (question_type i) = interaction_type)).

Definition search_similar_interactions (lower : string → string)
    (cm : ConversationMemory) (sid : N)
    (query_topic : string) (interaction_type : option string) (limit : Z)
  : Result (list SimilarEntry) :=
  match sessions cm !! sid with
  | None => Ok []
  | Some session_memory =>
    let similar_interactions :=
      map similar_entry
          (List.filter (is_similar lower query_topic interaction_type)
                       (interactions session_memory)) in
    Ok (slice_from similar_interactions (- limit))
  end.

(** [get_topic_coverage]; [None] is the empty dictionary returned for an
    unknown session. The float quotient [coverage_depth] is kept as the
    exact pair of numerator and denominator. *)
Record TopicCoverage := {
  total_topics_mentioned : nat;
  tc_covered_topics : list string;
  topic_frequency : list (string * nat);
  most_discussed : option string;
  coverage_depth : nat * nat
}.

(** [max(items, key=lambda x: x[1])]: the first item with the largest
    count. *)
Fixpoint max_by_count (best : string * nat) (items : list (string * nat))
  : string * nat :=
  match items with
  | [] => best
  | kv :: rest =>
    if (snd best <? snd kv)%nat then max_by_count kv rest
    else max_by_count best rest
  end.

Definition get_topic_coverage (cm : ConversationMemory) (sid : N)
  : Result (option TopicCoverage) :=
  match sessions cm !! sid with
  | None => Ok None
  | Some session_memory =>
    let all_topics := flat_map topics_covered (interactions session_memory) in
    let topic_frequency := foldl count_up [] all_topics in
    Ok (Some
      {| total_topics_mentioned := size (list_to_set all_topics : gset string);
         tc_covered_topics := covered_topics session_memory;
         topic_frequency := topic_frequency;
         most_discussed :=
           match topic_frequency with
           | [] => None
           | kv :: rest => Some (fst (max_by_count kv rest))
           end;
         coverage_depth :=
           (length all_topics,
            Nat.max 1 (length (interactions session_memory))) |})
  end.

(** ** Session removal *)

(** [cleanup_session] *)
Definition cleanup_session (cm : ConversationMemory) (sid : N) : ConversationMemory :=
  {| sessions := delete sid (sessions cm);
     max_memory_hours := max_memory_hours cm;
     max_interactions_per_session := max_interactions_per_session cm;
     performance_cache := delete sid (performance_cache cm) |}.

(** The length of [timedelta(hours=h)] in microseconds. *)
Definition hours (h : Z) : Z := h * 3600 * 1000000.

Definition is_expired (cutoff_time : Z) (sm : SessionMemory) : bool :=
  start_time sm <? cutoff_time.

(** The range of [datetime], from [datetime.min], the first instant of
    year 1, to [datetime.max], the last microsecond of year 9999, in
    microseconds since the epoch. *)
Definition datetime_min : Z := -62135596800 * 1000000.
Definition datetime_max : Z := 253402300799 * 1000000 + 999999.

Definition is_datetime (t : Z) : bool :=
  (datetime_min <=? t) && (t <=? datetime_max).

(** [timedelta(hours=h)]: [OverflowError] when the number of days leaves
    the range of [timedelta], [-999999999] to [999999999]. *)
Definition timedelta_hours (h : Z) : Result Z :=
  if (-999999999 <=? h / 24) && (h / 24 <=? 999999999) then Ok (hours h)
  else Raise OverflowError.

(** [t - delta] for a [datetime] and a [timedelta]: [OverflowError] when
    the result leaves the range of [datetime]. *)
Definition datetime_sub (t delta : Z) : Result Z :=
  if is_datetime (t - delta) then Ok (t - delta) else Raise OverflowError.

(** The two loops of [cleanup_expired_sessions], which follow the
    computation of [cutoff_time]. *)
Definition remove_expired (cm : ConversationMemory) (cutoff_time : Z)
  : ConversationMemory :=
  let expired_sessions :=
    map fst (List.filter (fun kv => is_expired cutoff_time (snd kv))
                         (map_to_list (sessions cm))) in
  foldl cleanup_session cm expired_sessions.

(** [cleanup_expired_sessions]; the cut-off is computed, and may raise,
    before any session is looked at. *)
Definition cleanup_expired_sessions (cm : ConversationMemory) (now : Z)
  : Result ConversationMemory :=
  delta ← timedelta_hours (max_memory_hours cm);
  cutoff_time ← datetime_sub now delta;
  Ok (remove_expired cm cutoff_time).

(** ** The orchestrator: [process_user_answer]

    The remote calls are [self.agent.ainvoke] (the React agent, whose tools
    only read the memory through [get_session_context]) and
    [self.question_generator.generate_follow_up_question]. Their outcomes
    are inputs of the model; neither holds a reference through which the
    orchestrator's memory or session table is written. *)

Inductive InterviewPhase := OPENING | ARCHITECTURE | DEEP_DIVE | OPTIMIZATION | WRAP_UP.

Record QuestionGeneration := {
  qg_question : string;
  qg_question_type : string;
  topics_targeted : list string;
  difficulty_level : string;
  expected_concepts : list string;
  guidance_hints : list string
}.

(** One value of [self.current_sessions]. *)
Record SessionState := {
  st_topic : string;
  st_difficulty : DifficultyLevel;
  phase : InterviewPhase;
  st_start_time : Z;
  questions_asked : Z;
  st_topics_covered : list string;
  performance_history : list PyDict;
  last_question : option string
}.

Record MainOrchestrator := {
  memory : ConversationMemory;
  current_sessions : gmap N SessionState
}.

(** The ["context"] entry of a response. *)
Inductive ResponseContext :=
| FollowUpContext (q : QuestionGeneration)
| FallbackContext (error : PyError).

(** A response dictionary. The keys ["fallback"] and ["evaluation"] are
    present exactly when the fields are [Some]. *)
Record Response := {
  resp_type : string;
  message : string;
  resp_context : ResponseContext;
  focus_areas : list string;
  resp_session_id : N;
  fallback : option bool;
  resp_evaluation : option PyDict
}.

(** Outcomes of the two remote calls of one turn. *)
Record AgentOutcomes := {
  ainvoke : Result unit;
  generate_follow_up_question : Result QuestionGeneration
}.

(** [_process_agent_response] *)
Definition _process_agent_response (o : MainOrchestrator) (env : AgentOutcomes)
    (sid : N) (user_answer : string) : Result Response :=
  follow_up ← generate_follow_up_question env;
  Ok {| resp_type := "follow_up";
        message := qg_question follow_up;
        resp_context := FollowUpContext follow_up;
        focus_areas := topics_targeted follow_up;
        resp_session_id := sid;
        fallback := None;
        resp_evaluation := None |}.

(** [_generate_fallback_response]; its lookup of [session_state] is only
    reached for a session that [process_user_answer] has found. *)
Definition _generate_fallback_response (sid : N) (user_answer : string)
    (error : PyError) : Response :=
  {| resp_type := "fallback";
     message := "Thank you for your response. Can you elaborate on your approach to handling scalability?";
     resp_context := FallbackContext error;
     focus_areas := ["scalability"; "architecture"];
     resp_session_id := sid;
     fallback := Some true;
     resp_evaluation := None |}.

(** [_update_session_state], on the dictionary bound to [session_state]. *)
Definition update_state (st : SessionState) (response : Response) : SessionState :=
  {| st_topic := st_topic st;
     st_difficulty := st_difficulty st;
     phase := phase st;
     st_start_time := st_start_time st;
     questions_asked := questions_asked st + 1;
     st_topics_covered := st_topics_covered st;
     performance_history :=
       match resp_evaluation response with
       | Some ev => performance_history st ++ [ev]
       | None => performance_history st
       end;
     last_question := Some (message response) |}.

(** [session_state = self.current_sessions[session_id]] raises [KeyError],
    an [Exception], on a missing key. *)
Definition _update_session_state (o : MainOrchestrator) (sid : N)
    (user_answer : string) (response : Response) : Result MainOrchestrator :=
  match current_sessions o !! sid with
  | Some session_state =>
    Ok {| memory := memory o;
          current_sessions :=
            <[sid := update_state session_state response]> (current_sessions o) |}
  | None => Raise (Exception "KeyError")
  end.

(** [process_user_answer]: the [try] block, then the [except Exception]
    handler. The parameter [message_type] is never read and is left out. *)
Definition process_user_answer (o : MainOrchestrator) (env : AgentOutcomes)
    (sid : N) (user_answer : string) : Result (Response * MainOrchestrator) :=
  match current_sessions o !! sid with
  | None => Raise (ValueError sid)
  | Some session_state =>
    let attempt :=
      response ← ainvoke env;
      processed_response ← _process_agent_response o env sid user_answer;
      o' ← _update_session_state o sid user_answer processed_response;
      Ok (processed_response, o') in
    match attempt with
    | Ok r => Ok r
    | Raise e => Ok (_generate_fallback_response sid user_answer e, o)
    end
  end.

(** ** Where the failures of a turn are handled

    [process_user_answer] reaches two React agents. The orchestrator's own
    agent may call the tool [evaluate_answer]; the question generator runs
    its agent inside [generate_follow_up_question]. Both places catch
    [Exception] themselves. *)

Module EvaluationTool.

(** What the tool hands back to the React agent: [evaluation.dict()] or
    [{"error": str(e)}]. *)
Inductive ToolOutput :=
| EvaluationDict (evaluation : PyDict)
| ErrorDict (error : PyError).

(** The tool [evaluate_answer] of [_create_evaluation_tool]; [body] is the
    outcome of its [try] block, the call of
    [answer_evaluator.evaluate_answer] included. *)
Definition evaluate_answer (body : Result PyDict) : ToolOutput :=
  match body with
  | Ok evaluation => EvaluationDict evaluation
  | Raise e => ErrorDict e
  end.

End EvaluationTool.

Module QuestionGenerator.

(** [topic.replace('_', ' ')] *)
Fixpoint replace_underscores (s : string) : string :=
  match s with
  | EmptyString => EmptyString
  | String c s' =>
    String (if Ascii.eqb c "_" then " "%char else c) (replace_underscores s')
  end.

(** [_extract_question_from_response]; the response of the agent is not
    read. The keywords [time_estimate] and [follow_up_areas] are no fields
    of [QuestionGeneration] and are dropped by it. *)
Definition _extract_question_from_response (question_type topic difficulty : string)
  : QuestionGeneration :=
  if String.eqb question_type "opening" then
    {| qg_question :=
         "Let's design a " +:+ replace_underscores topic +:+
         " system. What would you say are the key functional requirements we need to consider?";
       qg_question_type := question_type;
       topics_targeted := ["requirements_gathering"; "functional_design"];
       difficulty_level := difficulty;
       expected_concepts := ["user needs"; "core features"; "system boundaries"];
       guidance_hints :=
         ["Think about the core functionality"; "Consider the user journey";
          "Think about data requirements"] |}
  else
    {| qg_question :=
         "Based on your previous answer, let's dive deeper into the architecture. How would you structure the main components?";
       qg_question_type := question_type;
       topics_targeted := ["system_architecture"; "component_design"];
       difficulty_level := difficulty;
       expected_concepts :=
         ["service boundaries"; "data flow"; "component interactions"];
       guidance_hints :=
         ["Think about the core functionality"; "Consider the user journey";
          "Think about data requirements"] |}.

(** [_generate_fallback_follow_up]: the template of the level, filled with
    the first aspect and the first concern. *)
Definition _generate_fallback_follow_up (previous_question user_answer topic : string)
    (difficulty : DifficultyLevel) : QuestionGeneration :=
  {| qg_question :=
       match difficulty with
       | BEGINNER =>
         "That's a good start! Can you tell me more about how you would handle data storage?"
       | INTERMEDIATE =>
         "Interesting approach. How would you ensure data storage while maintaining performance?"
       | ADVANCED =>
         "Given your design, what trade-offs would you consider for data storage in a large-scale deployment?"
       end;
     qg_question_type := "follow_up";
     topics_targeted := ["architecture"; "trade_offs"];
     difficulty_level := level_value difficulty;
     expected_concepts := ["system design principles"; "architectural decisions"];
     guidance_hints :=
       ["Consider the pros and cons"; "Think about scale"; "Consider user experience"] |}.

(** [generate_follow_up_question]; [agent] is the outcome of
    [self.agent.ainvoke]. The [except Exception] handler returns the
    fallback follow-up, so a failure of the agent is not raised. *)
Definition generate_follow_up_question (agent : Result unit)
    (previous_question user_answer topic : string) (difficulty : DifficultyLevel)
  : Result QuestionGeneration :=
  match agent with
  | Ok response =>
    Ok (_extract_question_from_response "follow_up" topic (level_value difficulty))
  | Raise e =>
    Ok (_generate_fallback_follow_up previous_question user_answer topic difficulty)
  end.

End QuestionGenerator.

(** * Vocabulary of the properties and scenario data *)

(** The outcomes of the two calls of a turn when the follow-up comes from
    the question generator: [orchestrator_agent] and [generator_agent]
    are the outcomes of the two React agents. The arguments are those of
    [_process_agent_response]. *)
Definition turn_outcomes (orchestrator_agent generator_agent : Result unit)
    (st : SessionState) (user_answer : string) : AgentOutcomes :=
  {| ainvoke := orchestrator_agent;
     generate_follow_up_question :=
       QuestionGenerator.generate_follow_up_question generator_agent
         (default "" (last_question st)) user_answer (st_topic st) (st_difficulty st) |}.

(** A sequence of calls, seen from the session object. *)
Definition session_adds (max_interactions : Z) (sm : SessionMemory)
    (calls : list (InteractionArgs * Z)) : SessionMemory :=
  foldl (fun sm c => session_add max_interactions sm (fst c) (snd c)) sm calls.

(** A store with [max_interactions_per_session = 1] and one session. *)
Definition store_of_one : ConversationMemory :=
  initialize_session (init_memory 24 1) 7%N "chat_system" BEGINNER 0.

(** The interaction records a sequence of calls creates. *)
Definition logs_of (calls : list (InteractionArgs * Z)) : list InteractionMemory :=
  map (fun c => new_interaction (fst c) (snd c)) calls.

(** A run of eleven calls: the third carries an evaluation, the sixth a
    timestamp of its own. *)
Definition eleven_calls : list (InteractionArgs * Z) :=
  map (fun n : Z =>
         ({| arg_question := Some "Q"; arg_answer := None;
             arg_evaluation := if n =? 3 then Some [("clarity_score", PyInt 7)] else None;
             arg_feedback := None; arg_context := None;
             arg_question_type := if n <? 4 then "opening" else "follow_up";
             arg_expected_topics := Some ["caching"];
             arg_timestamp := if n =? 6 then Some 600 else None |}, n))
      [1; 2; 3; 4; 5; 6; 7; 8; 9; 10; 11].

(** Four calls under a bound of two, so that eviction happens along the
    way. *)
Definition topic_calls : list (InteractionArgs * Z) :=
  map (fun p : list string * Z =>
         ({| arg_question := Some "Q"; arg_answer := None; arg_evaluation := None;
             arg_feedback := None; arg_context := None;
             arg_question_type := "follow_up";
             arg_expected_topics := Some (fst p);
             arg_timestamp := None |}, snd p))
      [(["requirements"], 1); (["caching"; "database"], 2);
       (["caching"; "cdn"], 3); ([], 4)].

(** Every key of the performance cache is a key of the session table. The
    store starts with it and every operation keeps it. *)
Definition cache_within_sessions (cm : ConversationMemory) : Prop :=
  ∀ sid, sessions cm !! sid = None → performance_cache cm !! sid = None.

(** The store before any session is created. *)
Definition empty_store : ConversationMemory := init_memory 24 100.

(** An orchestrator with one running session, registered in its session
    table and in the conversation memory. *)
Definition running_state : SessionState :=
  {| st_topic := "chat_system"; st_difficulty := BEGINNER; phase := OPENING;
     st_start_time := 0; questions_asked := 1;
     st_topics_covered := []; performance_history := [];
     last_question := Some "What are the key requirements for this system?" |}.

Definition running_orchestrator : MainOrchestrator :=
  {| memory := initialize_session empty_store 1%N "chat_system" BEGINNER 0;
     current_sessions := {[ 1%N := running_state ]} |}.

Definition follow_up_question : QuestionGeneration :=
  {| qg_question := "How would you structure the main components?";
     qg_question_type := "follow_up";
     topics_targeted := ["system_architecture"; "component_design"];
     difficulty_level := "beginner";
     expected_concepts := ["service boundaries"; "data flow"];
     guidance_hints := [] |}.

(** The call of the orchestrator's agent raises. *)
Definition failing_outcomes : AgentOutcomes :=
  {| ainvoke := Raise (Exception "agent.ainvoke failed");
     generate_follow_up_question := Ok follow_up_question |}.

(** Every remote call succeeds. *)
Definition successful_outcomes : AgentOutcomes :=
  {| ainvoke := Ok tt;
     generate_follow_up_question := Ok follow_up_question |}.

(** [query] occurs in [label] when case is ignored: the lower-cased query
    occurs in the lower-cased label. *)
Definition ci_substring (lower : string → string) (query label : string) : Prop :=
  ∃ pre post, lower label = pre +:+ lower query +:+ post.

(** An interaction matches a query: one of its topic labels contains the
    query topic, case ignored, and its kind is the requested one when a
    kind is requested. *)
Definition matches_query (lower : string → string) (query_topic : string)
    (kind : option string) (i : InteractionMemory) : Prop :=
  (∃ label, label ∈ topics_covered i ∧ ci_substring lower query_topic label) ∧
  (∀ k, kind = Some k → question_type i = k).

(** [str.lower()] on a string of ASCII characters: the letters [A] to [Z]
    become [a] to [z] and nothing else changes. *)
Definition lower_ascii (c : ascii) : ascii :=
  let n := N_of_ascii c in
  if ((65 <=? n) && (n <=? 90))%N then ascii_of_N (n + 32) else c.

Fixpoint ascii_lower (s : string) : string :=
  match s with
  | EmptyString => EmptyString
  | String c s' => String (lower_ascii c) (ascii_lower s')
  end.

Definition is_ascii (s : string) : bool :=
  forallb (fun c => (N_of_ascii c <? 128)%N) (list_ascii_of_string s).

(** What the scenarios use of [str.lower()]: on ASCII strings it is
    [ascii_lower]. *)
Definition lowers_ascii (lower : string → string) : Prop :=
  ∀ s, is_ascii s = true → lower s = ascii_lower s.

(** Every topic label of every interaction of a session is ASCII. *)
Definition ascii_topics (sm : SessionMemory) : Prop :=
  ∀ i label, i ∈ interactions sm → label ∈ topics_covered i → is_ascii label = true.

(** The [n] most recent elements of a chronological list. *)
Definition most_recent {A} (n : nat) (l : list A) : list A :=
  drop (length l - n) l.

(** The two interactions of the search scenario. *)
Definition search_calls : list (InteractionArgs * Z) :=
  map (fun p : list string * Z =>
         ({| arg_question := Some "Q"; arg_answer := Some "A"; arg_evaluation := None;
             arg_feedback := None; arg_context := None;
             arg_question_type := "follow_up";
             arg_expected_topics := Some (fst p);
             arg_timestamp := None |}, snd p))
      [(["caching"; "database"], 1); (["caching"; "cdn"], 2)].

Definition search_store : Result ConversationMemory :=
  add_interactions (initialize_session empty_store 1%N "chat_system" BEGINNER 0)
                   1%N search_calls.

Definition search_entry (topics : list string) (ts : Z) : SimilarEntry :=
  {| s_timestamp := ts; s_question := Some "Q"; s_answer := Some "A";
     s_question_type := "follow_up"; s_topics_covered := topics |}.

(** The store of the scenario. *)
Definition search_memory : ConversationMemory :=
  match search_store with
  | Ok cm => cm
  | Raise _ => empty_store
  end.

(** A store read at [now = 100 h], holding a session started 25 hours
    earlier, with one recorded sample, and a session started an hour
    earlier. *)
Definition sweep_store : ConversationMemory :=
  {| sessions := {[ 1%N := fresh_session 1%N "chat_system" BEGINNER (hours 75);
                    2%N := fresh_session 2%N "url_shortener" ADVANCED (hours 99) ]};
     max_memory_hours := 24;
     max_interactions_per_session := 100;
     performance_cache :=
       {[ 1%N := [{| ps_timestamp := hours 76;
                     ps_evaluation := [("clarity_score", PyInt 7)];
                     ps_question_type := "general" |}] ]} |}.

(** A session with one evaluated interaction. *)
Definition evaluated_call : InteractionArgs * Z :=
  ({| arg_question := Some "Q1"; arg_answer := Some "A1";
      arg_evaluation := Some [("clarity_score", PyInt 7)];
      arg_feedback := None; arg_context := None;
      arg_question_type := "opening";
      arg_expected_topics := Some ["requirements"];
      arg_timestamp := None |}, 5).

Definition evaluated_store : ConversationMemory :=
  match add_interactions (initialize_session empty_store 1%N "chat_system" BEGINNER 0)
                         1%N [evaluated_call] with
  | Ok cm => cm
  | Raise _ => empty_store
  end.

(** The performance sample a call records: one when its evaluation is
    truthy, none otherwise. *)
Definition sample_of (c : InteractionArgs * Z) : list PerformanceSample :=
  if truthy_dict (arg_evaluation (fst c)) then
    [{| ps_timestamp := timestamp (new_interaction (fst c) (snd c));
        ps_evaluation := default [] (arg_evaluation (fst c));
        ps_question_type := arg_question_type (fst c) |}]
  else [].

Definition samples_of (calls : list (InteractionArgs * Z)) : list PerformanceSample :=
  flat_map sample_of calls.

(** The samples recorded for a session, as [performance_cache[session_id]]
    reads them. *)
Definition cached_samples (cm : ConversationMemory) (sid : N) : list PerformanceSample :=
  default [] (performance_cache cm !! sid).

(** An evaluated call, then plain calls, under a bound of two. *)
Definition mixed_calls : list (InteractionArgs * Z) :=
  evaluated_call :: topic_calls.

(** The count a frequency table holds for a key, [0] for an absent key:
    [counts.get(key, 0)]. *)
Fixpoint count_of (counts : list (string * nat)) (key : string) : nat :=
  match counts with
  | [] => 0%nat
  | (k, n) :: rest => if String.eqb k key then n else count_of rest key
  end.

(** The number of times a label occurs in a list of labels. *)
Definition occurrences (t : string) (l : list string) : nat :=
  length (List.filter (String.eqb t) l).

(** Every topic of a retained interaction is a covered topic. *)
Definition topics_within_covered (sm : SessionMemory) : Prop :=
  ∀ i t, i ∈ interactions sm → t ∈ topics_covered i → t ∈ covered_topics sm.

(** ** The orchestrator: [cleanup_session] *)

Module Orchestrator.

(** [MainOrchestrator.cleanup_session]: the entry of the session table is
    deleted when present, then the memory's [cleanup_session] runs. *)
Definition cleanup_session (o : MainOrchestrator) (sid : N) : MainOrchestrator :=
  {| memory := cleanup_session (memory o) sid;
     current_sessions := delete sid (current_sessions o) |}.

End Orchestrator.

(** ** The AI service

    [AIService] owns the orchestrator; its methods are modelled on the
    orchestrator they act on. *)

(** What a method of the service raises: [ResourceNotFoundError], or the
    exception it caught, raised again. *)
Inductive ServiceError :=
| ResourceNotFoundError (session_id : N)
| Reraised (e : PyError).

Inductive ServiceResult (A : Type) :=
| Done (a : A)
| Failed (e : ServiceError).
Arguments Done {A} a.
Arguments Failed {A} e.

(** [AIService.process_user_response]: a [ValueError] of the orchestrator
    becomes [ResourceNotFoundError]; any other exception is raised again. *)
Definition process_user_response (o : MainOrchestrator) (env : AgentOutcomes)
    (sid : N) (user_message : string) : ServiceResult (Response * MainOrchestrator) :=
  match process_user_answer o env sid user_message with
  | Ok response => Done response
  | Raise (ValueError _) => Failed (ResourceNotFoundError sid)
  | Raise e => Failed (Reraised e)
  end.

(** One entry of [conversation_highlights]. *)
Record Highlight := {
  hl_type : string;
  hl_timestamp : Z;
  hl_description : string
}.

(** [score >= 8] for the values that are [int] or [float]. *)
Definition score_at_least_8 (v : PyVal) : bool :=
  match v with
  | PyInt z => 8 <=? z
  | PyFloat q => Qle_bool (8 # 1) q
  | PyStr _ => false
  end.

(** The test under which an interaction yields a highlight:
    [interaction.get("evaluation")] is truthy and one of its numeric values
    is at least eight. *)
Definition is_highlight (e : HistoryEntry) : bool :=
  truthy_dict (h_evaluation e) &&
  existsb score_at_least_8 (map snd (default [] (h_evaluation e))).

(** [AIService._extract_conversation_highlights] *)
Definition _extract_conversation_highlights (history : list HistoryEntry)
  : list Highlight :=
  map (fun e => {| hl_type := "strength";
                   hl_timestamp := h_timestamp e;
                   hl_description := "Strong performance on this topic" |})
      (List.filter is_highlight (slice_from history (- 5))).

Record ConversationSummary := {
  cs_session_id : N;
  cs_total_interactions : nat;
  cs_topic_coverage : option TopicCoverage;
  cs_performance_trends : list PerformanceSample;
  conversation_highlights : list Highlight
}.

(** [AIService.get_conversation_summary]; the handler logs and raises the
    exception again, so a failure of a read is the failure of the call. *)
Definition get_conversation_summary (o : MainOrchestrator) (sid : N)
  : Result ConversationSummary :=
  history ← get_conversation_history (memory o) sid None true;
  topic_coverage ← get_topic_coverage (memory o) sid;
  performance_trends ← get_performance_trends (memory o) sid 10;
  Ok {| cs_session_id := sid;
        cs_total_interactions := length history;
        cs_topic_coverage := topic_coverage;
        cs_performance_trends := performance_trends;
        conversation_highlights := _extract_conversation_highlights history |}.

(** A history of seven entries; the second and the sixth carry a score of
    nine, the fourth a score of five. *)
Definition scored_history : list HistoryEntry :=
  map (fun n : Z =>
         {| h_timestamp := n; h_question := Some "Q"; h_answer := Some "A";
            h_feedback := None; h_question_type := "follow_up";
            h_topics_covered := [];
            h_evaluation :=
              if (n =? 2) || (n =? 6) then Some [("clarity_score", PyInt 9)]
              else if n =? 4 then Some [("clarity_score", PyInt 5)]
              else None |})
      [1; 2; 3; 4; 5; 6; 7].

(** ** The interview session entity

    [backend/app/domain/entities/session.py]. Each [datetime.now()] of a
    method is an argument of its model, in the order the method reads the
    clock; [uuid.uuid4()] is an argument too. [int(delta.total_seconds())]
    is a function of the span in microseconds, taken as the parameter
    [int_seconds]. *)

Module Session.

Inductive SessionStatus := ACTIVE | COMPLETED | ABANDONED.

Inductive MessageRole := USER | ASSISTANT | SYSTEM.

Inductive MessageType := TEXT | QUESTION | ANSWER | FEEDBACK | CLARIFICATION | HINT.

Record SessionConfig := {
  topic : string;
  difficulty_level : DifficultyLevel;
  max_duration_minutes : Z;
  enable_hints : bool;
  enable_real_time_feedback : bool;
  custom_requirements : option string
}.

Record Message := {
  message_id : N;
  role : MessageRole;
  content : string;
  message_type : MessageType;
  timestamp : Z;
  metadata : PyDict;
  tokens_used : Z
}.

Record InterviewSession := {
  session_id : N;
  user_id : N;
  config : SessionConfig;
  status : SessionStatus;
  started_at : Z;
  ended_at : option Z;
  total_duration : option Z;
  created_at : Z;
  updated_at : Z;
  feedback : PyDict;
  messages : list Message
}.

#[global] Instance SessionStatus_eq_dec : EqDecision SessionStatus.
Proof. solve_decision. Defined.

#[global] Instance MessageRole_eq_dec : EqDecision MessageRole.
Proof. solve_decision. Defined.

(** [InterviewSession.__init__] with the optional arguments left out. *)
Definition new_session (session_id user_id : N) (config : SessionConfig)
    (now1 now2 now3 : Z) : InterviewSession :=
  {| session_id := session_id; user_id := user_id; config := config;
     status := ACTIVE;
     started_at := now1; ended_at := None; total_duration := None;
     created_at := now2; updated_at := now3;
     feedback := []; messages := [] |}.

(** [_mark_as_updated] *)
Definition _mark_as_updated (s : InterviewSession) (now : Z) : InterviewSession :=
  {| session_id := session_id s; user_id := user_id s; config := config s;
     status := status s;
     started_at := started_at s; ended_at := ended_at s;
     total_duration := total_duration s;
     created_at := created_at s; updated_at := now;
     feedback := feedback s; messages := messages s |}.

(** [_calculate_duration]; [started_at] is always set, so the guard
    [if not self.started_at] never fires. *)
Definition _calculate_duration (int_seconds : Z → Z) (s : InterviewSession)
    (now : Z) : Z :=
  let end_time := default now (ended_at s) in
  int_seconds (end_time - started_at s).

(** The assignments of [complete_session] and [abandon_session] to
    [status], [ended_at] and [total_duration]. *)
Definition end_session (int_seconds : Z → Z) (final : SessionStatus)
    (s : InterviewSession) (now later : Z) : InterviewSession :=
  let s1 :=
    {| session_id := session_id s; user_id := user_id s; config := config s;
       status := final;
       started_at := started_at s; ended_at := Some now;
       total_duration := total_duration s;
       created_at := created_at s; updated_at := updated_at s;
       feedback := feedback s; messages := messages s |} in
  let s2 :=
    {| session_id := session_id s1; user_id := user_id s1; config := config s1;
       status := status s1;
       started_at := started_at s1; ended_at := ended_at s1;
       total_duration := Some (_calculate_duration int_seconds s1 later);
       created_at := created_at s1; updated_at := updated_at s1;
       feedback := feedback s1; messages := messages s1 |} in
  _mark_as_updated s2 later.

(** [complete_session] *)
Definition complete_session (int_seconds : Z → Z) (s : InterviewSession)
    (now later : Z) : InterviewSession :=
  if decide (status s = ACTIVE) then end_session int_seconds COMPLETED s now later
  else s.

(** [abandon_session] *)
Definition abandon_session (int_seconds : Z → Z) (s : InterviewSession)
    (now later : Z) : InterviewSession :=
  if decide (status s = ACTIVE) then end_session int_seconds ABANDONED s now later
  else s.

(** [extend_session] *)
Definition extend_session (s : InterviewSession) (additional_minutes : Z)
    (now : Z) : InterviewSession :=
  if decide (status s = ACTIVE) then
    _mark_as_updated
      {| session_id := session_id s; user_id := user_id s;
         config :=
           {| topic := topic (config s);
              difficulty_level := difficulty_level (config s);
              max_duration_minutes :=
                max_duration_minutes (config s) + additional_minutes;
              enable_hints := enable_hints (config s);
              enable_real_time_feedback := enable_real_time_feedback (config s);
              custom_requirements := custom_requirements (config s) |};
         status := status s;
         started_at := started_at s; ended_at := ended_at s;
         total_duration := total_duration s;
         created_at := created_at s; updated_at := updated_at s;
         feedback := feedback s; messages := messages s |} now
  else s.

(** [is_expired] *)
Definition is_expired (int_seconds : Z → Z) (s : InterviewSession) (now : Z) : bool :=
  if decide (status s = ACTIVE) then
    max_duration_minutes (config s) * 60 <=? _calculate_duration int_seconds s now
  else false.

(** [add_message]: the new message and the session holding it. *)
Definition add_message (s : InterviewSession) (fresh_id : N) (role : MessageRole)
    (content : string) (message_type : MessageType) (metadata : option PyDict)
    (tokens_used : Z) (now later : Z) : Message * InterviewSession :=
  let message :=
    {| message_id := fresh_id; role := role; content := content;
       message_type := message_type; timestamp := now;
       metadata := default [] metadata; tokens_used := tokens_used |} in
  (message,
   _mark_as_updated
     {| session_id := session_id s; user_id := user_id s; config := config s;
        status := status s;
        started_at := started_at s; ended_at := ended_at s;
        total_duration := total_duration s;
        created_at := created_at s; updated_at := updated_at s;
        feedback := feedback s; messages := messages s ++ [message] |} later).

(** [sorted(messages, key=lambda m: m.timestamp)]: the stable sort, written
    as insertion from the left; a message goes before the first one that
    is strictly later, so messages of equal time keep their order. *)
Fixpoint insert_by_timestamp (m : Message) (sorted : list Message) : list Message :=
  match sorted with
  | [] => [m]
  | x :: rest =>
    if timestamp m <? timestamp x then m :: x :: rest
    else x :: insert_by_timestamp m rest
  end.

Definition sorted_by_timestamp (l : list Message) : list Message :=
  foldl (fun acc m => insert_by_timestamp m acc) [] l.

(** [get_conversation_history] *)
Definition get_conversation_history (s : InterviewSession) (limit : option Z)
  : list Message :=
  let messages := sorted_by_timestamp (messages s) in
  if truthy_int limit then slice_from messages (- default 0 limit) else messages.

(** [get_session_metrics] *)
Record SessionMetrics := {
  m_session_id : N;
  m_status : SessionStatus;
  m_topic : string;
  m_difficulty : DifficultyLevel;
  duration_seconds : Z;
  total_messages : nat;
  user_messages : nat;
  assistant_messages : nat;
  total_tokens_used : Z;
  m_started_at : Z;
  m_ended_at : option Z
}.

Definition get_session_metrics (int_seconds : Z → Z) (s : InterviewSession)
    (now : Z) : SessionMetrics :=
  {| m_session_id := session_id s;
     m_status := status s;
     m_topic := topic (config s);
     m_difficulty := difficulty_level (config s);
     duration_seconds := _calculate_duration int_seconds s now;
     total_messages := length (messages s);
     user_messages :=
       length (List.filter (fun m => bool_decide (role m = USER)) (messages s));
     assistant_messages :=
       length (List.filter (fun m => bool_decide (role m = ASSISTANT)) (messages s));
     total_tokens_used := foldr Z.add 0 (map tokens_used (messages s));
     m_started_at := started_at s;
     m_ended_at := ended_at s |}.

(** The operations that change a session, with their clock readings. *)
Inductive Operation :=
| Complete (now later : Z)
| Abandon (now later : Z)
| Extend (additional_minutes now : Z)
| AddMessage (fresh_id : N) (role : MessageRole) (content : string)
    (message_type : MessageType) (metadata : option PyDict) (tokens_used : Z)
    (now later : Z).

Definition apply_operation (int_seconds : Z → Z) (s : InterviewSession)
    (op : Operation) : InterviewSession :=
  match op with
  | Complete now later => complete_session int_seconds s now later
  | Abandon now later => abandon_session int_seconds s now later
  | Extend additional_minutes now => extend_session s additional_minutes now
  | AddMessage fresh_id role content message_type metadata tokens_used now later =>
    snd (add_message s fresh_id role content message_type metadata tokens_used now later)
  end.

(** Whole seconds of a span of microseconds, as [int(float)] truncates. *)
Definition whole_seconds (microseconds : Z) : Z := Z.quot microseconds 1000000.

(** A one-hour session on a cache design, started at time zero. *)
Definition hour_session : InterviewSession :=
  new_session 1%N 2%N
    {| topic := "distributed_cache"; difficulty_level := INTERMEDIATE;
       max_duration_minutes := 60; enable_hints := true;
       enable_real_time_feedback := true; custom_requirements := None |}
    0 0 0.

End Session.

(** Chronological order of messages, equal times allowed. *)
Definition chronological (l : list Session.Message) : Prop :=
  StronglySorted (fun a b => Session.timestamp a ≤ Session.timestamp b) l.

(** The messages stamped with a given time, in list order. *)
Definition stamped (t : Z) (l : list Session.Message) : list Session.Message :=
  List.filter (fun m => Session.timestamp m =? t) l.

(** The one-hour session completed after 1800.5 seconds. *)
Definition completed_session : Session.InterviewSession :=
  Session.complete_session Session.whole_seconds Session.hour_session
    1800500000 1800500001.

(** Operations tried on a session that has ended. *)
Definition late_operations : list Session.Operation :=
  [Session.Abandon 1900000000 1900000001;
   Session.Extend 10 1900000002;
   Session.AddMessage 7%N Session.USER "one more thing" Session.ANSWER None 12
     1900000003 1900000004;
   Session.Complete 1900000005 1900000006].

(** Three messages stored out of chronological order, two of them with the
    same time. *)
Definition shuffled_messages : list Session.Message :=
  map (fun p : N * Z =>
         {| Session.message_id := fst p; Session.role := Session.USER;
            Session.content := "text"; Session.message_type := Session.TEXT;
            Session.timestamp := snd p; Session.metadata := [];
            Session.tokens_used := 3 |})
      [(1%N, 30); (2%N, 10); (3%N, 30)].

Definition shuffled_session : Session.InterviewSession :=
  {| Session.session_id := 1%N; Session.user_id := 2%N;
     Session.config := Session.config Session.hour_session;
     Session.status := Session.ACTIVE;
     Session.started_at := 0; Session.ended_at := None;
     Session.total_duration := None;
     Session.created_at := 0; Session.updated_at := 0;
     Session.feedback := []; Session.messages := shuffled_messages |}.

(** ** Vocabulary of the performance summary and the conversation flow *)

(** The numeric values recorded under a key, over all samples, in the order
    [_get_performance_summary] meets them. *)
Definition numeric_values_in (key : string) (ev : PyDict) : list PyVal :=
  flat_map (fun kv =>
              if String.eqb (fst kv) key && is_number (snd kv) then [snd kv] else []) ev.

Definition numeric_values (key : string) (samples : list PerformanceSample)
  : list PyVal :=
  flat_map (fun d => numeric_values_in key (ps_evaluation d)) samples.

(** The list a [defaultdict(list)] holds for a key, empty for an absent key. *)
Fixpoint scores_of (scores : list (string * list PyVal)) (key : string) : list PyVal :=
  match scores with
  | [] => []
  | (k, vs) :: rest => if String.eqb k key then vs else scores_of rest key
  end.

(** The table of scores is well formed when no key occurs twice, every key
    ends in [_score] and every list holds a value. *)
Definition scores_wf (scores : list (string * list PyVal)) : Prop :=
  NoDup (map fst scores) ∧
  Forall (fun kv => endswith (fst kv) "_score" = true ∧ snd kv ≠ []) scores.

(** The number a score stands for. *)
Definition number_value (v : PyVal) : Q :=
  match v with
  | PyInt z => inject_Z z
  | PyFloat q => q
  | PyStr _ => (0 # 1)%Q
  end.

(** [sum(scores) / len(scores)] where Python computes it without rounding
    and without overflow, as it does for the small whole scores of the
    scenarios; [ZeroDivisionError] on the empty list. *)
Definition exact_mean (scores : list PyVal) : Result PyVal :=
  match scores with
  | [] => Raise (Exception "ZeroDivisionError")
  | _ :: _ =>
    Ok (PyFloat (Qred (foldr Qplus (0 # 1) (map number_value scores)
                       / inject_Z (Z.of_nat (length scores)))%Q))
  end.

(** The quotient on the lists of the scenarios: it raises
    [OverflowError] when a whole score is [2^1024] or more, which no float
    holds, as Python does for a list of one such score, and it is
    [exact_mean] otherwise. *)
Definition overflowing_mean (scores : list PyVal) : Result PyVal :=
  if existsb (fun v => match v with PyInt z => 2 ^ 1024 <=? z | _ => false end) scores
  then Raise OverflowError else exact_mean scores.

(** The kinds of question that count in the flow: the non-empty ones. *)
Definition nonempty_kinds (sm : SessionMemory) : list string :=
  List.filter (fun k => negb (String.eqb k "")) (map question_type (interactions sm)).

(** Two samples whose clarity score falls from nine to three; the second
    also carries a value that is not a number and a key that is no score. *)
Definition falling_samples : list PerformanceSample :=
  [{| ps_timestamp := 1; ps_evaluation := [("clarity_score", PyInt 9)];
      ps_question_type := "opening" |};
   {| ps_timestamp := 2;
      ps_evaluation := [("clarity_score", PyInt 3); ("depth_score", PyStr "n/a");
                        ("confidence", PyInt 10)];
      ps_question_type := "follow_up" |}].

Definition falling_store : ConversationMemory :=
  {| sessions := {[ 1%N := fresh_session 1%N "chat_system" BEGINNER 0 ]};
     max_memory_hours := 24;
     max_interactions_per_session := 100;
     performance_cache := {[ 1%N := falling_samples ]} |}.

(** A store whose one cached sample holds a whole score of [10^400], too
    large for a float. *)
Definition oversized_store : ConversationMemory :=
  {| sessions := {[ 1%N := fresh_session 1%N "chat_system" BEGINNER 0 ]};
     max_memory_hours := 24;
     max_interactions_per_session := 100;
     performance_cache :=
       {[ 1%N := [{| ps_timestamp := 1;
                     ps_evaluation := [("clarity_score", PyInt (10 ^ 400))];
                     ps_question_type := "opening" |}] ]} |}.

(** A session of six interactions whose kinds are, in order, opening,
    follow_up, the empty string, follow_up, deep_dive, follow_up. *)
Definition six_kinds_session : SessionMemory :=
  {| session_id := 1%N; topic := "chat_system"; difficulty := BEGINNER;
     start_time := 0;
     interactions :=
       map (fun p : Z * string =>
              {| timestamp := fst p; question := Some "Q"; answer := Some "A";
                 evaluation := None; feedback := None; context := None;
                 question_type := snd p; topics_covered := [] |})
           [(1, "opening"); (2, "follow_up"); (3, ""); (4, "follow_up");
            (5, "deep_dive"); (6, "follow_up")];
     current_question := Some "Q"; covered_topics := [];
     performance_trends := []; context_summary := None |}.

(** ** The in-memory session repository

    [backend/app/infrastructure/repositories/in_memory_session_repository.py].
    The repository keeps two dictionaries: the sessions by identifier and,
    for each user, the list of the identifiers of the sessions created for
    that user. It stores the session objects themselves; the model holds
    the state a stored object has when the repository is read. *)

(** [l[i:j]] *)
Definition slice {A} (l : list A) (i j : Z) : list A :=
  take (slice_bound (length l) j - slice_bound (length l) i)
       (drop (slice_bound (length l) i) l).

Module Repository.

Record InMemorySessionRepository := {
  _sessions : gmap N Session.InterviewSession;
  _user_sessions : gmap N (list N)
}.

(** [__init__], also the state after [clear_all_sessions]. *)
Definition new_repository : InMemorySessionRepository :=
  {| _sessions := ∅; _user_sessions := ∅ |}.

Definition clear_all_sessions (repo : InMemorySessionRepository)
  : InMemorySessionRepository := new_repository.

(** [create]; the value returned is the session passed. *)
Definition create (repo : InMemorySessionRepository)
    (session : Session.InterviewSession) : InMemorySessionRepository :=
  {| _sessions := <[Session.session_id session := session]> (_sessions repo);
     _user_sessions :=
       <[Session.user_id session :=
           default [] (_user_sessions repo !! Session.user_id session)
           ++ [Session.session_id session]]> (_user_sessions repo) |}.

(** [get_by_id] *)
Definition get_by_id (repo : InMemorySessionRepository) (session_id : N)
  : option Session.InterviewSession :=
  _sessions repo !! session_id.

(** [sessions.sort(key=lambda s: s.created_at, reverse=True)]: the stable
    sort, newest first, written as insertion from the left; a session goes
    before the first one that is strictly older, so sessions of equal
    creation time keep their order. *)
Fixpoint insert_by_created_at (s : Session.InterviewSession)
    (sorted : list Session.InterviewSession) : list Session.InterviewSession :=
  match sorted with
  | [] => [s]
  | x :: rest =>
    if Session.created_at x <? Session.created_at s then s :: x :: rest
    else x :: insert_by_created_at s rest
  end.

Definition sorted_newest_first (l : list Session.InterviewSession)
  : list Session.InterviewSession :=
  foldl (fun acc s => insert_by_created_at s acc) [] l.

(** [[self._sessions[sid] for sid in user_session_ids if sid in self._sessions]]
    over [self._user_sessions.get(user_id, [])]. *)
Definition listed_sessions (repo : InMemorySessionRepository) (user_id : N)
  : list Session.InterviewSession :=
  omap (fun sid => _sessions repo !! sid) (default [] (_user_sessions repo !! user_id)).

(** [get_by_user_id] *)
Definition get_by_user_id (repo : InMemorySessionRepository) (user_id : N)
    (limit offset : Z) : list Session.InterviewSession :=
  slice (sorted_newest_first (listed_sessions repo user_id)) offset (offset + limit).

(** The loop of [get_active_session_for_user]. *)
Fixpoint first_active (sessions : gmap N Session.InterviewSession) (ids : list N)
  : option Session.InterviewSession :=
  match ids with
  | [] => None
  | session_id :: rest =>
    match sessions !! session_id with
    | Some session =>
      if decide (Session.status session = Session.ACTIVE) then Some session
      else first_active sessions rest
    | None => first_active sessions rest
    end
  end.

(** [get_active_session_for_user] *)
Definition get_active_session_for_user (repo : InMemorySessionRepository)
    (user_id : N) : option Session.InterviewSession :=
  first_active (_sessions repo) (default [] (_user_sessions repo !! user_id)).

(** [update]; the value returned is the session passed. *)
Definition update (repo : InMemorySessionRepository)
    (session : Session.InterviewSession) : Result InMemorySessionRepository :=
  match _sessions repo !! Session.session_id session with
  | None => Raise (ValueError (Session.session_id session))
  | Some _ =>
    Ok {| _sessions := <[Session.session_id session := session]> (_sessions repo);
          _user_sessions := _user_sessions repo |}
  end.

(** [list.remove(x)] where a missing [x] is ignored: the [ValueError] is
    caught. *)
Fixpoint remove_first (x : N) (l : list N) : list N :=
  match l with
  | [] => []
  | y :: rest => if decide (y = x) then rest else y :: remove_first x rest
  end.

(** [get_session_count] *)
Definition get_session_count (repo : InMemorySessionRepository) : nat :=
  size (_sessions repo).

(** [delete]: the repository afterwards and the value returned. *)
Definition delete (repo : InMemorySessionRepository) (session_id : N)
  : InMemorySessionRepository * bool :=
  match _sessions repo !! session_id with
  | Some session =>
    ({| _sessions := base.delete session_id (_sessions repo);
        _user_sessions :=
          match _user_sessions repo !! Session.user_id session with
          | Some ids =>
            <[Session.user_id session := remove_first session_id ids]>
              (_user_sessions repo)
          | None => _user_sessions repo
          end |}, true)
  | None => (repo, false)
  end.

End Repository.

(** The index of a repository agrees with its sessions: a session is
    stored under its own identifier and listed for its user, and a user's
    list names stored sessions of that user, each once. *)
Definition well_indexed (repo : Repository.InMemorySessionRepository) : Prop :=
  (∀ sid s, Repository._sessions repo !! sid = Some s →
     Session.session_id s = sid ∧
     ∃ ids, Repository._user_sessions repo !! Session.user_id s = Some ids ∧ sid ∈ ids) ∧
  (∀ uid ids, Repository._user_sessions repo !! uid = Some ids →
     NoDup ids ∧
     ∀ sid, sid ∈ ids →
       ∃ s, Repository._sessions repo !! sid = Some s ∧ Session.user_id s = uid).

(** Newest first, equal creation times allowed. *)
Definition newest_first (l : list Session.InterviewSession) : Prop :=
  StronglySorted (fun a b => Session.created_at b ≤ Session.created_at a) l.

(** A session for a user, with a status and a creation time. *)
Definition session_of (sid uid : N) (st : Session.SessionStatus) (created : Z)
  : Session.InterviewSession :=
  {| Session.session_id := sid; Session.user_id := uid;
     Session.config := Session.config Session.hour_session;
     Session.status := st;
     Session.started_at := created; Session.ended_at := None;
     Session.total_duration := None;
     Session.created_at := created; Session.updated_at := created;
     Session.feedback := []; Session.messages := [] |}.

(** A repository after three creations for user 7 and one for user 8. *)
Definition small_repository : Repository.InMemorySessionRepository :=
  foldl Repository.create Repository.new_repository
    [session_of 1 7 Session.COMPLETED 10; session_of 2 7 Session.ACTIVE 30;
     session_of 3 8 Session.ACTIVE 20; session_of 4 7 Session.ACTIVE 20].

(** * Properties *)

(** ** Slices *)

Section Slices.
Context {A : Type}.
Implicit Types (l : list A) (k : Z).

(** [l[-k:]] for a positive [k]: the last [k] elements. *)
Lemma slice_from_last l k :
  0 < k → slice_from l (- k) = drop (length l - Z.to_nat k) l.
Proof.
  intros Hk. unfold slice_from, slice_bound.
  destruct (Z.ltb_spec (- k) 0) as [_|?]; [|lia].
  f_equal. lia.
Qed.

(** [l[-0:]] is the whole list. *)
Lemma slice_from_zero l : slice_from l (- 0) = l.
Proof.
  unfold slice_from, slice_bound. simpl.
  by rewrite Z.min_l by lia.
Qed.

(** [l[:-k]] for a positive [k]: all but the last [k] elements. *)
Lemma slice_to_last l k :
  0 < k → slice_to l (- k) = take (length l - Z.to_nat k) l.
Proof.
  intros Hk. unfold slice_to, slice_bound.
  destruct (Z.ltb_spec (- k) 0) as [_|?]; [|lia].
  f_equal. lia.
Qed.

(** [l[:-0]] is empty. *)
Lemma slice_to_zero l : slice_to l (- 0) = [].
Proof.
  unfold slice_to, slice_bound. simpl.
  by rewrite Z.min_l by lia.
Qed.

Lemma slice_from_last_length l k :
  0 < k → length (slice_from l (- k)) = Nat.min (length l) (Z.to_nat k).
Proof. intros Hk. rewrite slice_from_last, length_drop by done. lia. Qed.
End Slices.

(** ** The store under [add_interaction] *)

Lemma add_interaction_known cm sid sm a now :
  sessions cm !! sid = Some sm →
  ∃ cm', add_interaction cm sid a now = Ok cm' ∧
         sessions cm' = <[sid := session_add (max_interactions_per_session cm) sm a now]> (sessions cm) ∧
         max_interactions_per_session cm' = max_interactions_per_session cm ∧
         max_memory_hours cm' = max_memory_hours cm ∧
         performance_cache cm' = cache_add (performance_cache cm) sid a now.
Proof.
  intros Hsm. unfold add_interaction. rewrite Hsm. eexists. split; [done|]. done.
Qed.

Lemma add_interactions_known calls : ∀ cm sid sm,
  sessions cm !! sid = Some sm →
  ∃ cm', add_interactions cm sid calls = Ok cm' ∧
         sessions cm' !! sid =
           Some (session_adds (max_interactions_per_session cm) sm calls) ∧
         max_interactions_per_session cm' = max_interactions_per_session cm.
Proof.
  induction calls as [|[a now] calls IH]; intros cm sid sm Hsm; simpl.
  - by exists cm.
  - destruct (add_interaction_known cm sid sm a now Hsm)
      as (cm1 & -> & Hs & Hmax & _ & _).
    destruct (IH cm1 sid (session_add (max_interactions_per_session cm) sm a now))
      as (cm' & Hrun & Hlook & Hmax').
    { rewrite Hs. apply lookup_insert_eq. }
    exists cm'. split; [exact Hrun|]. rewrite Hlook, Hmax', Hmax. done.
Qed.

(** ** The size bound *)

Lemma _manage_memory_size_bound max_interactions sm :
  2 ≤ max_interactions →
  Z.of_nat (length (interactions (_manage_memory_size max_interactions sm)))
    ≤ max_interactions.
Proof.
  intros Hmax. unfold _manage_memory_size.
  destruct (Z.gtb_spec (Z.of_nat (length (interactions sm))) max_interactions)
    as [Hgt|Hle]; [|done].
  assert (0 < max_interactions / 2) by (apply Z.div_str_pos; lia).
  assert (max_interactions / 2 ≤ max_interactions)
    by (apply Z.div_le_upper_bound; lia).
  simpl. rewrite slice_from_last_length by done. lia.
Qed.

(** With a bound of at least two, every call leaves the session within the
    bound, whatever state it started from. *)
Lemma session_add_bound max_interactions sm a now :
  2 ≤ max_interactions →
  Z.of_nat (length (interactions (session_add max_interactions sm a now)))
    ≤ max_interactions.
Proof. intros. unfold session_add. by apply _manage_memory_size_bound. Qed.

Lemma add_interaction_bound cm sid sm a now :
  2 ≤ max_interactions_per_session cm →
  sessions cm !! sid = Some sm →
  ∃ cm' sm', add_interaction cm sid a now = Ok cm' ∧
             sessions cm' !! sid = Some sm' ∧
             Z.of_nat (length (interactions sm')) ≤ max_interactions_per_session cm'.
Proof.
  intros Hmax Hsm.
  destruct (add_interaction_known cm sid sm a now Hsm) as (cm' & Hrun & Hs & Hm & _).
  exists cm', (session_add (max_interactions_per_session cm) sm a now).
  split; [done|]. split; [rewrite Hs; apply lookup_insert_eq|].
  rewrite Hm. by apply session_add_bound.
Qed.

(** With a bound of zero or one, [keep_count] is [0]: [interactions[:-0]]
    is empty, [interactions[-0:]] is the whole list, and nothing is
    evicted. *)
Lemma _manage_memory_size_keeps_all max_interactions sm :
  0 ≤ max_interactions ≤ 1 →
  interactions (_manage_memory_size max_interactions sm) = interactions sm.
Proof.
  intros Hmax. unfold _manage_memory_size.
  destruct (_ >? _); [|done].
  replace (max_interactions / 2) with 0
    by (symmetry; apply Z.div_small; lia).
  simpl. apply slice_from_zero.
Qed.

Lemma session_add_grows max_interactions sm a now :
  0 ≤ max_interactions ≤ 1 →
  interactions (session_add max_interactions sm a now)
  = interactions sm ++ [new_interaction a now].
Proof.
  intros Hmax. unfold session_add.
  rewrite _manage_memory_size_keeps_all by done.
  simpl. by destruct (truthy_str _).
Qed.

(** C1. The size bound fails when [max_interactions_per_session = 1]: two
    [add_interaction] calls on a fresh session both return, and the
    session then holds two interactions, one more than the bound. *)
Theorem add_interaction_exceeds_bound_of_one :
  ∃ cm' sm',
    add_interactions store_of_one 7%N [(default_args, 1); (default_args, 2)] = Ok cm' ∧
    sessions cm' !! 7%N = Some sm' ∧
    max_interactions_per_session cm' = 1 ∧
    length (interactions sm') = 2%nat ∧
    context_summary sm' = None.
Proof.
  destruct (add_interactions_known [(default_args, 1); (default_args, 2)]
              store_of_one 7%N
              (fresh_session 7%N "chat_system" BEGINNER 0)) as (cm' & Hrun & Hlook & Hmax).
  { apply lookup_insert_eq. }
  eexists cm', _. split; [exact Hrun|]. split; [exact Hlook|].
  split; [exact Hmax|]. split; reflexivity.
Qed.

(** ** Eviction *)

(** The fields of [session_add] before the size check. *)
Lemma session_add_unfold max_interactions sm a now :
  ∃ sm3,
    session_add max_interactions sm a now = _manage_memory_size max_interactions sm3 ∧
    interactions sm3 = interactions sm ++ [new_interaction a now] ∧
    context_summary sm3 = context_summary sm ∧
    covered_topics sm3 = update_covered (covered_topics sm) (arg_expected_topics a).
Proof.
  unfold session_add. eexists. split; [reflexivity|].
  destruct (truthy_str (arg_question a)); done.
Qed.

Lemma _manage_memory_size_covered max_interactions sm :
  covered_topics (_manage_memory_size max_interactions sm) = covered_topics sm.
Proof. unfold _manage_memory_size. by destruct (_ >? _). Qed.

(** Below the bound nothing is evicted and the summary is untouched. *)
Lemma session_add_no_eviction max_interactions sm a now :
  Z.of_nat (length (interactions sm)) + 1 ≤ max_interactions →
  interactions (session_add max_interactions sm a now)
    = interactions sm ++ [new_interaction a now] ∧
  context_summary (session_add max_interactions sm a now) = context_summary sm.
Proof.
  intros Hle.
  destruct (session_add_unfold max_interactions sm a now) as (sm3 & -> & Hi & Hc & _).
  unfold _manage_memory_size.
  destruct (Z.gtb_spec (Z.of_nat (length (interactions sm3))) max_interactions)
    as [Hgt|_]; [|done].
  rewrite Hi, length_app in Hgt. simpl in Hgt. lia.
Qed.

(** Above the bound the list is cut to its last [max // 2] elements and
    the rest is summarised. *)
Lemma session_add_eviction max_interactions sm a now :
  max_interactions < Z.of_nat (length (interactions sm)) + 1 →
  let all := interactions sm ++ [new_interaction a now] in
  interactions (session_add max_interactions sm a now)
    = slice_from all (- (max_interactions / 2)) ∧
  context_summary (session_add max_interactions sm a now)
    = _summarize_interactions (slice_to all (- (max_interactions / 2))).
Proof.
  intros Hlt all.
  destruct (session_add_unfold max_interactions sm a now) as (sm3 & -> & Hi & Hc & _).
  unfold _manage_memory_size.
  destruct (Z.gtb_spec (Z.of_nat (length (interactions sm3))) max_interactions)
    as [_|Hle].
  - simpl. by rewrite Hi.
  - rewrite Hi, length_app in Hle. simpl in Hle. lia.
Qed.

Lemma session_adds_snoc max_interactions sm calls c :
  session_adds max_interactions sm (calls ++ [c])
  = session_add max_interactions (session_adds max_interactions sm calls) (fst c) (snd c).
Proof. unfold session_adds. by rewrite foldl_app. Qed.

Lemma session_adds_no_eviction max_interactions calls : ∀ sm,
  Z.of_nat (length (interactions sm) + length calls) ≤ max_interactions →
  interactions (session_adds max_interactions sm calls)
    = interactions sm ++ logs_of calls ∧
  context_summary (session_adds max_interactions sm calls) = context_summary sm.
Proof.
  induction calls as [|[a now] calls IH]; intros sm Hle; simpl in *.
  - by rewrite app_nil_r.
  - destruct (session_add_no_eviction max_interactions sm a now) as [Hi Hc]; [lia|].
    destruct (IH (session_add max_interactions sm a now)) as [Hi' Hc'].
    { rewrite Hi, length_app. simpl. lia. }
    fold (session_adds max_interactions (session_add max_interactions sm a now) calls).
    rewrite Hi', Hc', Hi, Hc. by rewrite <- app_assoc.
Qed.

(** What [_summarize_interactions] records of a non-empty slice. *)
Lemma last_default {A} (l : list A) (x d : A) :
  last l = Some x → List.last l d = x.
Proof.
  induction l as [|y [|z l] IH]; intros H; simplify_eq/=; [done|].
  by apply IH.
Qed.

Lemma _summarize_interactions_spec (l : list InteractionMemory) first final :
  head l = Some first → last l = Some final →
  ∃ cs, _summarize_interactions l = Some cs ∧
    summarized_interactions cs = length l ∧
    time_period_start cs = timestamp first ∧
    time_period_end cs = timestamp final ∧
    (∀ t, t ∈ topics_discussed cs ↔ ∃ i, i ∈ l ∧ t ∈ topics_covered i) ∧
    NoDup (topics_discussed cs) ∧
    (∀ k, k ∈ question_types cs ↔ k ≠ "" ∧ ∃ i, i ∈ l ∧ question_type i = k) ∧
    NoDup (question_types cs) ∧
    evaluation_count cs
      = length (List.filter (fun i => truthy_dict (evaluation i)) l).
Proof.
  intros Hhd Hlast. destruct l as [|i0 l]; [done|]. simplify_eq/=.
  eexists. split; [reflexivity|].
  cbn [summarized_interactions time_period_start time_period_end
       topics_discussed question_types evaluation_count].
  split; [done|]. split; [done|].
  split; [f_equal; exact (last_default (first :: l) final first Hlast)|].
  split.
  { intros t. rewrite elem_of_elements, elem_of_list_to_set.
    change (t ∈ flat_map topics_covered (first :: l) ↔
            ∃ i, i ∈ first :: l ∧ t ∈ topics_covered i).
    rewrite list_elem_of_In, in_flat_map.
    split; intros (i & Hi & Ht); exists i.
    - by rewrite !list_elem_of_In.
    - by rewrite <- !list_elem_of_In. }
  split; [apply NoDup_elements|].
  split; [|split; [apply NoDup_elements|done]].
  intros k. rewrite elem_of_elements, elem_of_list_to_set.
  change (k ∈ List.filter (fun k => truthy_str (Some k))
                          (map question_type (first :: l)) ↔
          k ≠ "" ∧ ∃ i, i ∈ first :: l ∧ question_type i = k).
  rewrite list_elem_of_In, filter_In, in_map_iff.
  split.
  - intros ((i & <- & Hi) & Hk). split.
    + by destruct (question_type i).
    + exists i. by rewrite list_elem_of_In.
  - intros (Hk & i & Hi & <-). split.
    + exists i. by rewrite <- list_elem_of_In.
    + by destruct (question_type i).
Qed.

(** C2. With [max_interactions_per_session = 10], eleven [add_interaction]
    calls on a freshly initialised session all return; afterwards exactly
    the five most recent interactions remain, and the context summary
    describes the six evicted ones: their number, the timestamps of the
    first and the last of them, their distinct topics, their distinct
    (non-empty) kinds and the number of them carrying a (non-empty)
    evaluation. *)
Theorem eviction_after_eleven cm sid topic difficulty now0
    (calls : list (InteractionArgs * Z)) :
  max_interactions_per_session cm = 10 →
  length calls = 11%nat →
  let logs := logs_of calls in
  ∃ cm' sm' cs,
    add_interactions (initialize_session cm sid topic difficulty now0) sid calls = Ok cm' ∧
    sessions cm' !! sid = Some sm' ∧
    interactions sm' = drop 6 logs ∧
    length (interactions sm') = 5%nat ∧
    context_summary sm' = Some cs ∧
    summarized_interactions cs = 6%nat ∧
    Some (time_period_start cs) = timestamp <$> logs !! 0%nat ∧
    Some (time_period_end cs) = timestamp <$> logs !! 5%nat ∧
    (∀ t, t ∈ topics_discussed cs ↔ ∃ i, i ∈ take 6 logs ∧ t ∈ topics_covered i) ∧
    NoDup (topics_discussed cs) ∧
    (∀ k, k ∈ question_types cs ↔ k ≠ "" ∧ ∃ i, i ∈ take 6 logs ∧ question_type i = k) ∧
    NoDup (question_types cs) ∧
    evaluation_count cs
      = length (List.filter (fun i => truthy_dict (evaluation i)) (take 6 logs)).
Proof.
  intros Hmax Hlen logs.
  set (cm0 := initialize_session cm sid topic difficulty now0).
  set (sm0 := fresh_session sid topic difficulty now0).
  destruct (add_interactions_known calls cm0 sid sm0) as (cm' & Hrun & Hlook & _).
  { apply lookup_insert_eq. }
  change (max_interactions_per_session cm0) with (max_interactions_per_session cm) in Hlook.
  rewrite Hmax in Hlook.
  assert (∃ init c, calls = init ++ [c] ∧ length init = 10%nat) as (init & c & -> & Hinit).
  { exists (take 10 calls), (List.last calls (default_args, 0)).
    do 11 (destruct calls as [|? calls]; [done|]). by destruct calls. }
  destruct (session_adds_no_eviction 10 init sm0) as [Hi Hc].
  { simpl. lia. }
  destruct (session_add_eviction 10 (session_adds 10 sm0 init) (fst c) (snd c))
    as [Hi' Hc'].
  { rewrite Hi, length_app. unfold logs_of. rewrite length_map. simpl. lia. }
  rewrite <- session_adds_snoc in Hi', Hc'.
  rewrite Hi in Hi', Hc'. simpl in Hi', Hc'.
  change (logs_of init ++ [new_interaction (fst c) (snd c)])
    with (logs_of init ++ logs_of [c]) in Hi', Hc'.
  unfold logs_of in Hi', Hc'. rewrite <- map_app in Hi', Hc'.
  fold (logs_of (init ++ [c])) in Hi', Hc'. fold logs in Hi', Hc'.
  assert (length logs = 11%nat) as Hlogs.
  { unfold logs, logs_of. by rewrite length_map. }
  change (10 / 2) with 5 in Hi', Hc'.
  rewrite slice_from_last in Hi' by lia. rewrite slice_to_last in Hc' by lia.
  rewrite Hlogs in Hi', Hc'.
  change (11 - Z.to_nat 5)%nat with 6%nat in Hi', Hc'.
  clearbody logs. clear Hi Hc Hinit Hlen.
  do 11 (destruct logs as [|? logs]; [done|]). destruct logs; [|done].
  edestruct (_summarize_interactions_spec
               (take 6 [i; i0; i1; i2; i3; i4; i5; i6; i7; i8; i9]) i i4)
    as (cs & Hcs & Hn & Hstart & Hend & Htopics & Hnd & Hkinds & Hnd' & Hev);
    [reflexivity..|].
  exists cm', (session_adds 10 sm0 (init ++ [c])), cs.
  split; [exact Hrun|]. split; [exact Hlook|]. split; [exact Hi'|].
  split; [by rewrite Hi'|]. split; [by rewrite Hc', Hcs|].
  split; [exact Hn|]. split; [by rewrite Hstart|]. split; [by rewrite Hend|].
  done.
Qed.

Lemma eviction_after_eleven_witness :
  max_interactions_per_session (init_memory 24 10) = 10 ∧
  length eleven_calls = 11%nat ∧
  ∃ cm' sm' cs,
    add_interactions (initialize_session (init_memory 24 10) 1%N "chat_system" BEGINNER 0)
                     1%N eleven_calls = Ok cm' ∧
    sessions cm' !! 1%N = Some sm' ∧
    length (interactions sm') = 5%nat ∧
    context_summary sm' = Some cs ∧
    summarized_interactions cs = 6%nat ∧
    time_period_start cs = 1 ∧
    time_period_end cs = 600.
Proof.
  split; [reflexivity|]. split; [reflexivity|].
  destruct (eviction_after_eleven (init_memory 24 10) 1%N "chat_system" BEGINNER 0
              eleven_calls eq_refl eq_refl)
    as (cm' & sm' & cs & Hrun & Hlook & _ & Hlen & Hcs & Hn & Hstart & Hend & _).
  exists cm', sm', cs.
  repeat split; try assumption.
  - simpl in Hstart. by injection Hstart.
  - simpl in Hend. by injection Hend.
Defined.

(** ** Covered topics *)

Lemma add_topic_prefix covered t : covered `prefix_of` add_topic covered t.
Proof.
  unfold add_topic. case_bool_decide; [done|]. by apply prefix_app_r.
Qed.

Lemma elem_of_add_topic covered t t' :
  t' ∈ add_topic covered t ↔ t' ∈ covered ∨ t' = t.
Proof.
  unfold add_topic. case_bool_decide.
  - split; [by left|]. by intros [?| ->].
  - by rewrite elem_of_app, list_elem_of_singleton.
Qed.

Lemma foldl_add_topic_prefix ts : ∀ covered,
  covered `prefix_of` foldl add_topic covered ts.
Proof.
  induction ts as [|t ts IH]; intros covered; simpl; [done|].
  etrans; [apply add_topic_prefix|apply IH].
Qed.

Lemma elem_of_foldl_add_topic ts : ∀ covered t',
  t' ∈ foldl add_topic covered ts ↔ t' ∈ covered ∨ t' ∈ ts.
Proof.
  induction ts as [|t ts IH]; intros covered t'; simpl.
  - rewrite elem_of_nil. tauto.
  - rewrite IH, elem_of_add_topic, elem_of_cons. tauto.
Qed.

Lemma update_covered_prefix covered expected :
  covered `prefix_of` update_covered covered expected.
Proof.
  destruct expected as [[|t ts]|]; simpl; [done| |done].
  apply (foldl_add_topic_prefix (t :: ts)).
Qed.

Lemma elem_of_update_covered covered expected t' :
  t' ∈ update_covered covered expected ↔ t' ∈ covered ∨ t' ∈ default [] expected.
Proof.
  destruct expected as [[|t ts]|]; simpl.
  - rewrite elem_of_nil. tauto.
  - apply (elem_of_foldl_add_topic (t :: ts)).
  - rewrite elem_of_nil. tauto.
Qed.

Lemma session_add_covered max_interactions sm a now :
  covered_topics (session_add max_interactions sm a now)
  = update_covered (covered_topics sm) (arg_expected_topics a).
Proof.
  destruct (session_add_unfold max_interactions sm a now) as (sm3 & -> & _ & _ & Hc).
  by rewrite _manage_memory_size_covered.
Qed.

Lemma session_adds_covered max_interactions calls : ∀ sm,
  covered_topics sm `prefix_of` covered_topics (session_adds max_interactions sm calls) ∧
  ∀ t, t ∈ covered_topics (session_adds max_interactions sm calls) ↔
       t ∈ covered_topics sm ∨
       ∃ c, c ∈ calls ∧ t ∈ default [] (arg_expected_topics (fst c)).
Proof.
  induction calls as [|[a now] calls IH]; intros sm; simpl.
  - split; [done|]. intros t. split; [by left|].
    intros [?|(c & Hc & _)]; [done|]. by apply elem_of_nil in Hc.
  - destruct (IH (session_add max_interactions sm a now)) as [Hpre Hin].
    fold (session_adds max_interactions (session_add max_interactions sm a now) calls).
    rewrite session_add_covered in Hpre, Hin. split.
    + etrans; [apply update_covered_prefix|exact Hpre].
    + intros t. rewrite Hin, elem_of_update_covered. split.
      * intros [[?|Ht]|(c & Hc & Ht)]; [by left| |].
        -- right. exists (a, now). split; [apply elem_of_cons; by left|done].
        -- right. exists c. split; [apply elem_of_cons; by right|done].
      * intros [?|(c & Hc & Ht)]; [by left; left|].
        apply elem_of_cons in Hc as [->|Hc]; [by left; right|].
        right. by exists c.
Qed.

(** C6. On a known session every sequence of [add_interaction] calls
    returns; the covered topics before the calls are an initial segment of
    the covered topics after them, eviction or not, and a topic is covered
    afterwards exactly when it was covered before or was passed as an
    expected topic by one of the calls. For a session that starts with no
    covered topic, as [initialize_session] creates it, the covered topics
    are therefore the union of the topics passed. *)
Theorem covered_topics_monotone cm sid sm (calls : list (InteractionArgs * Z)) :
  sessions cm !! sid = Some sm →
  ∃ cm' sm',
    add_interactions cm sid calls = Ok cm' ∧
    sessions cm' !! sid = Some sm' ∧
    covered_topics sm `prefix_of` covered_topics sm' ∧
    (∀ t, t ∈ covered_topics sm → t ∈ covered_topics sm') ∧
    (∀ t, t ∈ covered_topics sm' ↔
          t ∈ covered_topics sm ∨
          ∃ c, c ∈ calls ∧ t ∈ default [] (arg_expected_topics (fst c))) ∧
    (covered_topics sm = [] →
     ∀ t, t ∈ covered_topics sm' ↔
          ∃ c, c ∈ calls ∧ t ∈ default [] (arg_expected_topics (fst c))).
Proof.
  intros Hsm.
  destruct (add_interactions_known calls cm sid sm Hsm) as (cm' & Hrun & Hlook & _).
  destruct (session_adds_covered (max_interactions_per_session cm) calls sm)
    as [Hpre Hin].
  eexists cm', _. split; [exact Hrun|]. split; [exact Hlook|].
  split; [exact Hpre|]. split; [|split; [exact Hin|]].
  - intros t Ht. apply Hin. by left.
  - intros Hnil t. rewrite Hin, Hnil, elem_of_nil. tauto.
Qed.

Lemma covered_topics_monotone_witness :
  ∃ cm' sm',
    add_interactions (initialize_session (init_memory 24 2) 1%N "chat_system" BEGINNER 0)
                     1%N topic_calls = Ok cm' ∧
    sessions cm' !! 1%N = Some sm' ∧
    (∀ t, t ∈ covered_topics sm' ↔
          ∃ c, c ∈ topic_calls ∧ t ∈ default [] (arg_expected_topics (fst c))).
Proof.
  destruct (covered_topics_monotone
              (initialize_session (init_memory 24 2) 1%N "chat_system" BEGINNER 0)
              1%N (fresh_session 1%N "chat_system" BEGINNER 0) topic_calls)
    as (cm' & sm' & Hrun & Hlook & _ & _ & _ & Hunion).
  { apply lookup_insert_eq. }
  exists cm', sm'. split; [exact Hrun|]. split; [exact Hlook|].
  apply Hunion. reflexivity.
Defined.

(** ** Unknown sessions *)

Lemma cache_within_sessions_init h m : cache_within_sessions (init_memory h m).
Proof. intros sid _. apply lookup_empty. Qed.

Lemma cache_within_sessions_initialize cm sid topic difficulty now :
  cache_within_sessions cm →
  cache_within_sessions (initialize_session cm sid topic difficulty now).
Proof.
  intros Hinv sid'. simpl. rewrite lookup_insert.
  case_decide; [done|]. apply Hinv.
Qed.

Lemma cache_within_sessions_add cm sid a now cm' :
  cache_within_sessions cm →
  add_interaction cm sid a now = Ok cm' →
  cache_within_sessions cm'.
Proof.
  intros Hinv Hrun sid'. unfold add_interaction in Hrun.
  destruct (sessions cm !! sid) as [sm|] eqn:Hsm; [|done].
  injection Hrun as <-. simpl. rewrite lookup_insert.
  case_decide as Hsid; [done|]. intros Hnone.
  unfold cache_add. destruct (truthy_dict _); [|by apply Hinv].
  rewrite lookup_insert_ne by done. by apply Hinv.
Qed.

Lemma cache_within_sessions_cleanup cm sid :
  cache_within_sessions cm → cache_within_sessions (cleanup_session cm sid).
Proof.
  intros Hinv sid'. simpl. rewrite !lookup_delete.
  case_decide; [done|]. apply Hinv.
Qed.

Lemma cache_within_sessions_remove_expired cm cutoff_time :
  cache_within_sessions cm → cache_within_sessions (remove_expired cm cutoff_time).
Proof.
  unfold remove_expired. generalize (map fst
    (List.filter (fun kv => is_expired cutoff_time (snd kv))
                 (map_to_list (sessions cm)))).
  intros ks. revert cm. induction ks as [|k ks IH]; intros cm Hinv; simpl; [done|].
  apply IH. by apply cache_within_sessions_cleanup.
Qed.

Lemma cache_within_sessions_sweep cm now cm' :
  cache_within_sessions cm → cleanup_expired_sessions cm now = Ok cm' →
  cache_within_sessions cm'.
Proof.
  intros Hinv. unfold cleanup_expired_sessions.
  destruct (timedelta_hours _) as [delta|]; [|done]. simpl.
  destruct (datetime_sub now delta) as [cutoff_time|]; [|done]. simpl.
  intros [= <-]. by apply cache_within_sessions_remove_expired.
Qed.

(** C4, as stated, fails: on an unknown session identifier
    [get_performance_trends] and [search_similar_interactions] return the
    empty list and [get_topic_coverage] the empty dictionary; none of them
    raises. *)
Lemma unknown_session_reads_return_empty :
  sessions empty_store !! 1%N = None ∧
  get_performance_trends empty_store 1%N 10 = Ok [] ∧
  search_similar_interactions ascii_lower empty_store 1%N "cach" None 5 = Ok [] ∧
  get_topic_coverage empty_store 1%N = Ok None ∧
  ¬ (∃ e, get_performance_trends empty_store 1%N 10 = Raise e) ∧
  ¬ (∃ e, search_similar_interactions ascii_lower empty_store 1%N "cach" None 5
          = Raise e) ∧
  ¬ (∃ e, get_topic_coverage empty_store 1%N = Raise e).
Proof.
  repeat split; try reflexivity; intros [e He]; discriminate He.
Qed.

(** C4, amended. On an unknown session identifier [add_interaction] and
    [get_session_context] raise the not-found error; the other reads
    return an empty result instead: [get_conversation_history],
    [search_similar_interactions] and [get_performance_trends] the empty
    list, [get_topic_coverage] the empty dictionary. *)
Theorem unknown_session_outcomes mean_of lower cm sid a now limit include_evaluations
    query_topic interaction_type search_limit window_size :
  cache_within_sessions cm →
  sessions cm !! sid = None →
  add_interaction cm sid a now = Raise (ValueError sid) ∧
  get_session_context mean_of cm sid = Raise (ValueError sid) ∧
  get_conversation_history cm sid limit include_evaluations = Ok [] ∧
  search_similar_interactions lower cm sid query_topic interaction_type search_limit
    = Ok [] ∧
  get_performance_trends cm sid window_size = Ok [] ∧
  get_topic_coverage cm sid = Ok None.
Proof.
  intros Hinv Hnone.
  unfold add_interaction, get_session_context, get_conversation_history,
    search_similar_interactions, get_performance_trends, get_topic_coverage.
  by rewrite Hnone, (Hinv sid Hnone).
Qed.

Lemma unknown_session_outcomes_witness :
  add_interaction empty_store 1%N default_args 0 = Raise (ValueError 1%N) ∧
  get_session_context exact_mean empty_store 1%N = Raise (ValueError 1%N) ∧
  get_conversation_history empty_store 1%N (Some 3) false = Ok [] ∧
  search_similar_interactions ascii_lower empty_store 1%N "cach" None 5 = Ok [] ∧
  get_performance_trends empty_store 1%N 10 = Ok [] ∧
  get_topic_coverage empty_store 1%N = Ok None.
Proof.
  apply (unknown_session_outcomes exact_mean ascii_lower empty_store 1%N default_args 0
           (Some 3) false
           "cach" None 5 10).
  - intros sid _. reflexivity.
  - reflexivity.
Defined.

(** ** One turn of the orchestrator *)

(** Whatever the outcomes of the remote calls, a turn that returns leaves
    the conversation memory as it was: no path of [process_user_answer]
    calls [add_interaction]. *)
Lemma process_user_answer_memory o env sid user_answer r o' :
  process_user_answer o env sid user_answer = Ok (r, o') →
  memory o' = memory o.
Proof.
  unfold process_user_answer, _process_agent_response, _update_session_state.
  destruct (current_sessions o !! sid) as [st|]; [|done].
  destruct (ainvoke env) as [[]|e]; simpl.
  - destruct (generate_follow_up_question env) as [q|e]; simpl.
    + intros [= <- <-]. done.
    + by intros [= <- <-].
  - by intros [= <- <-].
Qed.

(** C5, as stated, fails: when the agent call inside the question
    generator raises, [generate_follow_up_question] answers with its own
    fallback question, and the turn returns an ordinary follow-up payload
    that carries no fallback marker. *)
Lemma generator_failure_returns_follow_up :
  ∃ r o',
    process_user_answer running_orchestrator
      (turn_outcomes (Ok tt) (Raise (Exception "LLM call failed")) running_state
                     "my answer")
      1%N "my answer" = Ok (r, o') ∧
    resp_type r = "follow_up" ∧
    fallback r = None ∧
    fallback r ≠ Some true.
Proof.
  eexists _, _. split; [reflexivity|]. split; [reflexivity|].
  split; [reflexivity|discriminate].
Qed.

(** C5, amended. On a known session, when the call of the orchestrator's
    agent or the call of [generate_follow_up_question] raises,
    [process_user_answer] returns normally with the fallback response,
    marked ["fallback": True] and carrying no evaluation, and the
    orchestrator, its conversation memory included, is exactly as before
    the call. A failure further inside does not get that far: when the
    agent of the question generator raises, the turn returns the follow-up
    payload with the generator's fallback question and no marker, the
    memory unchanged; and the tool [evaluate_answer] turns a failing
    evaluation into an error dictionary. *)
Theorem process_user_answer_fallback o sid user_answer st :
  current_sessions o !! sid = Some st →
  (∀ env,
     (∃ e, ainvoke env = Raise e) ∨ (∃ e, generate_follow_up_question env = Raise e) →
     ∃ r, process_user_answer o env sid user_answer = Ok (r, o) ∧
          fallback r = Some true ∧
          resp_type r = "fallback" ∧
          resp_evaluation r = None ∧
          resp_session_id r = sid) ∧
  (∀ e, ∃ r o',
     process_user_answer o (turn_outcomes (Ok tt) (Raise e) st user_answer)
                         sid user_answer = Ok (r, o') ∧
     resp_type r = "follow_up" ∧
     fallback r = None ∧
     resp_evaluation r = None ∧
     message r
     = qg_question
         (QuestionGenerator._generate_fallback_follow_up
            (default "" (last_question st)) user_answer (st_topic st) (st_difficulty st)) ∧
     memory o' = memory o) ∧
  (∀ e, EvaluationTool.evaluate_answer (Raise e) = EvaluationTool.ErrorDict e).
Proof.
  intros Hst. split; [|split; [|done]].
  - intros env Hfail. unfold process_user_answer, _process_agent_response. rewrite Hst.
    destruct Hfail as [[e He]|[e He]].
    + rewrite He. simpl. by eexists.
    + rewrite He. destruct (ainvoke env) as [[]|e']; simpl; by eexists.
  - intros e.
    unfold process_user_answer, _process_agent_response, _update_session_state.
    rewrite Hst. simpl. eexists _, _. split; [reflexivity|]. done.
Qed.

Lemma process_user_answer_fallback_witness :
  (∃ r, process_user_answer running_orchestrator failing_outcomes 1%N "my answer"
          = Ok (r, running_orchestrator) ∧
        fallback r = Some true ∧
        resp_type r = "fallback" ∧
        resp_evaluation r = None ∧
        resp_session_id r = 1%N) ∧
  (∃ r o',
     process_user_answer running_orchestrator
       (turn_outcomes (Ok tt) (Raise (Exception "LLM call failed")) running_state
                      "my answer")
       1%N "my answer" = Ok (r, o') ∧
     resp_type r = "follow_up" ∧
     fallback r = None).
Proof.
  destruct (process_user_answer_fallback running_orchestrator 1%N "my answer"
              running_state eq_refl) as (Hmarked & Habsorbed & _).
  split.
  - apply (Hmarked failing_outcomes). left.
    exists (Exception "agent.ainvoke failed"). reflexivity.
  - destruct (Habsorbed (Exception "LLM call failed"))
      as (r & o' & Hrun & Htype & Hmark & _).
    by exists r, o'.
Defined.

(** C3. A successful turn on a known session returns the follow-up
    response and counts the question in the orchestrator's own table, but
    records nothing in the conversation memory: the session's interaction
    list is as empty after the turn as before it. *)
Theorem process_user_answer_records_nothing :
  ∃ r o' st' sm',
    process_user_answer running_orchestrator successful_outcomes 1%N "my answer"
      = Ok (r, o') ∧
    resp_type r = "follow_up" ∧
    fallback r = None ∧
    current_sessions o' !! 1%N = Some st' ∧
    questions_asked st' = 2 ∧
    memory o' = memory running_orchestrator ∧
    sessions (memory o') !! 1%N = Some sm' ∧
    interactions sm' = [].
Proof.
  eexists _, _, _, _. split; [reflexivity|].
  split; [reflexivity|]. split; [reflexivity|].
  split; [reflexivity|]. split; [reflexivity|].
  split; [reflexivity|]. split; reflexivity.
Qed.

(** ** Topic search *)

Lemma append_cons c s t : String c s +:+ t = String c (s +:+ t).
Proof. reflexivity. Qed.

Lemma prefix_spec needle : ∀ hay,
  String.prefix needle hay = true ↔ ∃ post, hay = needle +:+ post.
Proof.
  induction needle as [|c needle IH]; intros hay.
  - destruct hay; (split; [by eexists|done]).
  - destruct hay as [|c' hay]; simpl.
    + split; [done|]. intros [post Hpost]. by rewrite append_cons in Hpost.
    + destruct (Ascii.ascii_dec c c') as [->|Hne].
      * rewrite IH. split; intros [post Hpost]; exists post.
        -- by rewrite append_cons, Hpost.
        -- rewrite append_cons in Hpost. by simplify_eq.
      * split; [done|]. intros [post Hpost].
        rewrite append_cons in Hpost. by simplify_eq.
Qed.

(** [needle in hay] holds exactly when [needle] occurs in [hay]. *)
Lemma str_in_spec needle hay :
  str_in needle hay = true ↔ ∃ pre post, hay = pre +:+ needle +:+ post.
Proof.
  induction hay as [|c hay IH].
  - change (str_in needle "") with (String.prefix needle "" || false).
    rewrite orb_false_r, prefix_spec. split.
    + intros [post Hpost]. by exists "", post.
    + intros (pre & post & Hpre). destruct pre; [by exists post|].
      by rewrite append_cons in Hpre.
  - change (str_in needle (String c hay))
      with (String.prefix needle (String c hay) || str_in needle hay).
    rewrite orb_true_iff, prefix_spec, IH. split.
    + intros [[post Hpost]|(pre & post & Hpre)].
      * by exists "", post.
      * exists (String c pre), post. by rewrite append_cons, Hpre.
    + intros (pre & post & Hpre). destruct pre as [|c' pre].
      * left. by exists post.
      * right. exists pre, post. rewrite append_cons in Hpre. by simplify_eq.
Qed.

Lemma topic_overlap_spec lower query_topic topics :
  topic_overlap lower query_topic topics = true ↔
  ∃ label, label ∈ topics ∧ ci_substring lower query_topic label.
Proof.
  unfold topic_overlap, ci_substring. rewrite existsb_exists.
  split; intros (label & Hin & Hsub); exists label.
  - by rewrite list_elem_of_In, <- str_in_spec.
  - by rewrite <- list_elem_of_In, str_in_spec.
Qed.

Lemma is_similar_spec lower query_topic kind i :
  kind ≠ Some "" →
  is_similar lower query_topic kind i = true ↔ matches_query lower query_topic kind i.
Proof.
  intros Hkind. unfold is_similar, matches_query.
  rewrite !andb_true_iff, topic_overlap_spec, orb_true_iff, negb_true_iff,
    bool_decide_eq_true.
  split.
  - intros [[_ Hlabel] Hk]. split; [done|]. intros k ->.
    destruct Hk as [Hk|Hk]; [|by simplify_eq].
    destruct k; [done|discriminate Hk].
  - intros [Hlabel Hk]. split; [split; [|done]|].
    + destruct Hlabel as (label & Hin & _).
      destruct (topics_covered i); [by apply elem_of_nil in Hin|done].
    + destruct kind as [k|]; [|by left]. right. by rewrite (Hk k).
Qed.

Lemma slice_from_map_last {A B} (f : A → B) (l : list A) (k : Z) :
  0 < k → slice_from (map f l) (- k) = map f (most_recent (Z.to_nat k) l).
Proof.
  intros Hk. rewrite slice_from_last by done.
  unfold most_recent. by rewrite length_map, skipn_map.
Qed.

(** On ASCII data the search does not depend on what [str.lower()] does
    elsewhere. *)
Lemma topic_overlap_ascii lower query_topic topics :
  lowers_ascii lower → is_ascii query_topic = true →
  (∀ label, label ∈ topics → is_ascii label = true) →
  topic_overlap lower query_topic topics = topic_overlap ascii_lower query_topic topics.
Proof.
  intros Hlower Hquery Htopics. unfold topic_overlap. rewrite (Hlower _ Hquery).
  induction topics as [|t topics IH]; simpl; [done|].
  rewrite (Hlower t) by (apply Htopics; by left).
  rewrite IH; [done|]. intros label Hin. apply Htopics. by right.
Qed.

Lemma search_similar_interactions_ascii lower cm sid sm query_topic kind limit :
  lowers_ascii lower → is_ascii query_topic = true →
  sessions cm !! sid = Some sm → ascii_topics sm →
  search_similar_interactions lower cm sid query_topic kind limit
  = search_similar_interactions ascii_lower cm sid query_topic kind limit.
Proof.
  intros Hlower Hquery Hsm Hascii. unfold search_similar_interactions. rewrite Hsm.
  do 3 f_equal. apply filter_ext_in. intros i Hi. unfold is_similar.
  rewrite (topic_overlap_ascii lower); [done..|].
  intros label Hin. apply (Hascii i); [by apply list_elem_of_In|done].
Qed.

(** C7, as stated, fails for [limit = 0]: the zero most recent matches are
    none, but [similar_interactions[-0:]] is every match. *)
Lemma search_limit_zero_returns_all :
  ∃ cm, search_store = Ok cm ∧
    search_similar_interactions ascii_lower cm 1%N "cach" None 0
      = Ok [search_entry ["caching"; "database"] 1; search_entry ["caching"; "cdn"] 2] ∧
    search_similar_interactions ascii_lower cm 1%N "cach" None 0
      ≠ Ok (most_recent 0 [search_entry ["caching"; "database"] 1;
                           search_entry ["caching"; "cdn"] 2]).
Proof.
  eexists. split; [reflexivity|]. split; [reflexivity|]. discriminate.
Qed.

(** C7, amended. On a known session, for a limit of at least one and a
    kind that is absent or a non-empty string, the search returns, in
    chronological order, the [limit] most recent of the interactions that
    match the query (all of them when there are fewer), where a label
    matches when the query lower-cased by [str.lower()] occurs in the
    label lower-cased by [str.lower()]; this holds whatever [str.lower()]
    does to a string. In the scenario with topics [caching, database] and
    [caching, cdn], where [str.lower()] acts on ASCII letters only, the
    query ["cach"] returns both interactions and ["cdn"] only the
    second. *)
Theorem search_similar_interactions_spec :
  (∀ lower cm sid sm query_topic kind limit,
     sessions cm !! sid = Some sm →
     1 ≤ limit →
     kind ≠ Some "" →
     ∃ similar : InteractionMemory → bool,
       (∀ i, similar i = true ↔ matches_query lower query_topic kind i) ∧
       search_similar_interactions lower cm sid query_topic kind limit
       = Ok (map similar_entry
                 (most_recent (Z.to_nat limit)
                              (List.filter similar (interactions sm))))) ∧
  (∀ lower, lowers_ascii lower →
     ∃ cm, search_store = Ok cm ∧
       search_similar_interactions lower cm 1%N "cach" None 5
         = Ok [search_entry ["caching"; "database"] 1;
               search_entry ["caching"; "cdn"] 2] ∧
       search_similar_interactions lower cm 1%N "cdn" None 5
         = Ok [search_entry ["caching"; "cdn"] 2]).
Proof.
  split.
  - intros lower cm sid sm query_topic kind limit Hsm Hlimit Hkind.
    exists (is_similar lower query_topic kind). split.
    + intros i. by apply is_similar_spec.
    + unfold search_similar_interactions. rewrite Hsm.
      by rewrite slice_from_map_last by lia.
  - intros lower Hlower. exists search_memory. split; [reflexivity|].
    assert (ascii_topics
              {| session_id := 1%N; topic := "chat_system"; difficulty := BEGINNER;
                 start_time := 0; interactions := logs_of search_calls;
                 current_question := Some "Q";
                 covered_topics := ["caching"; "database"; "cdn"];
                 performance_trends := []; context_summary := None |}) as Hascii.
    { intros i label Hi Hlabel. cbn [interactions] in Hi.
      repeat (apply elem_of_cons in Hi as [->|Hi]);
        [| |by apply elem_of_nil in Hi];
        cbn in Hlabel;
        repeat (apply elem_of_cons in Hlabel as [->|Hlabel]);
        try reflexivity; by apply elem_of_nil in Hlabel. }
    split.
    + rewrite (search_similar_interactions_ascii lower search_memory 1%N _ "cach" None 5
                 Hlower eq_refl eq_refl Hascii). reflexivity.
    + rewrite (search_similar_interactions_ascii lower search_memory 1%N _ "cdn" None 5
                 Hlower eq_refl eq_refl Hascii). reflexivity.
Qed.

Lemma search_similar_interactions_spec_witness :
  search_store = Ok search_memory ∧
  lowers_ascii ascii_lower ∧
  search_similar_interactions ascii_lower search_memory 1%N "cdn" None 5
    = Ok [search_entry ["caching"; "cdn"] 2] ∧
  ∃ similar,
    (∀ i, similar i = true ↔ matches_query ascii_lower "CDN" (Some "follow_up") i) ∧
    search_similar_interactions ascii_lower search_memory 1%N "CDN" (Some "follow_up") 1
    = Ok (map similar_entry
              (most_recent 1 (List.filter similar (logs_of search_calls)))).
Proof.
  assert (lowers_ascii ascii_lower) as Hlower by (by intros s _).
  split; [reflexivity|]. split; [exact Hlower|]. split.
  { destruct (proj2 search_similar_interactions_spec ascii_lower Hlower)
      as (cm & Hstore & _ & Hcdn).
    injection Hstore as <-. exact Hcdn. }
  destruct (proj1 search_similar_interactions_spec ascii_lower search_memory 1%N
              {| session_id := 1%N; topic := "chat_system"; difficulty := BEGINNER;
                 start_time := 0; interactions := logs_of search_calls;
                 current_question := Some "Q";
                 covered_topics := ["caching"; "database"; "cdn"];
                 performance_trends := []; context_summary := None |}
              "CDN" (Some "follow_up") 1)
    as (similar & Hspec & Hrun); [reflexivity|lia|discriminate|].
  exists similar. split; [exact Hspec|exact Hrun].
Defined.

(** ** Conversation history *)

Lemma most_recent_all {A} (n : nat) (l : list A) :
  (length l ≤ n)%nat → most_recent n l = l.
Proof.
  intros Hle. unfold most_recent.
  by replace (length l - n)%nat with 0%nat by lia.
Qed.

Lemma most_recent_length {A} (n : nat) (l : list A) :
  length (most_recent n l) = Nat.min n (length l).
Proof. unfold most_recent. rewrite length_drop. lia. Qed.

(** C8, as stated, fails for [limit = 0]: the test [if limit:] treats it as
    no limit, and the whole history is returned instead of its zero most
    recent entries. *)
Lemma history_limit_zero_returns_all :
  ∃ entries,
    get_conversation_history search_memory 1%N (Some 0) false = Ok entries ∧
    length entries = 2%nat ∧
    entries ≠ most_recent 0 entries.
Proof.
  eexists. split; [reflexivity|]. split; [reflexivity|]. discriminate.
Qed.

(** C8, amended. On a known session, a limit of at least one yields the
    [limit] most recent interactions in chronological order, all of them
    when there are no more than [limit]; an absent limit or a limit of zero
    yields the whole history. On an unknown session the result is the
    empty list, not an error. *)
Theorem get_conversation_history_spec cm sid limit include_evaluations :
  (∀ sm, sessions cm !! sid = Some sm →
     (∀ k, limit = Some k → 1 ≤ k →
        get_conversation_history cm sid limit include_evaluations
        = Ok (map (history_entry include_evaluations)
                  (most_recent (Z.to_nat k) (interactions sm))) ∧
        ((length (interactions sm) ≤ Z.to_nat k)%nat →
         get_conversation_history cm sid limit include_evaluations
         = Ok (map (history_entry include_evaluations) (interactions sm)))) ∧
     (limit = None ∨ limit = Some 0 →
        get_conversation_history cm sid limit include_evaluations
        = Ok (map (history_entry include_evaluations) (interactions sm)))) ∧
  (sessions cm !! sid = None →
     get_conversation_history cm sid limit include_evaluations = Ok []).
Proof.
  unfold get_conversation_history. split.
  - intros sm ->. split.
    + intros k -> Hk. simpl.
      destruct (Z.eqb_spec k 0) as [->|_]; [lia|]. simpl.
      rewrite slice_from_last by lia. fold (most_recent (Z.to_nat k) (interactions sm)).
      split; [done|]. intros Hle. by rewrite most_recent_all.
    + by intros [->| ->].
  - by intros ->.
Qed.

Lemma get_conversation_history_spec_witness :
  get_conversation_history search_memory 1%N (Some 1) false
  = Ok (map (history_entry false) (most_recent 1 (logs_of search_calls))) ∧
  get_conversation_history search_memory 1%N (Some 7) false
  = Ok (map (history_entry false) (logs_of search_calls)) ∧
  get_conversation_history search_memory 1%N None false
  = Ok (map (history_entry false) (logs_of search_calls)) ∧
  get_conversation_history search_memory 9%N (Some 1) false = Ok [].
Proof.
  pose (sm := {| session_id := 1%N; topic := "chat_system"; difficulty := BEGINNER;
                 start_time := 0; interactions := logs_of search_calls;
                 current_question := Some "Q";
                 covered_topics := ["caching"; "database"; "cdn"];
                 performance_trends := []; context_summary := None |}).
  split; [|split; [|split]].
  - apply (proj1 (proj1 (get_conversation_history_spec search_memory 1%N (Some 1) false)
                    sm eq_refl) 1 eq_refl). lia.
  - apply (proj1 (proj1 (get_conversation_history_spec search_memory 1%N (Some 7) false)
                    sm eq_refl) 7 eq_refl); [lia|]. simpl. lia.
  - apply (proj2 (proj1 (get_conversation_history_spec search_memory 1%N None false)
                    sm eq_refl)). by left.
  - apply (proj2 (get_conversation_history_spec search_memory 9%N (Some 1) false)).
    reflexivity.
Defined.

(** ** Expiry sweep *)

Lemma cleanup_sessions_lookup ks : ∀ cm sid,
  sessions (foldl cleanup_session cm ks) !! sid
    = (if decide (sid ∈ ks) then None else sessions cm !! sid) ∧
  performance_cache (foldl cleanup_session cm ks) !! sid
    = (if decide (sid ∈ ks) then None else performance_cache cm !! sid).
Proof.
  induction ks as [|k ks IH]; intros cm sid; cbn [foldl].
  - case_decide as Hin; [by apply elem_of_nil in Hin|done].
  - destruct (IH (cleanup_session cm k) sid) as [-> ->].
    cbn [cleanup_session sessions performance_cache].
    rewrite !lookup_delete.
    destruct (decide (sid ∈ ks)) as [Hin|Hnin].
    + destruct (decide (sid ∈ k :: ks)) as [_|Hnin]; [done|].
      exfalso. apply Hnin, elem_of_cons. by right.
    + destruct (decide (k = sid)) as [->|Hne].
      * destruct (decide (sid ∈ sid :: ks)) as [_|Hnin']; [done|].
        exfalso. apply Hnin', elem_of_cons. by left.
      * destruct (decide (sid ∈ k :: ks)) as [Hin|_]; [|done].
        apply elem_of_cons in Hin as [->|?]; done.
Qed.

(** The identifiers collected by the first loop of the sweep. *)
Lemma elem_of_expired (m : gmap N SessionMemory) cutoff_time sid :
  sid ∈ map fst (List.filter (fun kv => is_expired cutoff_time (snd kv)) (map_to_list m))
  ↔ ∃ sm, m !! sid = Some sm ∧ start_time sm < cutoff_time.
Proof.
  rewrite list_elem_of_In, in_map_iff. split.
  - intros ([k sm] & <- & Hin). apply filter_In in Hin as [Hin Hexp].
    apply list_elem_of_In, elem_of_map_to_list in Hin.
    exists sm. split; [done|]. by apply Z.ltb_lt.
  - intros (sm & Hsm & Hlt). exists (sid, sm). split; [done|].
    apply filter_In. split.
    + by apply list_elem_of_In, elem_of_map_to_list.
    + by apply Z.ltb_lt.
Qed.

Lemma remove_expired_lookup cm cutoff_time sid :
  sessions (remove_expired cm cutoff_time) !! sid
  = match sessions cm !! sid with
    | Some sm => if start_time sm <? cutoff_time then None else Some sm
    | None => None
    end ∧
  performance_cache (remove_expired cm cutoff_time) !! sid
  = match sessions cm !! sid with
    | Some sm =>
      if start_time sm <? cutoff_time then None else performance_cache cm !! sid
    | None => performance_cache cm !! sid
    end.
Proof.
  unfold remove_expired.
  edestruct cleanup_sessions_lookup as [-> ->].
  destruct (sessions cm !! sid) as [sm|] eqn:Hsm.
  - destruct (Z.ltb_spec (start_time sm) cutoff_time) as [Hlt|Hle].
    + case_decide as Hin; [done|].
      exfalso. apply Hin, elem_of_expired. by exists sm.
    + case_decide as Hin; [|done].
      apply elem_of_expired in Hin as (sm' & Hsm' & Hlt). simplify_eq. lia.
  - case_decide as Hin; [|done].
    apply elem_of_expired in Hin as (sm' & Hsm' & _). congruence.
Qed.

(** The span between two instants of the range of [datetime] is within
    the range of [timedelta]. *)
Lemma timedelta_hours_in_range h now :
  is_datetime now = true → is_datetime (now - hours h) = true →
  timedelta_hours h = Ok (hours h).
Proof.
  unfold is_datetime, timedelta_hours, datetime_min, datetime_max, hours.
  rewrite !andb_true_iff, !Z.leb_le. intros [? ?] [? ?].
  assert (-999999999 ≤ h / 24) by (apply Z.div_le_lower_bound; lia).
  assert (h / 24 ≤ 999999999) by (apply Z.div_le_upper_bound; lia).
  destruct (Z.leb_spec (-999999999) (h / 24)); [|lia].
  destruct (Z.leb_spec (h / 24) 999999999); [done|lia].
Qed.

(** Whether the sweep returns is decided by the cut-off alone. *)
Lemma cleanup_expired_sessions_outcome cm now :
  let cutoff_time := now - hours (max_memory_hours cm) in
  (is_datetime now = true → is_datetime cutoff_time = true →
   cleanup_expired_sessions cm now = Ok (remove_expired cm cutoff_time)) ∧
  (is_datetime cutoff_time = false →
   cleanup_expired_sessions cm now = Raise OverflowError) ∧
  (∀ cm', cleanup_expired_sessions cm now = Ok cm' →
          is_datetime cutoff_time = true ∧ cm' = remove_expired cm cutoff_time).
Proof.
  intros cutoff_time. unfold cleanup_expired_sessions. split; [|split].
  - intros Hnow Hcut. rewrite (timedelta_hours_in_range _ now Hnow Hcut). simpl.
    unfold datetime_sub. fold cutoff_time. by rewrite Hcut.
  - intros Hcut. unfold timedelta_hours.
    destruct (_ && _); [|done]. simpl. unfold datetime_sub. fold cutoff_time.
    by rewrite Hcut.
  - intros cm'. unfold timedelta_hours.
    destruct (_ && _); [|done]. simpl. unfold datetime_sub. fold cutoff_time.
    destruct (is_datetime cutoff_time); [|done]. simpl. by intros [= <-].
Qed.

(** C9. Let the cut-off be [now] minus [max_memory_hours]. When it is an
    instant of the range of [datetime], the sweep returns and has removed
    a session, together with its performance history, exactly when its
    start time is earlier than the cut-off; every other session and its
    history stay as they are. Under [max_memory_hours = 24] a session
    started 25 hours ago is removed and one started an hour ago is kept.
    When the cut-off is not in the range, the sweep raises [OverflowError]
    before it looks at any session. *)
Theorem cleanup_expired_sessions_spec cm now :
  let cutoff_time := now - hours (max_memory_hours cm) in
  is_datetime now = true →
  (is_datetime cutoff_time = true →
   ∃ cm',
     cleanup_expired_sessions cm now = Ok cm' ∧
     (∀ sid sm, sessions cm !! sid = Some sm → start_time sm < cutoff_time →
        sessions cm' !! sid = None ∧ performance_cache cm' !! sid = None) ∧
     (∀ sid sm, sessions cm !! sid = Some sm → cutoff_time ≤ start_time sm →
        sessions cm' !! sid = Some sm ∧
        performance_cache cm' !! sid = performance_cache cm !! sid) ∧
     (∀ sid, sessions cm !! sid = None → sessions cm' !! sid = None) ∧
     (max_memory_hours cm = 24 →
      ∀ sid sm, sessions cm !! sid = Some sm →
        (start_time sm = now - hours 25 →
           sessions cm' !! sid = None ∧ performance_cache cm' !! sid = None) ∧
        (start_time sm = now - hours 1 → sessions cm' !! sid = Some sm))) ∧
  (is_datetime cutoff_time = false →
   cleanup_expired_sessions cm now = Raise OverflowError).
Proof.
  intros cutoff_time Hnow.
  destruct (cleanup_expired_sessions_outcome cm now) as (Hok & Hraise & _).
  fold cutoff_time in Hok, Hraise. split; [|exact Hraise].
  intros Hcut. exists (remove_expired cm cutoff_time). split; [by apply Hok|].
  assert (∀ sid sm, sessions cm !! sid = Some sm → start_time sm < cutoff_time →
            sessions (remove_expired cm cutoff_time) !! sid = None ∧
            performance_cache (remove_expired cm cutoff_time) !! sid = None) as Hold.
  { intros sid sm Hsm Hlt.
    destruct (remove_expired_lookup cm cutoff_time sid) as [-> ->]. rewrite Hsm.
    by destruct (Z.ltb_spec (start_time sm) cutoff_time); [|lia]. }
  assert (∀ sid sm, sessions cm !! sid = Some sm → cutoff_time ≤ start_time sm →
            sessions (remove_expired cm cutoff_time) !! sid = Some sm ∧
            performance_cache (remove_expired cm cutoff_time) !! sid
            = performance_cache cm !! sid) as Hyoung.
  { intros sid sm Hsm Hle.
    destruct (remove_expired_lookup cm cutoff_time sid) as [-> ->]. rewrite Hsm.
    by destruct (Z.ltb_spec (start_time sm) cutoff_time); [lia|]. }
  split; [exact Hold|]. split; [exact Hyoung|]. split.
  - intros sid Hnone.
    destruct (remove_expired_lookup cm cutoff_time sid) as [-> _]. by rewrite Hnone.
  - intros Hmax sid sm Hsm. split.
    + intros Hstart. apply (Hold sid sm Hsm).
      unfold cutoff_time, hours in *. lia.
    + intros Hstart. apply (Hyoung sid sm Hsm).
      unfold cutoff_time, hours in *. lia.
Qed.

Lemma cleanup_expired_sessions_spec_witness :
  (∃ cm',
     cleanup_expired_sessions sweep_store (hours 100) = Ok cm' ∧
     sessions cm' !! 1%N = None ∧
     performance_cache cm' !! 1%N = None ∧
     sessions cm' !! 2%N = Some (fresh_session 2%N "url_shortener" ADVANCED (hours 99))) ∧
  cleanup_expired_sessions (init_memory 100000000 100) (hours 100) = Raise OverflowError.
Proof.
  destruct (cleanup_expired_sessions_spec sweep_store (hours 100) eq_refl)
    as [Hin _].
  destruct (cleanup_expired_sessions_spec (init_memory 100000000 100) (hours 100) eq_refl)
    as [_ Hout].
  split; [|apply Hout; reflexivity].
  destruct (Hin eq_refl) as (cm' & Hrun & _ & _ & _ & Hscenario).
  destruct (Hscenario eq_refl 1%N (fresh_session 1%N "chat_system" BEGINNER (hours 75)))
    as [Hold _]; [reflexivity|].
  destruct (Hscenario eq_refl 2%N (fresh_session 2%N "url_shortener" ADVANCED (hours 99)))
    as [_ Hyoung]; [reflexivity|].
  destruct Hold as [Hs Hp]; [reflexivity|].
  exists cm'. split; [exact Hrun|]. split; [exact Hs|]. split; [exact Hp|].
  apply Hyoung. reflexivity.
Defined.

(** ** Re-initialisation *)

(** C10. [initialize_session] on an identifier already present replaces
    the session by a fresh, empty one and leaves the performance cache as
    it was, so [get_performance_trends] answers after the call as before
    it: with the suffix of the samples recorded earlier. *)
Theorem initialize_session_keeps_cache cm sid old topic difficulty now window_size :
  sessions cm !! sid = Some old →
  let cm' := initialize_session cm sid topic difficulty now in
  (∃ sm', sessions cm' !! sid = Some sm' ∧
          interactions sm' = [] ∧
          covered_topics sm' = [] ∧
          current_question sm' = None ∧
          context_summary sm' = None) ∧
  performance_cache cm' = performance_cache cm ∧
  get_performance_trends cm' sid window_size = get_performance_trends cm sid window_size ∧
  (∀ samples, performance_cache cm !! sid = Some samples → samples ≠ [] →
     get_performance_trends cm' sid window_size = Ok (slice_from samples (- window_size))).
Proof.
  intros _ cm'. split; [|split; [done|split; [done|]]].
  - exists (fresh_session sid topic difficulty now).
    split; [apply lookup_insert_eq|done].
  - intros samples Hsamples Hne. unfold get_performance_trends. simpl.
    rewrite Hsamples. by destruct samples.
Qed.

Lemma initialize_session_keeps_cache_witness :
  length <$> (interactions <$> sessions evaluated_store !! 1%N) = Some 1%nat ∧
  (interactions <$> sessions (initialize_session evaluated_store 1%N "chat_system" BEGINNER 9)
                      !! 1%N) = Some [] ∧
  get_performance_trends (initialize_session evaluated_store 1%N "chat_system" BEGINNER 9)
                         1%N 10
  = Ok [{| ps_timestamp := 5;
           ps_evaluation := [("clarity_score", PyInt 7)];
           ps_question_type := "opening" |}].
Proof.
  split; [reflexivity|]. split; [reflexivity|].
  destruct (sessions evaluated_store !! 1%N) as [old|] eqn:Hold; [|discriminate Hold].
  destruct (initialize_session_keeps_cache evaluated_store 1%N old "chat_system"
              BEGINNER 9 10 Hold) as (_ & _ & _ & Htrend).
  rewrite (Htrend [{| ps_timestamp := 5;
                      ps_evaluation := [("clarity_score", PyInt 7)];
                      ps_question_type := "opening" |}]); [reflexivity|reflexivity|done].
Defined.

(** * Further properties of the conversation memory *)

(** ** Frame and order of [add_interaction] *)

(** X1. A successful [add_interaction] on one session leaves every other
    session, every other entry of the performance cache and the two
    configuration values as they were. *)
Theorem add_interaction_frame cm sid a now cm' other :
  add_interaction cm sid a now = Ok cm' →
  other ≠ sid →
  sessions cm' !! other = sessions cm !! other ∧
  performance_cache cm' !! other = performance_cache cm !! other ∧
  max_interactions_per_session cm' = max_interactions_per_session cm ∧
  max_memory_hours cm' = max_memory_hours cm.
Proof.
  intros Hrun Hne. unfold add_interaction in Hrun.
  destruct (sessions cm !! sid) as [sm|]; [|done].
  injection Hrun as <-. simpl.
  split; [by rewrite lookup_insert_ne|]. split; [|done].
  unfold cache_add. destruct (truthy_dict _); [|done].
  by rewrite lookup_insert_ne.
Qed.

Lemma add_interaction_frame_witness :
  ∃ cm',
    add_interaction sweep_store 1%N default_args (hours 100) = Ok cm' ∧
    sessions cm' !! 2%N = sessions sweep_store !! 2%N ∧
    performance_cache cm' !! 2%N = performance_cache sweep_store !! 2%N.
Proof.
  eexists. split; [reflexivity|].
  destruct (add_interaction_frame sweep_store 1%N default_args (hours 100) _ 2%N eq_refl)
    as (Hs & Hp & _); [discriminate|].
  split; [exact Hs|exact Hp].
Defined.

Lemma last_drop_lt {A} (l : list A) (n : nat) :
  (n < length l)%nat → last (drop n l) = last l.
Proof.
  intros Hn. rewrite !last_lookup, lookup_drop, length_drop.
  f_equal. lia.
Qed.

Lemma slice_from_suffix {A} (l : list A) (i : Z) : slice_from l i `suffix_of` l.
Proof. apply suffix_drop. Qed.

(** X2. [add_interaction] never reorders or rewrites what is stored: the
    interactions after the call are a final segment of the old ones
    followed by the new record, and, for a bound that is not negative, the
    new record is the last of them. *)
Theorem add_interaction_keeps_suffix cm sid sm a now :
  sessions cm !! sid = Some sm →
  ∃ cm' sm',
    add_interaction cm sid a now = Ok cm' ∧
    sessions cm' !! sid = Some sm' ∧
    interactions sm' `suffix_of` interactions sm ++ [new_interaction a now] ∧
    (0 ≤ max_interactions_per_session cm →
     last (interactions sm') = Some (new_interaction a now)).
Proof.
  intros Hsm.
  destruct (add_interaction_known cm sid sm a now Hsm) as (cm' & Hrun & Hs & _).
  exists cm', (session_add (max_interactions_per_session cm) sm a now).
  split; [done|]. split; [rewrite Hs; apply lookup_insert_eq|].
  set (m := max_interactions_per_session cm).
  destruct (session_add_unfold m sm a now) as (sm3 & -> & Hi & _).
  unfold _manage_memory_size.
  destruct (Z.gtb_spec (Z.of_nat (length (interactions sm3))) m) as [Hgt|Hle].
  - simpl. rewrite Hi. split; [apply slice_from_suffix|].
    intros Hm. destruct (Z.eq_dec (m / 2) 0) as [->|Hk].
    + rewrite slice_from_zero. apply last_snoc.
    + assert (0 < m / 2) by (pose proof (Z.div_pos m 2); lia).
      rewrite slice_from_last by done.
      rewrite last_drop_lt; [apply last_snoc|].
      rewrite length_app. simpl. lia.
  - rewrite Hi. split; [done|]. intros _. apply last_snoc.
Qed.

Lemma add_interaction_keeps_suffix_witness :
  ∃ cm' sm',
    add_interaction store_of_one 7%N default_args 3 = Ok cm' ∧
    sessions cm' !! 7%N = Some sm' ∧
    last (interactions sm') = Some (new_interaction default_args 3).
Proof.
  destruct (add_interaction_keeps_suffix store_of_one 7%N
              (fresh_session 7%N "chat_system" BEGINNER 0) default_args 3)
    as (cm' & sm' & Hrun & Hlook & _ & Hlast); [reflexivity|].
  exists cm', sm'. split; [exact Hrun|]. split; [exact Hlook|].
  apply Hlast. simpl. lia.
Defined.

(** ** Eviction in general *)

Lemma _summarize_interactions_count (l : list InteractionMemory) :
  l ≠ [] →
  ∃ cs, _summarize_interactions l = Some cs ∧ summarized_interactions cs = length l.
Proof. destruct l; [done|]. intros _. by eexists. Qed.

(** X3. For a bound of at least two, a call that finds the session full
    (or over-full) leaves exactly [bound // 2] interactions and records in
    the summary the number of all the others. *)
Theorem eviction_counts max_interactions sm a now :
  2 ≤ max_interactions →
  max_interactions ≤ Z.of_nat (length (interactions sm)) →
  let sm' := session_add max_interactions sm a now in
  length (interactions sm') = Z.to_nat (max_interactions / 2) ∧
  ∃ cs, context_summary sm' = Some cs ∧
        summarized_interactions cs
        = (length (interactions sm) + 1 - Z.to_nat (max_interactions / 2))%nat.
Proof.
  intros Hmax Hfull sm'.
  assert (0 < max_interactions / 2) by (apply Z.div_str_pos; lia).
  assert (max_interactions / 2 ≤ max_interactions)
    by (apply Z.div_le_upper_bound; lia).
  destruct (session_add_eviction max_interactions sm a now) as [Hi Hc]; [lia|].
  fold sm' in Hi, Hc.
  rewrite slice_from_last in Hi by done. rewrite slice_to_last in Hc by done.
  rewrite length_app in Hi, Hc. simpl in Hi, Hc. split.
  - rewrite Hi, length_drop, length_app. simpl. lia.
  - destruct (_summarize_interactions_count
                (take (length (interactions sm) + 1 - Z.to_nat (max_interactions / 2))
                      (interactions sm ++ [new_interaction a now])))
      as (cs & Hcs & Hn).
    { intros Hnil. apply (f_equal length) in Hnil.
      rewrite length_take, length_app in Hnil. simpl in Hnil. lia. }
    exists cs. split; [by rewrite Hc|].
    rewrite Hn, length_take, length_app. simpl. lia.
Qed.

Lemma eviction_counts_witness :
  let sm := session_adds 4 (fresh_session 1%N "chat_system" BEGINNER 0) topic_calls in
  length (interactions sm) = 4%nat ∧
  length (interactions (session_add 4 sm default_args 9)) = 2%nat ∧
  ∃ cs, context_summary (session_add 4 sm default_args 9) = Some cs ∧
        summarized_interactions cs = 3%nat.
Proof.
  intros sm. split; [reflexivity|].
  destruct (eviction_counts 4 sm default_args 9) as [Hlen Hcs];
    [lia|simpl; lia|].
  split; [exact Hlen|exact Hcs].
Defined.

(** X4. The summary written at an eviction is computed from the evicted
    records alone: whatever summary the session held before is discarded,
    not merged. *)
Theorem eviction_overwrites_summary max_interactions sm a now previous :
  max_interactions < Z.of_nat (length (interactions sm)) + 1 →
  context_summary (session_add max_interactions (set_context_summary sm previous) a now)
  = context_summary (session_add max_interactions sm a now) ∧
  context_summary (session_add max_interactions sm a now)
  = _summarize_interactions
      (slice_to (interactions sm ++ [new_interaction a now]) (- (max_interactions / 2))).
Proof.
  intros Hlt.
  destruct (session_add_eviction max_interactions sm a now Hlt) as [_ Hc].
  destruct (session_add_eviction max_interactions (set_context_summary sm previous) a now)
    as [_ Hc']; [done|].
  split; [|exact Hc]. by rewrite Hc, Hc'.
Qed.

Lemma eviction_overwrites_summary_witness :
  let sm := session_adds 2 (fresh_session 1%N "chat_system" BEGINNER 0) topic_calls in
  (∃ cs, context_summary sm = Some cs ∧ time_period_start cs = 1) ∧
  ∃ cs', context_summary (session_add 2 sm default_args 9) = Some cs' ∧
         time_period_start cs' = 3.
Proof.
  intros sm. split; [eexists; split; reflexivity|].
  destruct (eviction_overwrites_summary 2 sm default_args 9 None) as [_ Hc];
    [simpl; lia|].
  rewrite Hc. eexists; split; reflexivity.
Defined.

(** ** Covered topics hold no duplicate *)

Lemma add_topic_NoDup covered t : NoDup covered → NoDup (add_topic covered t).
Proof.
  intros Hnd. unfold add_topic. case_bool_decide as Hin; [done|].
  apply NoDup_app. split; [done|]. split; [|apply NoDup_singleton].
  intros x Hx ->%list_elem_of_singleton. done.
Qed.

Lemma update_covered_NoDup covered expected :
  NoDup covered → NoDup (update_covered covered expected).
Proof.
  intros Hnd. destruct expected as [ts|]; [|done]. simpl.
  destruct (truthy_list ts); [|done].
  revert covered Hnd. induction ts as [|t ts IH]; intros covered Hnd; simpl; [done|].
  by apply IH, add_topic_NoDup.
Qed.

(** X5. If the covered topics of a session hold no label twice, they hold
    none twice after any sequence of [add_interaction] calls; a label
    passed again, in the same call or a later one, is not added again. *)
Theorem covered_topics_NoDup cm sid sm (calls : list (InteractionArgs * Z)) :
  sessions cm !! sid = Some sm →
  NoDup (covered_topics sm) →
  ∃ cm' sm',
    add_interactions cm sid calls = Ok cm' ∧
    sessions cm' !! sid = Some sm' ∧
    NoDup (covered_topics sm').
Proof.
  intros Hsm Hnd.
  destruct (add_interactions_known calls cm sid sm Hsm) as (cm' & Hrun & Hlook & _).
  eexists cm', _. split; [exact Hrun|]. split; [exact Hlook|].
  clear Hrun Hlook Hsm.
  generalize (max_interactions_per_session cm). intros m.
  revert sm Hnd.
  induction calls as [|[a now] calls IH]; intros sm Hnd; simpl; [done|].
  apply IH. rewrite session_add_covered. by apply update_covered_NoDup.
Qed.

Lemma covered_topics_NoDup_witness :
  ∃ cm' sm',
    add_interactions (initialize_session (init_memory 24 2) 1%N "chat_system" BEGINNER 0)
                     1%N topic_calls = Ok cm' ∧
    sessions cm' !! 1%N = Some sm' ∧
    covered_topics sm' = ["requirements"; "caching"; "database"; "cdn"] ∧
    NoDup (covered_topics sm').
Proof.
  destruct (covered_topics_NoDup
              (initialize_session (init_memory 24 2) 1%N "chat_system" BEGINNER 0)
              1%N (fresh_session 1%N "chat_system" BEGINNER 0) topic_calls)
    as (cm' & sm' & Hrun & Hlook & Hnd); [reflexivity|apply NoDup_nil_2|].
  exists cm', sm'. split; [exact Hrun|]. split; [exact Hlook|].
  split; [|exact Hnd].
  unfold add_interactions in Hrun. vm_compute in Hrun. injection Hrun as <-.
  vm_compute in Hlook. by injection Hlook as <-.
Defined.

(** ** The performance cache *)

Lemma cached_samples_add cm sid sm a now cm' :
  sessions cm !! sid = Some sm →
  add_interaction cm sid a now = Ok cm' →
  cached_samples cm' sid = cached_samples cm sid ++ sample_of (a, now).
Proof.
  intros Hsm Hrun.
  destruct (add_interaction_known cm sid sm a now Hsm) as (cm1 & Hrun1 & _ & _ & _ & Hc).
  rewrite Hrun in Hrun1. injection Hrun1 as <-.
  unfold cached_samples, sample_of, cache_add in *. rewrite Hc. simpl.
  destruct (truthy_dict (arg_evaluation a)).
  - by rewrite lookup_insert_eq.
  - by rewrite app_nil_r.
Qed.

(** X6. The samples cached for a session after a sequence of
    [add_interaction] calls are the samples cached before followed by one
    sample for each call that carried a non-empty evaluation, in call
    order. Eviction of interactions removes none of them. *)
Theorem performance_cache_appends (calls : list (InteractionArgs * Z)) cm sid sm :
  sessions cm !! sid = Some sm →
  ∃ cm',
    add_interactions cm sid calls = Ok cm' ∧
    cached_samples cm' sid = cached_samples cm sid ++ samples_of calls.
Proof.
  revert cm sm. induction calls as [|[a now] calls IH]; intros cm sm Hsm; simpl.
  - exists cm. by rewrite app_nil_r.
  - destruct (add_interaction_known cm sid sm a now Hsm) as (cm1 & Hrun & Hs & _).
    rewrite Hrun. simpl.
    destruct (IH cm1 (session_add (max_interactions_per_session cm) sm a now))
      as (cm' & Hrun' & Hc).
    { rewrite Hs. apply lookup_insert_eq. }
    exists cm'. split; [exact Hrun'|].
    rewrite Hc, (cached_samples_add cm sid sm a now cm1 Hsm Hrun).
    by rewrite <- app_assoc.
Qed.

Lemma performance_cache_appends_witness :
  ∃ cm' sm',
    add_interactions (initialize_session (init_memory 24 2) 1%N "chat_system" BEGINNER 0)
                     1%N mixed_calls = Ok cm' ∧
    sessions cm' !! 1%N = Some sm' ∧
    length (interactions sm') = 1%nat ∧
    cached_samples cm' 1%N = samples_of [evaluated_call] ∧
    length (cached_samples cm' 1%N) = 1%nat.
Proof.
  destruct (performance_cache_appends mixed_calls
              (initialize_session (init_memory 24 2) 1%N "chat_system" BEGINNER 0)
              1%N (fresh_session 1%N "chat_system" BEGINNER 0))
    as (cm' & Hrun & Hc); [reflexivity|].
  exists cm'. rewrite Hc. vm_compute in Hrun. injection Hrun as <-.
  eexists. split; [reflexivity|]. split; [reflexivity|].
  split; [reflexivity|]. split; reflexivity.
Defined.

Lemma slice_from_positive {A} (l : list A) (i : Z) :
  0 ≤ i → slice_from l i = drop (Z.to_nat i) l.
Proof.
  intros Hi. unfold slice_from, slice_bound.
  destruct (Z.ltb_spec i 0) as [?|_]; [lia|].
  destruct (Z.le_gt_cases i (Z.of_nat (length l))) as [Hle|Hgt].
  - by rewrite Z.min_l by lia.
  - rewrite Z.min_r by lia. rewrite !drop_ge; [done|lia..].
Qed.

(** X7. [get_performance_trends] on a session with cached samples: a
    window of at least one yields the [window] most recent samples (all of
    them when there are fewer), a window of zero yields every sample, and
    a negative window drops the first [-window] samples. *)
Theorem get_performance_trends_window cm sid samples window_size :
  performance_cache cm !! sid = Some samples →
  (1 ≤ window_size →
   get_performance_trends cm sid window_size
   = Ok (most_recent (Z.to_nat window_size) samples)) ∧
  (window_size = 0 → get_performance_trends cm sid window_size = Ok samples) ∧
  (window_size < 0 →
   get_performance_trends cm sid window_size
   = Ok (drop (Z.to_nat (- window_size)) samples)).
Proof.
  intros Hc. unfold get_performance_trends. rewrite Hc.
  destruct samples as [|s samples]; simpl.
  - split; [done|]. split; [done|]. intros _. by rewrite drop_nil.
  - split; [|split].
    + intros Hw. by rewrite slice_from_last by lia.
    + intros ->. by rewrite slice_from_zero.
    + intros Hw. by rewrite slice_from_positive by lia.
Qed.

Lemma get_performance_trends_window_witness :
  get_performance_trends sweep_store 1%N 10
  = Ok (most_recent 10 (cached_samples sweep_store 1%N)) ∧
  get_performance_trends sweep_store 1%N (-1) = Ok [].
Proof.
  destruct (get_performance_trends_window sweep_store 1%N
              (cached_samples sweep_store 1%N) 10 eq_refl) as (Hpos & _ & _).
  destruct (get_performance_trends_window sweep_store 1%N
              (cached_samples sweep_store 1%N) (-1) eq_refl) as (_ & _ & Hneg).
  split; [apply Hpos; lia|]. rewrite Hneg by lia. reflexivity.
Defined.

(** ** A session's first interaction *)

Lemma foldl_add_topic_fresh ts : ∀ covered,
  NoDup (covered ++ ts) → foldl add_topic covered ts = covered ++ ts.
Proof.
  induction ts as [|t ts IH]; intros covered Hnd; simpl.
  - by rewrite app_nil_r.
  - apply NoDup_app in Hnd as (Hc & Hdisj & Hts).
    unfold add_topic at 2. rewrite bool_decide_false.
    + rewrite IH; [by rewrite <- app_assoc|].
      rewrite <- app_assoc. simpl. apply NoDup_app. done.
    + intros Hin. apply (Hdisj t Hin). by left.
Qed.

(** What [add_interaction] leaves alone in the session object, and what it
    does to the current question. *)
Lemma session_add_static m sm a now :
  topic (session_add m sm a now) = topic sm ∧
  difficulty (session_add m sm a now) = difficulty sm ∧
  start_time (session_add m sm a now) = start_time sm ∧
  session_id (session_add m sm a now) = session_id sm ∧
  current_question (session_add m sm a now)
    = (if truthy_str (arg_question a) then arg_question a else current_question sm).
Proof.
  unfold session_add, _manage_memory_size.
  destruct (truthy_str (arg_question a)); by destruct (_ >? _).
Qed.

(** X8. After [initialize_session] and one [add_interaction], under a
    bound that is not negative, [get_session_context] raises
    [AttributeError] when the session was initialised with a plain string
    as difficulty, and otherwise raises exactly when the performance
    summary raises. When it returns: one interaction is counted, the
    difficulty is the value of the level, the current question is the one
    passed when it is a non-empty string, the covered topics are the
    topics passed without repetition (the very list passed when it holds
    no label twice), and the start time is that of the initialisation.
    The summary cannot raise when the call carries no evaluation and no
    sample is cached for the session. *)
Theorem first_interaction_context mean_of cm sid topic0 difficulty0 t0 a now :
  0 ≤ max_interactions_per_session cm →
  ∃ cm1,
    add_interaction (initialize_session cm sid topic0 difficulty0 t0) sid a now = Ok cm1 ∧
    (∀ text, difficulty0 = Plain text →
       get_session_context mean_of cm1 sid = Raise AttributeError) ∧
    (∀ level, difficulty0 = Level level →
       (∀ e, get_session_context mean_of cm1 sid = Raise e ↔
             _get_performance_summary mean_of cm1 sid = Raise e) ∧
       (∀ summary, _get_performance_summary mean_of cm1 sid = Ok summary →
          ∃ ctx,
            get_session_context mean_of cm1 sid = Ok ctx ∧
            performance_summary ctx = summary ∧
            interaction_count ctx = 1%nat ∧
            ctx_current_question ctx
              = (if truthy_str (arg_question a) then arg_question a else None) ∧
            (∀ t, t ∈ ctx_covered_topics ctx ↔ t ∈ default [] (arg_expected_topics a)) ∧
            NoDup (ctx_covered_topics ctx) ∧
            (NoDup (default [] (arg_expected_topics a)) →
             ctx_covered_topics ctx = default [] (arg_expected_topics a)) ∧
            ctx_topic ctx = topic0 ∧
            ctx_difficulty ctx = level_value level ∧
            ctx_start_time ctx = t0 ∧
            length (recent_interactions ctx) = 1%nat)) ∧
    (truthy_dict (arg_evaluation a) = false → cached_samples cm sid = [] →
     _get_performance_summary mean_of cm1 sid = Ok None).
Proof.
  intros Hmax.
  set (cm0 := initialize_session cm sid topic0 difficulty0 t0).
  set (sm0 := fresh_session sid topic0 difficulty0 t0).
  destruct (add_interaction_known cm0 sid sm0 a now) as (cm1 & Hrun & Hs & _ & _ & Hc).
  { apply lookup_insert_eq. }
  change (max_interactions_per_session cm0) with (max_interactions_per_session cm) in Hs.
  remember (max_interactions_per_session cm) as m eqn:Hm.
  destruct (session_add_static m sm0 a now) as (Ht & Hd & Hst & _ & Hq).
  assert (interactions (session_add m sm0 a now) = [new_interaction a now]) as Hi.
  { destruct (Z.le_gt_cases m 1).
    - by rewrite session_add_grows by lia.
    - by destruct (session_add_no_eviction m sm0 a now) as [-> _]; [simpl; lia|]. }
  pose proof (session_add_covered m sm0 a now) as Hcov. simpl in Hcov.
  exists cm1. split; [exact Hrun|].
  unfold get_session_context. rewrite Hs, lookup_insert_eq, Hd.
  change (difficulty sm0) with difficulty0.
  split; [by intros text ->|]. split.
  - intros level ->. cbn [difficulty_value mbind result_bind].
    destruct (_get_performance_summary mean_of cm1 sid) as [summary|e0];
      cbn [mbind result_bind].
    + split; [done|]. intros summary' [= <-]. eexists. split; [reflexivity|].
      cbn [interaction_count ctx_current_question ctx_covered_topics ctx_topic
           ctx_difficulty ctx_start_time recent_interactions performance_summary].
      split; [done|]. split; [by rewrite Hi|]. split; [exact Hq|].
      split. { intros t. rewrite Hcov, elem_of_update_covered, elem_of_nil. tauto. }
      split. { rewrite Hcov. apply update_covered_NoDup, NoDup_nil_2. }
      split.
      { intros Hnd. rewrite Hcov.
        destruct (arg_expected_topics a) as [[|t ts]|]; [done| |done].
        apply (foldl_add_topic_fresh (t :: ts) []). exact Hnd. }
      split; [exact Ht|]. split; [done|]. split; [exact Hst|].
      unfold _get_recent_interactions. rewrite Hi. reflexivity.
    + split; [|done]. split; congruence.
  - intros Hev Hcache. unfold _get_performance_summary. rewrite Hc.
    unfold cache_add. rewrite Hev. unfold cached_samples in Hcache.
    change (performance_cache cm0) with (performance_cache cm).
    by destruct (performance_cache cm !! sid) as [[|? ?]|].
Qed.

Lemma first_interaction_context_witness :
  ∃ cm1 ctx,
    add_interaction (initialize_session empty_store 1%N "chat_system" BEGINNER 0) 1%N
      {| arg_question := Some "Q1"; arg_answer := None; arg_evaluation := None;
         arg_feedback := None; arg_context := None; arg_question_type := "general";
         arg_expected_topics := Some ["requirements"]; arg_timestamp := None |} 5
      = Ok cm1 ∧
    get_session_context exact_mean cm1 1%N = Ok ctx ∧
    interaction_count ctx = 1%nat ∧
    ctx_difficulty ctx = "beginner" ∧
    ctx_covered_topics ctx = ["requirements"].
Proof.
  destruct (first_interaction_context exact_mean empty_store 1%N "chat_system" BEGINNER 0
              {| arg_question := Some "Q1"; arg_answer := None; arg_evaluation := None;
                 arg_feedback := None; arg_context := None; arg_question_type := "general";
                 arg_expected_topics := Some ["requirements"]; arg_timestamp := None |} 5)
    as (cm1 & Hrun & _ & Hlevel & Hnone); [simpl; lia|].
  destruct (Hlevel BEGINNER eq_refl) as [_ Hctx].
  destruct (Hctx None (Hnone eq_refl eq_refl))
    as (ctx & Hget & _ & Hn & _ & _ & _ & Hcov & _ & Hvalue & _).
  exists cm1, ctx. split; [exact Hrun|]. split; [exact Hget|]. split; [exact Hn|].
  split; [exact Hvalue|]. apply Hcov. simpl. apply NoDup_singleton.
Defined.

(** ** Removing sessions *)

Lemma memory_eq cm1 cm2 :
  sessions cm1 = sessions cm2 →
  performance_cache cm1 = performance_cache cm2 →
  max_memory_hours cm1 = max_memory_hours cm2 →
  max_interactions_per_session cm1 = max_interactions_per_session cm2 →
  cm1 = cm2.
Proof. destruct cm1, cm2. simpl. by intros -> -> -> ->. Qed.

(** X9. [cleanup_session] removes the session and its cached samples and
    touches nothing else; doing it again, or doing it for an identifier
    the store does not hold, changes nothing; afterwards the identifier is
    unknown again, so [add_interaction] raises and
    [get_performance_trends] returns the empty list. *)
Theorem cleanup_session_spec cm sid :
  let cm' := cleanup_session cm sid in
  sessions cm' !! sid = None ∧
  performance_cache cm' !! sid = None ∧
  (∀ other, other ≠ sid →
     sessions cm' !! other = sessions cm !! other ∧
     performance_cache cm' !! other = performance_cache cm !! other) ∧
  cleanup_session cm' sid = cm' ∧
  (sessions cm !! sid = None → performance_cache cm !! sid = None → cm' = cm) ∧
  (∀ a now, add_interaction cm' sid a now = Raise (ValueError sid)) ∧
  (∀ window_size, get_performance_trends cm' sid window_size = Ok []).
Proof.
  intros cm'. unfold cm'.
  split; [apply lookup_delete_eq|]. split; [apply lookup_delete_eq|].
  split. { intros other Hne. simpl. by rewrite !lookup_delete_ne. }
  split. { apply memory_eq; simpl; try done; apply delete_delete_eq. }
  split. { intros Hs Hp. apply memory_eq; simpl; try done; by apply delete_id. }
  split.
  - intros a now. unfold add_interaction. simpl. by rewrite lookup_delete_eq.
  - intros w. unfold get_performance_trends. simpl. by rewrite lookup_delete_eq.
Qed.

Lemma cleanup_session_spec_witness :
  sessions (cleanup_session sweep_store 1%N) !! 1%N = None ∧
  sessions (cleanup_session sweep_store 1%N) !! 2%N = sessions sweep_store !! 2%N ∧
  cleanup_session sweep_store 9%N = sweep_store.
Proof.
  destruct (cleanup_session_spec sweep_store 1%N) as (Hs & _ & Hother & _).
  destruct (cleanup_session_spec sweep_store 9%N) as (_ & _ & _ & _ & Hid & _).
  split; [exact Hs|]. split; [apply (Hother 2%N); discriminate|].
  apply Hid; reflexivity.
Defined.

Lemma cleanup_sessions_config ks : ∀ cm,
  max_memory_hours (foldl cleanup_session cm ks) = max_memory_hours cm ∧
  max_interactions_per_session (foldl cleanup_session cm ks)
    = max_interactions_per_session cm.
Proof.
  induction ks as [|k ks IH]; intros cm; simpl; [done|].
  by destruct (IH (cleanup_session cm k)) as [-> ->].
Qed.

Lemma remove_expired_config cm cutoff_time :
  max_memory_hours (remove_expired cm cutoff_time) = max_memory_hours cm ∧
  max_interactions_per_session (remove_expired cm cutoff_time)
    = max_interactions_per_session cm.
Proof. apply cleanup_sessions_config. Qed.

Lemma remove_expired_fix cm cutoff_time :
  (∀ sid sm, sessions cm !! sid = Some sm → cutoff_time ≤ start_time sm) →
  remove_expired cm cutoff_time = cm.
Proof.
  intros Hyoung. apply memory_eq; try apply remove_expired_config.
  - apply map_eq. intros sid.
    destruct (remove_expired_lookup cm cutoff_time sid) as [-> _].
    destruct (sessions cm !! sid) as [sm|] eqn:Hsm; [|done].
    specialize (Hyoung sid sm Hsm).
    by destruct (Z.ltb_spec (start_time sm) cutoff_time); [lia|].
  - apply map_eq. intros sid.
    destruct (remove_expired_lookup cm cutoff_time sid) as [_ ->].
    destruct (sessions cm !! sid) as [sm|] eqn:Hsm; [|done].
    specialize (Hyoung sid sm Hsm).
    by destruct (Z.ltb_spec (start_time sm) cutoff_time); [lia|].
Qed.

(** X10. The sweep is idempotent, and more: after a sweep at time [now]
    that returned, a sweep at the same time, or at an earlier time whose
    cut-off is still in the range of [datetime], returns and removes
    nothing. A sweep that returns leaves the store unchanged when no
    session is older than the cut-off, and it never changes the two
    configuration values. *)
Theorem cleanup_expired_sessions_idempotent cm now cm' :
  is_datetime now = true →
  cleanup_expired_sessions cm now = Ok cm' →
  cleanup_expired_sessions cm' now = Ok cm' ∧
  (∀ earlier,
     earlier ≤ now → is_datetime earlier = true →
     is_datetime (earlier - hours (max_memory_hours cm)) = true →
     cleanup_expired_sessions cm' earlier = Ok cm') ∧
  ((∀ sid sm, sessions cm !! sid = Some sm →
      now - hours (max_memory_hours cm) ≤ start_time sm) →
   cm' = cm) ∧
  max_memory_hours cm' = max_memory_hours cm ∧
  max_interactions_per_session cm' = max_interactions_per_session cm.
Proof.
  intros Hnow Hrun.
  destruct (cleanup_expired_sessions_outcome cm now) as (_ & _ & Hinv).
  destruct (Hinv cm' Hrun) as [Hcut ->]. clear Hinv.
  destruct (remove_expired_config cm (now - hours (max_memory_hours cm))) as [Hh Hm].
  assert (∀ earlier,
            earlier ≤ now → is_datetime earlier = true →
            is_datetime (earlier - hours (max_memory_hours cm)) = true →
            cleanup_expired_sessions
              (remove_expired cm (now - hours (max_memory_hours cm))) earlier
            = Ok (remove_expired cm (now - hours (max_memory_hours cm)))) as Hagain.
  { intros earlier Hle Hearlier Hcut'.
    destruct (cleanup_expired_sessions_outcome
                (remove_expired cm (now - hours (max_memory_hours cm))) earlier)
      as (Hok & _ & _).
    rewrite Hh in Hok. rewrite (Hok Hearlier Hcut'). f_equal.
    apply remove_expired_fix. intros sid sm Hsm.
    destruct (remove_expired_lookup cm (now - hours (max_memory_hours cm)) sid)
      as [Hlook _]. rewrite Hlook in Hsm.
    destruct (sessions cm !! sid) as [sm0|]; [|done].
    destruct (Z.ltb_spec (start_time sm0) (now - hours (max_memory_hours cm)));
      [done|]. simplify_eq. lia. }
  split; [by apply Hagain|]. split; [exact Hagain|].
  split; [apply remove_expired_fix|]. done.
Qed.

Lemma cleanup_expired_sessions_idempotent_witness :
  ∃ cm',
    cleanup_expired_sessions sweep_store (hours 100) = Ok cm' ∧
    cleanup_expired_sessions cm' (hours 100) = Ok cm' ∧
    cleanup_expired_sessions cm' (hours 90) = Ok cm' ∧
    sessions cm' !! 1%N = None.
Proof.
  destruct (cleanup_expired_sessions_outcome sweep_store (hours 100)) as (Hok & _ & _).
  pose proof (Hok eq_refl eq_refl) as Hrun.
  destruct (cleanup_expired_sessions_idempotent sweep_store (hours 100) _ eq_refl Hrun)
    as (Hsame & Hearlier & _).
  eexists. split; [exact Hrun|]. split; [exact Hsame|].
  split; [apply Hearlier; [unfold hours; lia|reflexivity|reflexivity]|].
  destruct (remove_expired_lookup sweep_store
              (hours 100 - hours (max_memory_hours sweep_store)) 1%N) as [-> _].
  reflexivity.
Defined.

(** ** Topic coverage *)

Lemma count_up_keys counts key :
  map fst (count_up counts key) = add_topic (map fst counts) key.
Proof.
  unfold add_topic. induction counts as [|[k n] counts IH]; cbn [count_up map fst].
  - case_bool_decide as Hin; [by apply elem_of_nil in Hin|reflexivity].
  - destruct (String.eqb_spec k key) as [->|Hne]; cbn [map fst].
    + by rewrite bool_decide_true by (by left).
    + rewrite IH. destruct (decide (key ∈ map fst counts)) as [Hin|Hin].
      * by rewrite !bool_decide_true by (done || by right).
      * rewrite !bool_decide_false; [reflexivity| |done].
        intros [?|?]%elem_of_cons; by simplify_eq.
Qed.

Lemma foldl_count_up_keys l : ∀ counts,
  map fst (foldl count_up counts l) = foldl add_topic (map fst counts) l.
Proof.
  induction l as [|t l IH]; intros counts; simpl; [done|].
  by rewrite IH, count_up_keys.
Qed.

Lemma count_of_count_up counts key t :
  count_of (count_up counts key) t
  = (count_of counts t + (if String.eqb key t then 1 else 0))%nat.
Proof.
  induction counts as [|[k n] counts IH]; simpl.
  - by destruct (String.eqb key t).
  - destruct (String.eqb_spec k key) as [->|Hne]; simpl.
    + destruct (String.eqb key t); lia.
    + destruct (String.eqb_spec k t) as [->|Hne']; [|exact IH].
      destruct (String.eqb_spec key t); [done|lia].
Qed.

Lemma count_of_foldl_count_up l : ∀ counts t,
  count_of (foldl count_up counts l) t = (count_of counts t + occurrences t l)%nat.
Proof.
  unfold occurrences.
  induction l as [|x l IH]; intros counts t; simpl; [lia|].
  rewrite IH, count_of_count_up. rewrite (String.eqb_sym t x).
  destruct (String.eqb x t); simpl; lia.
Qed.

Lemma count_of_elem counts t n :
  NoDup (map fst counts) → (t, n) ∈ counts → count_of counts t = n.
Proof.
  induction counts as [|[k m] counts IH]; simpl; intros Hnd Hin.
  - by apply elem_of_nil in Hin.
  - apply NoDup_cons in Hnd as [Hk Hnd].
    apply elem_of_cons in Hin as [Heq|Hin].
    + simplify_eq. by rewrite String.eqb_refl.
    + destruct (String.eqb_spec k t) as [->|_]; [|by apply IH].
      exfalso. apply Hk. apply list_elem_of_fmap. by exists (t, n).
Qed.

Lemma max_by_count_spec items : ∀ best,
  max_by_count best items ∈ best :: items ∧
  ∀ kv, kv ∈ best :: items → (snd kv ≤ snd (max_by_count best items))%nat.
Proof.
  induction items as [|kv items IH]; intros best; simpl.
  - split; [by left|]. by intros kv [->|?%elem_of_nil]%elem_of_cons.
  - destruct (Nat.ltb_spec (snd best) (snd kv)) as [Hlt|Hge].
    + destruct (IH kv) as [Hin Hmax]. split.
      * by right.
      * intros kv' [->|Hkv']%elem_of_cons; [|by apply Hmax].
        specialize (Hmax kv (ltac:(by left))). lia.
    + destruct (IH best) as [Hin Hmax]. split.
      * apply elem_of_cons in Hin as [->|Hin]; [by left|by right; right].
      * intros kv' [->|[->|Hkv']%elem_of_cons]%elem_of_cons.
        -- apply Hmax. by left.
        -- specialize (Hmax best (ltac:(by left))). lia.
        -- apply Hmax. by right.
Qed.

Lemma occurrences_pos t l : t ∈ l ↔ (0 < occurrences t l)%nat.
Proof.
  unfold occurrences. induction l as [|x l IH]; simpl.
  - rewrite elem_of_nil. lia.
  - rewrite elem_of_cons, IH.
    destruct (String.eqb_spec t x) as [->|Hne]; simpl; [split; [lia|by left]|].
    split; [by intros [?|?]|by right].
Qed.

(** The frequency table built over a list of topics: its keys are the
    topics of the list, each once, its values their numbers of mentions,
    and it has as many keys as the list has distinct topics. *)
Lemma topic_frequency_table (all_topics : list string) :
  let freq := foldl count_up [] all_topics in
  NoDup (map fst freq) ∧
  (∀ t, t ∈ map fst freq ↔ t ∈ all_topics) ∧
  (∀ t, count_of freq t = occurrences t all_topics) ∧
  size (list_to_set all_topics : gset string) = length freq.
Proof.
  intros freq.
  assert (map fst freq = foldl add_topic [] all_topics) as Hkeys.
  { apply (foldl_count_up_keys all_topics []). }
  assert (NoDup (map fst freq)) as Hnd.
  { rewrite Hkeys. destruct all_topics as [|t ts]; [apply NoDup_nil_2|].
    apply (update_covered_NoDup [] (Some (t :: ts))), NoDup_nil_2. }
  assert (∀ t, t ∈ map fst freq ↔ t ∈ all_topics) as Hmem.
  { intros t. rewrite Hkeys, elem_of_foldl_add_topic, elem_of_nil. tauto. }
  split; [exact Hnd|]. split; [exact Hmem|]. split.
  - intros t. unfold freq. by rewrite count_of_foldl_count_up.
  - rewrite <- (length_map fst freq).
    rewrite <- (size_list_to_set (C:=gset string) _ Hnd).
    f_equal. apply set_eq. intros t. rewrite !elem_of_list_to_set. by rewrite Hmem.
Qed.

(** X11. On a known session [get_topic_coverage] returns a frequency
    table whose keys are exactly the topics of the retained interactions,
    each once, and whose value for a topic is the number of its mentions;
    [most_discussed] is absent exactly when no topic is mentioned and
    otherwise names a topic mentioned at least as often as any other; the
    divisor of the coverage depth is at least one. *)
Theorem get_topic_coverage_spec cm sid sm :
  sessions cm !! sid = Some sm →
  let all_topics := flat_map topics_covered (interactions sm) in
  ∃ tc,
    get_topic_coverage cm sid = Ok (Some tc) ∧
    NoDup (map fst (topic_frequency tc)) ∧
    (∀ t, t ∈ map fst (topic_frequency tc) ↔ t ∈ all_topics) ∧
    (∀ t, count_of (topic_frequency tc) t = occurrences t all_topics) ∧
    (most_discussed tc = None ↔ all_topics = []) ∧
    (∀ t, most_discussed tc = Some t →
          t ∈ all_topics ∧
          ∀ t', (occurrences t' all_topics ≤ occurrences t all_topics)%nat) ∧
    total_topics_mentioned tc = length (topic_frequency tc) ∧
    tc_covered_topics tc = covered_topics sm ∧
    fst (coverage_depth tc) = length all_topics ∧
    (1 ≤ snd (coverage_depth tc))%nat.
Proof.
  intros Hsm all_topics. unfold get_topic_coverage. rewrite Hsm. eexists.
  split; [reflexivity|].
  cbn [topic_frequency most_discussed total_topics_mentioned tc_covered_topics
       coverage_depth fst snd].
  fold all_topics. clearbody all_topics.
  destruct (topic_frequency_table all_topics) as (Hnd & Hmem & Hcount & Hsize).
  remember (foldl count_up [] all_topics) as freq eqn:Hfreq. clear Hfreq.
  split; [exact Hnd|]. split; [exact Hmem|]. split; [exact Hcount|].
  split.
  { destruct freq as [|kv rest].
    - split; [intros _|done]. destruct all_topics as [|t ts]; [done|].
      assert (t ∈ map fst (@nil (string * nat))) as Hin by (apply Hmem; by left).
      by apply elem_of_nil in Hin.
    - split; [done|]. intros Hnil.
      assert (fst kv ∈ all_topics) as Hin by (apply Hmem; by left).
      rewrite Hnil in Hin. by apply elem_of_nil in Hin. }
  split.
  { intros t Ht. destruct freq as [|kv rest]; [done|].
    injection Ht as <-.
    destruct (max_by_count_spec rest kv) as [Hin Hmax].
    remember (max_by_count kv rest) as top eqn:Htopdef. clear Htopdef.
    assert (count_of (kv :: rest) (fst top) = snd top) as Htop.
    { apply count_of_elem; [done|]. by destruct top. }
    split.
    - apply Hmem. apply list_elem_of_fmap. by exists top.
    - intros t'. rewrite <- !Hcount, Htop.
      destruct (decide (t' ∈ map fst (kv :: rest))) as [Hin'|Hnin].
      + apply list_elem_of_fmap in Hin' as ([k n] & -> & Hin').
        cbn [fst]. rewrite (count_of_elem _ k n Hnd Hin'). apply (Hmax (k, n) Hin').
      + rewrite Hcount. destruct (occurrences t' all_topics) eqn:Hocc; [lia|].
        exfalso. apply Hnin, Hmem, occurrences_pos. lia. }
  split; [exact Hsize|].
  split; [done|]. split; [done|]. lia.
Qed.

Lemma get_topic_coverage_spec_witness :
  ∃ tc,
    get_topic_coverage search_memory 1%N = Ok (Some tc) ∧
    most_discussed tc = Some "caching" ∧
    count_of (topic_frequency tc) "caching" = 2%nat ∧
    total_topics_mentioned tc = 3%nat.
Proof.
  destruct (get_topic_coverage_spec search_memory 1%N
              {| session_id := 1%N; topic := "chat_system"; difficulty := BEGINNER;
                 start_time := 0; interactions := logs_of search_calls;
                 current_question := Some "Q";
                 covered_topics := ["caching"; "database"; "cdn"];
                 performance_trends := []; context_summary := None |} eq_refl)
    as (tc & Hrun & _ & _ & Hcount & _ & _ & Htotal & _).
  exists tc. split; [exact Hrun|].
  vm_compute in Hrun. injection Hrun as <-.
  split; [reflexivity|]. split; reflexivity.
Defined.

(** ** Retained topics are covered topics *)

Lemma session_add_topics_within m sm a now :
  topics_within_covered sm → topics_within_covered (session_add m sm a now).
Proof.
  intros Hinv i t Hi Ht. rewrite session_add_covered, elem_of_update_covered.
  destruct (session_add_unfold m sm a now) as (sm3 & Heq & Hi3 & _).
  rewrite Heq in Hi.
  assert (i ∈ interactions sm ++ [new_interaction a now]) as Hin.
  { rewrite <- Hi3. unfold _manage_memory_size in Hi.
    destruct (_ >? _); [|done]. simpl in Hi.
    by eapply elem_of_suffix; [|apply slice_from_suffix]. }
  apply elem_of_app in Hin as [Hin|Hin%list_elem_of_singleton].
  - left. by apply (Hinv i).
  - right. by subst i.
Qed.

Lemma session_adds_topics_within m calls : ∀ sm,
  topics_within_covered sm → NoDup (covered_topics sm) →
  topics_within_covered (session_adds m sm calls) ∧
  NoDup (covered_topics (session_adds m sm calls)).
Proof.
  induction calls as [|[a now] calls IH]; intros sm Hinv Hnd; simpl; [done|].
  apply IH; [by apply session_add_topics_within|].
  rewrite session_add_covered. by apply update_covered_NoDup.
Qed.

(** X12. For a session grown from [initialize_session] by
    [add_interaction] calls, every topic that [get_topic_coverage] counts
    is among the covered topics it reports, and the number of distinct
    topics mentioned does not exceed the number of covered topics. *)
Theorem topic_coverage_within_covered cm sid topic0 difficulty0 t0
    (calls : list (InteractionArgs * Z)) :
  ∃ cm' tc,
    add_interactions (initialize_session cm sid topic0 difficulty0 t0) sid calls = Ok cm' ∧
    get_topic_coverage cm' sid = Ok (Some tc) ∧
    (∀ t, t ∈ map fst (topic_frequency tc) → t ∈ tc_covered_topics tc) ∧
    (total_topics_mentioned tc ≤ length (tc_covered_topics tc))%nat.
Proof.
  set (cm0 := initialize_session cm sid topic0 difficulty0 t0).
  set (sm0 := fresh_session sid topic0 difficulty0 t0).
  destruct (add_interactions_known calls cm0 sid sm0) as (cm' & Hrun & Hlook & _).
  { apply lookup_insert_eq. }
  destruct (session_adds_topics_within (max_interactions_per_session cm0) calls sm0)
    as [Hinv Hnd].
  { intros i t Hi. by apply elem_of_nil in Hi. }
  { apply NoDup_nil_2. }
  exists cm'. unfold get_topic_coverage. rewrite Hlook. eexists.
  split; [exact Hrun|]. split; [reflexivity|].
  cbn [topic_frequency total_topics_mentioned tc_covered_topics].
  destruct (topic_frequency_table
              (flat_map topics_covered
                 (interactions (session_adds (max_interactions_per_session cm0) sm0 calls))))
    as (Hndk & Hmem & _ & Hsize).
  match goal with
  | |- (∀ t, t ∈ map fst ?freq → t ∈ ?cov) ∧ _ =>
    assert (∀ t, t ∈ map fst freq → t ∈ cov) as Hsub
  end.
  { intros t Ht. apply Hmem in Ht.
    apply list_elem_of_In, in_flat_map in Ht as (i & Hi & Ht).
    apply (Hinv i t); by apply list_elem_of_In. }
  split; [exact Hsub|].
  rewrite Hsize, <- (length_map fst).
  apply submseteq_length, NoDup_submseteq; done.
Qed.

(** * Further properties of the orchestrator and the AI service *)

(** X13. On a known session [process_user_answer] always returns and
    never touches the conversation memory or another session's state.
    Either both remote calls succeeded: the response is the follow-up, the
    session's question count grows by one and its last question becomes
    the new one, while its phase, topics and performance history stay as
    they were; or one of them raised: the response is the fallback and the
    orchestrator is unchanged. *)
Theorem process_user_answer_known o env sid user_answer st :
  current_sessions o !! sid = Some st →
  ∃ r o',
    process_user_answer o env sid user_answer = Ok (r, o') ∧
    memory o' = memory o ∧
    (∀ other, other ≠ sid → current_sessions o' !! other = current_sessions o !! other) ∧
    ((∃ q st',
        ainvoke env = Ok tt ∧ generate_follow_up_question env = Ok q ∧
        resp_type r = "follow_up" ∧ message r = qg_question q ∧
        focus_areas r = topics_targeted q ∧ fallback r = None ∧
        current_sessions o' !! sid = Some st' ∧
        questions_asked st' = questions_asked st + 1 ∧
        last_question st' = Some (qg_question q) ∧
        phase st' = phase st ∧
        st_topics_covered st' = st_topics_covered st ∧
        performance_history st' = performance_history st) ∨
     ((∃ e, ainvoke env = Raise e ∨ generate_follow_up_question env = Raise e) ∧
      resp_type r = "fallback" ∧ fallback r = Some true ∧ o' = o)).
Proof.
  intros Hst.
  unfold process_user_answer, _process_agent_response, _update_session_state.
  rewrite Hst.
  destruct (ainvoke env) as [[]|e] eqn:Hagent; simpl.
  - destruct (generate_follow_up_question env) as [q|e] eqn:Hq; simpl.
    + eexists _, _. split; [reflexivity|]. split; [done|]. split.
      { intros other Hne. simpl. by rewrite lookup_insert_ne. }
      left. exists q. eexists. repeat (split; [reflexivity|]).
      split; [simpl; apply lookup_insert_eq|]. done.
    + eexists _, _. split; [reflexivity|]. split; [done|]. split; [done|].
      right. split; [exists e; by right|done].
  - eexists _, _. split; [reflexivity|]. split; [done|]. split; [done|].
    right. split; [exists e; by left|done].
Qed.

Lemma process_user_answer_known_witness :
  ∃ r o' st',
    process_user_answer running_orchestrator successful_outcomes 1%N "my answer"
      = Ok (r, o') ∧
    memory o' = memory running_orchestrator ∧
    current_sessions o' !! 1%N = Some st' ∧
    questions_asked st' = 2 ∧
    performance_history st' = [].
Proof.
  destruct (process_user_answer_known running_orchestrator successful_outcomes 1%N
              "my answer" running_state eq_refl)
    as (r & o' & Hrun & Hmem & _ & [(q & st' & _ & _ & _ & _ & _ & _ & Hst & Hn & _ & _ & _ & Hp)
                                   |([e [He|He]] & _)]);
    [|discriminate He|discriminate He].
  exists r, o', st'. split; [exact Hrun|]. split; [exact Hmem|].
  split; [exact Hst|]. split; [exact Hn|exact Hp].
Defined.

Lemma process_user_answer_returns o env sid user_answer :
  is_Some (current_sessions o !! sid) →
  ∃ r o', process_user_answer o env sid user_answer = Ok (r, o').
Proof.
  intros [st Hst].
  unfold process_user_answer, _process_agent_response, _update_session_state.
  rewrite Hst.
  destruct (ainvoke env) as [[]|e]; simpl; [|eexists _, _; reflexivity].
  destruct (generate_follow_up_question env) as [q|e]; simpl;
    eexists _, _; reflexivity.
Qed.

(** X14. [process_user_response] turns the orchestrator's [ValueError] for
    an unknown session into [ResourceNotFoundError]; for a known session
    it returns a response whatever the remote calls do; it never raises
    any other exception. *)
Theorem process_user_response_outcomes o env sid user_message :
  (current_sessions o !! sid = None →
   process_user_response o env sid user_message = Failed (ResourceNotFoundError sid)) ∧
  (is_Some (current_sessions o !! sid) →
   ∃ r o', process_user_response o env sid user_message = Done (r, o') ∧
           process_user_answer o env sid user_message = Ok (r, o')) ∧
  (∀ e, process_user_response o env sid user_message ≠ Failed (Reraised e)).
Proof.
  unfold process_user_response. split; [|split].
  - intros Hnone. unfold process_user_answer. by rewrite Hnone.
  - intros Hst.
    destruct (process_user_answer_returns o env sid user_message Hst)
      as (r & o' & ->). by exists r, o'.
  - intros e. destruct (current_sessions o !! sid) as [st|] eqn:Hst.
    + destruct (process_user_answer_returns o env sid user_message)
        as (r & o' & ->); [by eexists|]. discriminate.
    + unfold process_user_answer. rewrite Hst. discriminate.
Qed.

Lemma process_user_response_outcomes_witness :
  process_user_response running_orchestrator failing_outcomes 9%N "my answer"
    = Failed (ResourceNotFoundError 9%N) ∧
  ∃ r o', process_user_response running_orchestrator failing_outcomes 1%N "my answer"
          = Done (r, o').
Proof.
  destruct (process_user_response_outcomes running_orchestrator failing_outcomes 9%N
              "my answer") as (Hunknown & _ & _).
  destruct (process_user_response_outcomes running_orchestrator failing_outcomes 1%N
              "my answer") as (_ & Hknown & _).
  split; [apply Hunknown; reflexivity|].
  destruct Hknown as (r & o' & Hrun & _); [by eexists|]. by exists r, o'.
Defined.

(** X15. The orchestrator's [cleanup_session] forgets the session in its
    own table and in the conversation memory, cached samples included, and
    nothing else; a second call, or a call for an unknown identifier,
    changes nothing more; afterwards [process_user_answer] raises
    [ValueError] for that identifier. *)
Theorem orchestrator_cleanup_session_spec o sid :
  let o' := Orchestrator.cleanup_session o sid in
  current_sessions o' !! sid = None ∧
  sessions (memory o') !! sid = None ∧
  performance_cache (memory o') !! sid = None ∧
  (∀ other, other ≠ sid →
     current_sessions o' !! other = current_sessions o !! other ∧
     sessions (memory o') !! other = sessions (memory o) !! other ∧
     performance_cache (memory o') !! other = performance_cache (memory o) !! other) ∧
  Orchestrator.cleanup_session o' sid = o' ∧
  (∀ env user_answer, process_user_answer o' env sid user_answer = Raise (ValueError sid)).
Proof.
  intros o'. unfold o', Orchestrator.cleanup_session.
  split; [apply lookup_delete_eq|].
  split; [apply lookup_delete_eq|]. split; [apply lookup_delete_eq|].
  split.
  { intros other Hne. simpl. by rewrite !lookup_delete_ne by done. }
  split.
  { simpl. f_equal; [|apply delete_delete_eq].
    apply memory_eq; simpl; try done; apply delete_delete_eq. }
  intros env user_answer. unfold process_user_answer. simpl.
  by rewrite lookup_delete_eq.
Qed.

(** ** Conversation highlights and summary *)

Lemma filter_length_le {A} (f : A → bool) (l : list A) :
  (length (List.filter f l) ≤ length l)%nat.
Proof.
  induction l as [|x l IH]; simpl; [done|]. destruct (f x); simpl; lia.
Qed.

Lemma slice_from_neg {A} (l : list A) (p : positive) :
  slice_from l (Z.neg p) = most_recent (Pos.to_nat p) l.
Proof.
  change (Z.neg p) with (- Z.pos p). rewrite slice_from_last by lia.
  unfold most_recent. f_equal; lia.
Qed.

Lemma conversation_highlights_length (history : list HistoryEntry) :
  (length (_extract_conversation_highlights history) ≤ 5)%nat.
Proof.
  unfold _extract_conversation_highlights.
  rewrite slice_from_neg. change (Pos.to_nat 5) with 5%nat.
  pose proof (filter_length_le is_highlight (most_recent 5 history)).
  pose proof (most_recent_length 5 history).
  rewrite length_map. lia.
Qed.

(** X16. [_extract_conversation_highlights] looks at the five most recent
    entries only: it returns at most five highlights, in the order of the
    history, one for each of those entries whose evaluation holds a
    numeric value of eight or more, stamped with that entry's time. *)
Theorem conversation_highlights_spec (history : list HistoryEntry) :
  let highlights := _extract_conversation_highlights history in
  (length highlights ≤ 5)%nat ∧
  (length highlights ≤ length history)%nat ∧
  map hl_timestamp highlights
    = map h_timestamp (List.filter is_highlight (most_recent 5 history)) ∧
  (∀ h, h ∈ highlights → hl_type h = "strength") ∧
  (∀ e, e ∈ most_recent 5 history →
        is_highlight e = true ↔
        ∃ ev v, h_evaluation e = Some ev ∧ v ∈ map snd ev ∧ score_at_least_8 v = true).
Proof.
  intros highlights. unfold highlights, _extract_conversation_highlights.
  rewrite slice_from_neg. change (Pos.to_nat 5) with 5%nat.
  pose proof (filter_length_le is_highlight (most_recent 5 history)) as Hle.
  pose proof (most_recent_length 5 history) as Hlen.
  split; [rewrite length_map; lia|]. split; [rewrite length_map; lia|].
  split; [by rewrite map_map|]. split.
  - intros h Hh. apply list_elem_of_In, in_map_iff in Hh as (e & <- & _). done.
  - intros e _. unfold is_highlight. rewrite andb_true_iff, existsb_exists. split.
    + intros [Hev (v & Hv & Hscore)]. destruct (h_evaluation e) as [ev|]; [|done].
      exists ev, v. by rewrite list_elem_of_In.
    + intros (ev & v & -> & Hv & Hscore). simpl. split.
      * destruct ev; [by apply elem_of_nil in Hv|done].
      * exists v. by rewrite <- list_elem_of_In.
Qed.

Lemma get_performance_trends_recent cm sid (p : positive) :
  get_performance_trends cm sid (Z.pos p)
  = Ok (most_recent (Pos.to_nat p) (cached_samples cm sid)).
Proof.
  unfold get_performance_trends, cached_samples.
  destruct (performance_cache cm !! sid) as [[|s samples]|]; try done.
  cbn [truthy_list default]. by rewrite <- slice_from_neg.
Qed.

(** X17. [get_conversation_summary] never raises. For an unknown session
    it reports no interaction, an empty coverage, no trend and no
    highlight; for a known one it counts the retained interactions and
    reports at most five highlights. *)
Theorem get_conversation_summary_spec o sid :
  ∃ s,
    get_conversation_summary o sid = Ok s ∧
    (length (conversation_highlights s) ≤ 5)%nat ∧
    (sessions (memory o) !! sid = None →
     cache_within_sessions (memory o) →
     cs_total_interactions s = 0%nat ∧ cs_topic_coverage s = None ∧
     cs_performance_trends s = [] ∧ conversation_highlights s = []) ∧
    (∀ sm, sessions (memory o) !! sid = Some sm →
           cs_total_interactions s = length (interactions sm) ∧
           is_Some (cs_topic_coverage s) ∧
           cs_performance_trends s
           = most_recent 10 (cached_samples (memory o) sid)).
Proof.
  unfold get_conversation_summary.
  rewrite (get_performance_trends_recent (memory o) sid 10).
  unfold get_conversation_history, get_topic_coverage.
  destruct (sessions (memory o) !! sid) as [sm|] eqn:Hsm;
    cbn -[most_recent cached_samples _extract_conversation_highlights];
    (eexists; split; [reflexivity|]);
    cbn [cs_total_interactions cs_topic_coverage cs_performance_trends
         conversation_highlights].
  - split; [apply conversation_highlights_length|]. split; [done|].
    intros sm' [= <-]. split; [by rewrite length_map|]. split; [by eexists|done].
  - split; [apply conversation_highlights_length|]. split; [|done].
    intros _ Hinv. unfold cached_samples. by rewrite (Hinv sid Hsm).
Qed.

Lemma get_conversation_summary_spec_witness :
  ∃ s s',
    get_conversation_summary running_orchestrator 9%N = Ok s ∧
    cs_total_interactions s = 0%nat ∧
    get_conversation_summary
      {| memory := search_memory; current_sessions := ∅ |} 1%N = Ok s' ∧
    cs_total_interactions s' = 2%nat.
Proof.
  destruct (get_conversation_summary_spec running_orchestrator 9%N)
    as (s & Hrun & _ & Hunknown & _).
  destruct (get_conversation_summary_spec
              {| memory := search_memory; current_sessions := ∅ |} 1%N)
    as (s' & Hrun' & _ & _ & Hknown).
  exists s, s'. split; [exact Hrun|]. split.
  - apply Hunknown; [reflexivity|]. intros k.
    change (performance_cache (memory running_orchestrator) !! k) with
      ((∅ : gmap N (list PerformanceSample)) !! k). intros _. apply lookup_empty.
  - split; [exact Hrun'|].
    destruct (Hknown {| session_id := 1%N; topic := "chat_system"; difficulty := BEGINNER;
                 start_time := 0; interactions := logs_of search_calls;
                 current_question := Some "Q";
                 covered_topics := ["caching"; "database"; "cdn"];
                 performance_trends := []; context_summary := None |} eq_refl)
      as (Hn & _). exact Hn.
Defined.

(** * Properties of the interview session entity *)

Section SessionProperties.
Import Session.
Variable int_seconds : Z → Z.

Lemma apply_operation_ended s op :
  Session.status s ≠ ACTIVE →
  Session.status (apply_operation int_seconds s op) = Session.status s ∧
  Session.ended_at (apply_operation int_seconds s op) = Session.ended_at s ∧
  Session.total_duration (apply_operation int_seconds s op) = Session.total_duration s ∧
  Session.config (apply_operation int_seconds s op) = Session.config s ∧
  Session.started_at (apply_operation int_seconds s op) = Session.started_at s.
Proof.
  intros Hended.
  destruct op; simpl;
    unfold complete_session, abandon_session, extend_session;
    try (destruct (decide (Session.status s = ACTIVE)); [done|]); done.
Qed.

(** X18. Ending is final. Once a session is completed or abandoned, no
    sequence of completions, abandonments, extensions and added messages
    changes its status, its end time, its recorded duration, its start
    time or its configuration; in particular a completed session cannot
    become abandoned, nor the reverse. *)
Theorem ended_session_is_final (ops : list Operation) s :
  Session.status s ≠ ACTIVE →
  let s' := foldl (apply_operation int_seconds) s ops in
  Session.status s' = Session.status s ∧
  Session.ended_at s' = Session.ended_at s ∧
  Session.total_duration s' = Session.total_duration s ∧
  Session.config s' = Session.config s ∧
  Session.started_at s' = Session.started_at s.
Proof.
  revert s. induction ops as [|op ops IH]; intros s Hended; simpl; [done|].
  destruct (apply_operation_ended s op Hended) as (Hs & He & Hd & Hc & Hst).
  destruct (IH (apply_operation int_seconds s op)) as (-> & -> & -> & -> & ->);
    [by rewrite Hs|]. done.
Qed.

(** X19. Completing (or abandoning) an active session sets the status,
    stamps the end time with the first clock reading and records as
    duration the whole seconds from start to end; from then on the
    duration no longer depends on the clock and the session never counts
    as expired. *)
Theorem complete_session_spec s now later :
  Session.status s = ACTIVE →
  let done := complete_session int_seconds s now later in
  let dropped := abandon_session int_seconds s now later in
  Session.status done = COMPLETED ∧
  Session.status dropped = ABANDONED ∧
  Session.ended_at done = Some now ∧
  Session.total_duration done = Some (int_seconds (now - Session.started_at s)) ∧
  Session.total_duration dropped = Session.total_duration done ∧
  Session.updated_at done = later ∧
  Session.messages done = Session.messages s ∧
  (∀ t, _calculate_duration int_seconds done t
        = int_seconds (now - Session.started_at s)) ∧
  (∀ t, is_expired int_seconds done t = false) ∧
  (∀ t, is_expired int_seconds dropped t = false).
Proof.
  intros Hactive. unfold complete_session, abandon_session.
  destruct (decide (Session.status s = ACTIVE)); [|done]. simpl.
  repeat (split; [done|]). split; done.
Qed.

(** X20. For an active session that holds no end time, [is_expired]
    compares the whole seconds elapsed since the start with sixty times
    the allowed minutes, the bound included. An extension adds to the
    allowed minutes, so two extensions allow what one extension by their
    sum allows; a session that is not active is neither expired nor
    extended. *)
Theorem is_expired_spec s now :
  (Session.status s = ACTIVE →
   (Session.ended_at s = None →
    (is_expired int_seconds s now = true ↔
     max_duration_minutes (Session.config s) * 60
       ≤ int_seconds (now - Session.started_at s))) ∧
   (∀ a b t1 t2 t,
      max_duration_minutes
        (Session.config (extend_session (extend_session s a t1) b t2))
      = max_duration_minutes (Session.config s) + (a + b) ∧
      is_expired int_seconds (extend_session (extend_session s a t1) b t2) t
      = is_expired int_seconds (extend_session s (a + b) t2) t)) ∧
  (Session.status s ≠ ACTIVE →
   is_expired int_seconds s now = false ∧
   ∀ a t, extend_session s a t = s).
Proof.
  split.
  - intros Hactive. split.
    + intros Hnone. unfold is_expired, _calculate_duration.
      destruct (decide (Session.status s = ACTIVE)); [|done].
      by rewrite Z.leb_le, Hnone.
    + intros a b t1 t2 t. unfold extend_session, is_expired, _calculate_duration.
      destruct (decide (Session.status s = ACTIVE)); [|done]. simpl.
      destruct (decide (Session.status s = ACTIVE)); [|done]. simpl.
      destruct (decide (Session.status s = ACTIVE)); [|done].
      by rewrite Z.add_assoc.
  - intros Hended. unfold is_expired, extend_session.
    by destruct (decide (Session.status s = ACTIVE)).
Qed.

(** ** The message history of a session *)

Lemma insert_by_timestamp_perm m l : insert_by_timestamp m l ≡ₚ m :: l.
Proof.
  induction l as [|x l IH]; simpl; [done|].
  destruct (_ <? _); [done|]. rewrite IH. apply Permutation_swap.
Qed.

Lemma sorted_by_timestamp_acc_perm l : ∀ acc,
  foldl (fun acc m => insert_by_timestamp m acc) acc l ≡ₚ acc ++ l.
Proof.
  induction l as [|m l IH]; intros acc; simpl.
  - by rewrite app_nil_r.
  - rewrite IH, insert_by_timestamp_perm.
    by rewrite (Permutation_middle acc l m).
Qed.

Lemma insert_by_timestamp_Forall (P : Message → Prop) m l :
  P m → Forall P l → Forall P (insert_by_timestamp m l).
Proof.
  intros Hm Hl. induction Hl as [|x l Hx Hl IH]; simpl.
  - by constructor.
  - destruct (_ <? _); repeat constructor; done.
Qed.

Lemma insert_by_timestamp_sorted m l :
  chronological l → chronological (insert_by_timestamp m l).
Proof.
  unfold chronological. induction 1 as [|x l Hl IH Hx]; simpl.
  - repeat constructor.
  - destruct (Z.ltb_spec (Session.timestamp m) (Session.timestamp x)) as [Hlt|Hge].
    + constructor; [by constructor|]. constructor; [lia|].
      eapply Forall_impl; [exact Hx|]. simpl. intros; lia.
    + constructor; [exact IH|]. by apply insert_by_timestamp_Forall.
Qed.

Lemma sorted_by_timestamp_acc_sorted l : ∀ acc,
  chronological acc →
  chronological (foldl (fun acc m => insert_by_timestamp m acc) acc l).
Proof.
  induction l as [|m l IH]; intros acc Hacc; simpl; [done|].
  by apply IH, insert_by_timestamp_sorted.
Qed.

Lemma stamped_later t x l :
  Forall (fun b => Session.timestamp x ≤ Session.timestamp b) l →
  t < Session.timestamp x →
  stamped t l = [].
Proof.
  unfold stamped. induction 1 as [|y l Hy Hl IH]; intros Hlt; simpl; [done|].
  destruct (Z.eqb_spec (Session.timestamp y) t); [lia|]. by apply IH.
Qed.

Lemma stamped_cons t x l :
  stamped t (x :: l)
  = (if Session.timestamp x =? t then [x] else []) ++ stamped t l.
Proof. unfold stamped. simpl. by destruct (_ =? _). Qed.

Lemma insert_by_timestamp_stamped t m l :
  chronological l →
  stamped t (insert_by_timestamp m l)
  = stamped t l ++ (if Session.timestamp m =? t then [m] else []).
Proof.
  unfold chronological. induction 1 as [|x l Hl IH Hx].
  { cbn [insert_by_timestamp]. rewrite stamped_cons. unfold stamped. simpl.
    by rewrite app_nil_r. }
  cbn [insert_by_timestamp].
  destruct (Z.ltb_spec (Session.timestamp m) (Session.timestamp x)) as [Hlt|Hge].
  - rewrite (stamped_cons t m).
    destruct (Z.eqb_spec (Session.timestamp m) t) as [Hm|Hm].
    + rewrite (stamped_later t x (x :: l)); [reflexivity| |lia].
      constructor; [lia|exact Hx].
    + by rewrite app_nil_r.
  - rewrite (stamped_cons t x), IH, (stamped_cons t x). by rewrite app_assoc.
Qed.

Lemma sorted_by_timestamp_acc_stamped t l : ∀ acc,
  chronological acc →
  stamped t (foldl (fun acc m => insert_by_timestamp m acc) acc l)
  = stamped t acc ++ stamped t l.
Proof.
  induction l as [|m l IH]; intros acc Hacc; simpl.
  - by rewrite app_nil_r.
  - rewrite IH by (by apply insert_by_timestamp_sorted).
    rewrite insert_by_timestamp_stamped by done.
    rewrite <- app_assoc. f_equal. unfold stamped. simpl.
    by destruct (_ =? _).
Qed.

Lemma insert_by_timestamp_last m l :
  Forall (fun x => Session.timestamp x ≤ Session.timestamp m) l →
  insert_by_timestamp m l = l ++ [m].
Proof.
  induction 1 as [|x l Hx Hl IH]; simpl; [done|].
  destruct (Z.ltb_spec (Session.timestamp m) (Session.timestamp x)); [lia|].
  by rewrite IH.
Qed.

Lemma sorted_by_timestamp_acc_id l : ∀ acc,
  chronological (acc ++ l) →
  foldl (fun acc m => insert_by_timestamp m acc) acc l = acc ++ l.
Proof.
  induction l as [|m l IH]; intros acc Hs; simpl.
  - by rewrite app_nil_r.
  - rewrite insert_by_timestamp_last.
    + rewrite IH; rewrite <- app_assoc; done.
    + unfold chronological in Hs. clear IH.
      induction acc as [|x acc IHacc]; simpl in *; [done|].
      inversion Hs as [|? ? Hs' Hx]; subst. constructor.
      * rewrite Forall_app in Hx. destruct Hx as [_ Hx]. by inversion Hx.
      * by apply IHacc.
Qed.

(** X21. [get_conversation_history] without a limit returns the messages
    of the session sorted by time: the result is in chronological order,
    is a rearrangement of the stored messages, and keeps messages of equal
    time in their stored order; when the stored messages are already in
    chronological order it is the stored list itself. With a limit of at
    least one it returns the [limit] last messages of that sorted list,
    and a limit of zero is no limit. *)
Theorem session_history_sorted s :
  let history := Session.get_conversation_history s None in
  chronological history ∧
  history ≡ₚ Session.messages s ∧
  (∀ t, stamped t history = stamped t (Session.messages s)) ∧
  (chronological (Session.messages s) → history = Session.messages s) ∧
  (∀ k, 1 ≤ k →
        Session.get_conversation_history s (Some k)
        = most_recent (Z.to_nat k) history) ∧
  Session.get_conversation_history s (Some 0) = history.
Proof.
  intros history. unfold history, Session.get_conversation_history. simpl.
  unfold sorted_by_timestamp. split.
  { apply sorted_by_timestamp_acc_sorted. constructor. }
  split. { apply (sorted_by_timestamp_acc_perm (Session.messages s) []). }
  split. { intros t. apply (sorted_by_timestamp_acc_stamped t (Session.messages s) []).
           constructor. }
  split. { intros Hs. by apply (sorted_by_timestamp_acc_id (Session.messages s) []). }
  split; [|done].
  intros k Hk. destruct (Z.eqb_spec k 0); [lia|]. simpl.
  by rewrite slice_from_last by lia.
Qed.

Lemma foldr_add_app (l1 l2 : list Z) :
  foldr Z.add 0 (l1 ++ l2) = foldr Z.add 0 l1 + foldr Z.add 0 l2.
Proof. induction l1 as [|x l1 IH]; simpl; [done|]. rewrite IH. lia. Qed.

Lemma filter_app_length {A} (f : A → bool) (l1 l2 : list A) :
  length (List.filter f (l1 ++ l2))
  = (length (List.filter f l1) + length (List.filter f l2))%nat.
Proof. by rewrite List.filter_app, length_app. Qed.

Lemma role_counts (l : list Message) :
  (length (List.filter (fun m => bool_decide (Session.role m = USER)) l) +
   length (List.filter (fun m => bool_decide (Session.role m = ASSISTANT)) l) +
   length (List.filter (fun m => bool_decide (Session.role m = SYSTEM)) l)
   = length l)%nat.
Proof.
  induction l as [|m l IH]; simpl; [done|].
  destruct (Session.role m); simpl; lia.
Qed.

(** X22. [get_session_metrics] counts every message once by role: user,
    assistant and system messages add up to the total. [add_message]
    appends the message with the first clock reading as its time, to an
    ended session as well as to an active one: it raises the total by one,
    the token count by the tokens of the message and the count of its role
    by one, and leaves status, end time and configuration alone. *)
Theorem session_metrics_add_message s fresh_id role content message_type metadata
    tokens now later t t' :
  let before := get_session_metrics int_seconds s t in
  let result :=
    add_message s fresh_id role content message_type metadata tokens now later in
  let after := get_session_metrics int_seconds (snd result) t' in
  (user_messages before + assistant_messages before ≤ total_messages before)%nat ∧
  (user_messages before + assistant_messages before
   + length (List.filter (fun m => bool_decide (Session.role m = SYSTEM))
                         (Session.messages s))
   = total_messages before)%nat ∧
  Session.messages (snd result) = Session.messages s ++ [fst result] ∧
  Session.timestamp (fst result) = now ∧
  Session.tokens_used (fst result) = tokens ∧
  total_messages after = S (total_messages before) ∧
  total_tokens_used after = total_tokens_used before + tokens ∧
  user_messages after
    = (user_messages before + if bool_decide (role = USER) then 1 else 0)%nat ∧
  assistant_messages after
    = (assistant_messages before + if bool_decide (role = ASSISTANT) then 1 else 0)%nat ∧
  m_status after = m_status before ∧
  m_ended_at after = m_ended_at before ∧
  Session.config (snd result) = Session.config s ∧
  Session.updated_at (snd result) = later.
Proof.
  intros before result after. unfold after, before, result. simpl.
  pose proof (role_counts (Session.messages s)) as Hroles.
  split; [lia|]. split; [lia|]. split; [done|]. split; [done|]. split; [done|].
  split; [rewrite length_app; simpl; lia|].
  split; [rewrite map_app, foldr_add_app; simpl; lia|].
  split; [rewrite filter_app_length; simpl; by destruct (bool_decide _)|].
  split; [rewrite filter_app_length; simpl; by destruct (bool_decide _)|].
  done.
Qed.

End SessionProperties.

(** ** Instances on concrete sessions *)

Lemma ended_session_is_final_witness :
  Session.status completed_session = Session.COMPLETED ∧
  Session.status
    (foldl (Session.apply_operation Session.whole_seconds) completed_session
           late_operations) = Session.COMPLETED ∧
  Session.total_duration
    (foldl (Session.apply_operation Session.whole_seconds) completed_session
           late_operations) = Some 1800.
Proof.
  destruct (ended_session_is_final Session.whole_seconds late_operations
              completed_session) as (Hs & _ & Hd & _); [discriminate|].
  split; [reflexivity|]. split; [rewrite Hs; reflexivity|rewrite Hd; reflexivity].
Defined.

Lemma complete_session_spec_witness :
  Session.status completed_session = Session.COMPLETED ∧
  Session.ended_at completed_session = Some 1800500000 ∧
  Session.total_duration completed_session = Some 1800 ∧
  Session.is_expired Session.whole_seconds completed_session 999999999999 = false.
Proof.
  destruct (complete_session_spec Session.whole_seconds Session.hour_session
              1800500000 1800500001 eq_refl)
    as (Hs & _ & He & Hd & _ & _ & _ & _ & Hexp & _).
  split; [exact Hs|]. split; [exact He|]. split; [exact Hd|]. apply Hexp.
Defined.

Lemma is_expired_spec_witness :
  Session.is_expired Session.whole_seconds Session.hour_session 3600000000 = true ∧
  Session.is_expired Session.whole_seconds Session.hour_session 3599999999 = false ∧
  Session.is_expired Session.whole_seconds
    (Session.extend_session (Session.extend_session Session.hour_session 5 1) 5 2)
    3600000000
  = Session.is_expired Session.whole_seconds
      (Session.extend_session Session.hour_session (5 + 5) 2) 3600000000 ∧
  Session.extend_session completed_session 10 5 = completed_session.
Proof.
  destruct (is_expired_spec Session.whole_seconds Session.hour_session 3600000000)
    as [Hactive _].
  destruct (Hactive eq_refl) as [Hexp Hext].
  destruct (is_expired_spec Session.whole_seconds completed_session 0) as [_ Hended].
  destruct Hended as [_ Hsame]; [discriminate|].
  split; [apply (Hexp eq_refl); vm_compute; discriminate|].
  split; [reflexivity|]. split; [apply Hext|apply Hsame].
Defined.

Lemma session_history_sorted_witness :
  map Session.message_id (Session.get_conversation_history shuffled_session None)
    = [2%N; 1%N; 3%N] ∧
  map Session.message_id (Session.get_conversation_history shuffled_session (Some 2))
    = [1%N; 3%N] ∧
  chronological (Session.get_conversation_history shuffled_session None).
Proof.
  destruct (session_history_sorted shuffled_session) as (Hsorted & _ & _ & _ & Hk & _).
  split; [reflexivity|]. split; [|exact Hsorted].
  rewrite (Hk 2) by lia. reflexivity.
Defined.

Lemma conversation_highlights_spec_witness :
  map hl_timestamp (_extract_conversation_highlights scored_history) = [6] ∧
  (length (_extract_conversation_highlights scored_history) ≤ 5)%nat.
Proof.
  destruct (conversation_highlights_spec scored_history) as (Hle & _ & Hmap & _).
  split; [rewrite Hmap; reflexivity|exact Hle].
Defined.

Lemma orchestrator_cleanup_session_spec_witness :
  current_sessions (Orchestrator.cleanup_session running_orchestrator 1%N) !! 1%N = None ∧
  sessions (memory (Orchestrator.cleanup_session running_orchestrator 1%N)) !! 1%N = None ∧
  process_user_answer (Orchestrator.cleanup_session running_orchestrator 1%N)
    successful_outcomes 1%N "my answer" = Raise (ValueError 1%N).
Proof.
  destruct (orchestrator_cleanup_session_spec running_orchestrator 1%N)
    as (Hc & Hs & _ & _ & _ & Hraise).
  split; [exact Hc|]. split; [exact Hs|apply Hraise].
Defined.

Lemma topic_coverage_within_covered_witness :
  ∃ cm' tc,
    add_interactions (initialize_session (init_memory 24 2) 1%N "chat_system" BEGINNER 0)
                     1%N topic_calls = Ok cm' ∧
    get_topic_coverage cm' 1%N = Ok (Some tc) ∧
    (total_topics_mentioned tc ≤ length (tc_covered_topics tc))%nat.
Proof.
  destruct (topic_coverage_within_covered (init_memory 24 2) 1%N "chat_system" BEGINNER 0
              topic_calls) as (cm' & tc & Hrun & Hcov & _ & Hle).
  by exists cm', tc.
Defined.

Lemma session_metrics_add_message_witness :
  let result :=
    Session.add_message shuffled_session 9%N Session.ASSISTANT "reply" Session.TEXT
      None 20 40 41 in
  Session.total_messages
    (Session.get_session_metrics Session.whole_seconds (snd result) 50) = 4%nat ∧
  Session.total_tokens_used
    (Session.get_session_metrics Session.whole_seconds (snd result) 50) = 29.
Proof.
  intros result.
  destruct (session_metrics_add_message Session.whole_seconds shuffled_session 9%N
              Session.ASSISTANT "reply" Session.TEXT None 20 40 41 50 50)
    as (_ & _ & _ & _ & _ & Hn & Ht & _).
  split; [exact Hn|exact Ht].
Defined.

(** * The performance summary and the conversation flow *)

Lemma scores_of_append_score scores key v k :
  scores_of (append_score scores key v) k
  = scores_of scores k ++ (if String.eqb key k then [v] else []).
Proof.
  induction scores as [|[k0 vs] scores IH]; simpl.
  - by destruct (String.eqb key k).
  - destruct (String.eqb_spec k0 key) as [->|Hne]; simpl.
    + destruct (String.eqb key k); [done|by rewrite app_nil_r].
    + destruct (String.eqb_spec k0 k) as [->|Hne']; [|exact IH].
      destruct (String.eqb_spec key k) as [->|_]; [done|by rewrite app_nil_r].
Qed.

Lemma append_score_keys scores key v :
  map fst (append_score scores key v) = add_topic (map fst scores) key.
Proof.
  unfold add_topic. induction scores as [|[k vs] scores IH]; cbn [append_score map fst].
  - case_bool_decide as Hin; [by apply elem_of_nil in Hin|reflexivity].
  - destruct (String.eqb_spec k key) as [->|Hne]; cbn [map fst].
    + by rewrite bool_decide_true by (by left).
    + rewrite IH. destruct (decide (key ∈ map fst scores)) as [Hin|Hin].
      * by rewrite !bool_decide_true by (done || by right).
      * rewrite !bool_decide_false; [reflexivity| |done].
        intros [?|?]%elem_of_cons; by simplify_eq.
Qed.

Lemma append_score_wf scores key v :
  endswith key "_score" = true → scores_wf scores → scores_wf (append_score scores key v).
Proof.
  intros Hkey [Hnd Hall]. split.
  - rewrite append_score_keys. by apply add_topic_NoDup.
  - clear Hnd. induction scores as [|[k vs] scores IH]; simpl.
    + constructor; [|constructor]. by split.
    + inversion Hall as [|? ? [Hk Hvs] Hall']; subst. simpl in *.
      destruct (String.eqb_spec k key) as [->|Hne].
      * constructor; [|done]. split; [done|]. by destruct vs.
      * constructor; [done|]. by apply IH.
Qed.

Lemma collect_scores_spec ev : ∀ scores,
  scores_wf scores →
  scores_wf (collect_scores scores ev) ∧
  ∀ key, endswith key "_score" = true →
         scores_of (collect_scores scores ev) key
         = scores_of scores key ++ numeric_values_in key ev.
Proof.
  unfold collect_scores, numeric_values_in.
  induction ev as [|[k v] ev IH]; intros scores Hwf; simpl.
  - split; [done|]. intros key _. by rewrite app_nil_r.
  - destruct (endswith k "_score") eqn:Hk; simpl.
    + destruct (is_number v) eqn:Hv.
      * destruct (IH (append_score scores k v)) as [Hwf' Hvals];
          [by apply append_score_wf|].
        split; [exact Hwf'|]. intros key Hkey.
        rewrite (Hvals key Hkey), scores_of_append_score, <- app_assoc.
        by destruct (String.eqb k key).
      * destruct (IH scores Hwf) as [Hwf' Hvals]. split; [exact Hwf'|].
        intros key Hkey. rewrite (Hvals key Hkey).
        by rewrite andb_false_r.
    + destruct (IH scores Hwf) as [Hwf' Hvals]. split; [exact Hwf'|].
      intros key Hkey. rewrite (Hvals key Hkey).
      destruct (String.eqb_spec k key) as [->|_]; [congruence|done].
Qed.

Lemma total_scores_spec samples : ∀ scores,
  scores_wf scores →
  scores_wf (foldl (fun acc d => collect_scores acc (ps_evaluation d)) scores samples) ∧
  ∀ key, endswith key "_score" = true →
         scores_of (foldl (fun acc d => collect_scores acc (ps_evaluation d)) scores samples)
                   key
         = scores_of scores key ++ numeric_values key samples.
Proof.
  unfold numeric_values.
  induction samples as [|d samples IH]; intros scores Hwf; simpl.
  - split; [done|]. intros key _. by rewrite app_nil_r.
  - destruct (collect_scores_spec (ps_evaluation d) scores Hwf) as [Hwf1 Hvals1].
    destruct (IH _ Hwf1) as [Hwf2 Hvals2]. split; [exact Hwf2|].
    intros key Hkey. by rewrite (Hvals2 key Hkey), (Hvals1 key Hkey), <- app_assoc.
Qed.

Lemma scores_of_elem scores key vs :
  NoDup (map fst scores) → (key, vs) ∈ scores → scores_of scores key = vs.
Proof.
  induction scores as [|[k ws] scores IH]; simpl; intros Hnd Hin.
  - by apply elem_of_nil in Hin.
  - apply NoDup_cons in Hnd as [Hk Hnd].
    apply elem_of_cons in Hin as [Heq|Hin].
    + simplify_eq. by rewrite String.eqb_refl.
    + destruct (String.eqb_spec k key) as [->|_]; [|by apply IH].
      exfalso. apply Hk. apply list_elem_of_fmap. by exists (key, vs).
Qed.

Lemma scores_of_absent scores key :
  key ∉ map fst scores → scores_of scores key = [].
Proof.
  induction scores as [|[k ws] scores IH]; simpl; intros Hnin; [done|].
  destruct (String.eqb_spec k key) as [->|_].
  - exfalso. apply Hnin. by left.
  - apply IH. intros Hin. apply Hnin. by right.
Qed.

(** The table of scores built over the samples: one list for each key
    ending in [_score] under which some sample holds a number, holding all
    those numbers in order. *)
Lemma total_scores_table samples :
  let table :=
    foldl (fun acc d => collect_scores acc (ps_evaluation d)) [] samples in
  NoDup (map fst table) ∧
  (∀ key, key ∈ map fst table ↔
          endswith key "_score" = true ∧ numeric_values key samples ≠ []) ∧
  (∀ key scores, (key, scores) ∈ table → scores = numeric_values key samples).
Proof.
  intros table.
  destruct (total_scores_spec samples []) as [[Hnd Hwf] Hvals].
  { split; [apply NoDup_nil_2|constructor]. }
  fold table in Hnd, Hwf, Hvals. cbn [scores_of app] in Hvals.
  rewrite Forall_forall in Hwf.
  split; [exact Hnd|]. split.
  - intros key. split.
    + intros Hin. apply list_elem_of_fmap in Hin as ([k vs] & -> & Hin).
      destruct (Hwf _ Hin) as [Hk Hvs]. simpl in *. split; [exact Hk|].
      rewrite <- (Hvals k Hk). by rewrite (scores_of_elem table k vs Hnd Hin).
    + intros [Hk Hvs]. destruct (decide (key ∈ map fst table)) as [Hin|Hnin]; [done|].
      exfalso. apply Hvs. rewrite <- (Hvals key Hk). by apply scores_of_absent.
  - intros key scores Hin. destruct (Hwf _ Hin) as [Hk _]. simpl in Hk.
    rewrite <- (Hvals key Hk). by rewrite (scores_of_elem table key scores Hnd Hin).
Qed.

Lemma averages_Ok mean_of table avgs :
  averages mean_of table = Ok avgs →
  map fst avgs = map fst table ∧
  ∀ key average, (key, average) ∈ avgs →
    ∃ scores, (key, scores) ∈ table ∧ mean_of scores = Ok average.
Proof.
  revert avgs. induction table as [|[k vs] table IH]; intros avgs; simpl.
  - intros [= <-]. split; [done|]. intros key average Hin. by apply elem_of_nil in Hin.
  - destruct (mean_of vs) as [v|e] eqn:Hmean; simpl; [|done].
    destruct (averages mean_of table) as [rest|e]; simpl; [|done].
    intros [= <-]. destruct (IH rest eq_refl) as [Hkeys Hvals]. split.
    + simpl. by rewrite Hkeys.
    + intros key average [Heq|Hin]%elem_of_cons.
      * simplify_eq. exists vs. split; [by left|done].
      * destruct (Hvals key average Hin) as (scores & Hin' & Hmean').
        exists scores. split; [by right|done].
Qed.

Lemma averages_Raise mean_of table e :
  averages mean_of table = Raise e →
  ∃ key scores, (key, scores) ∈ table ∧ mean_of scores = Raise e.
Proof.
  induction table as [|[k vs] table IH]; simpl; [done|].
  destruct (mean_of vs) as [v|e'] eqn:Hmean; simpl.
  - destruct (averages mean_of table) as [rest|e'']; simpl; [done|].
    intros [= ->]. destruct (IH eq_refl) as (key & scores & Hin & Hraise).
    exists key, scores. split; [by right|done].
  - intros [= ->]. exists k, vs. split; [by left|done].
Qed.

(** X23. [_get_performance_summary] on a session with cached samples
    either returns a summary or raises what the quotient
    [sum(scores) / len(scores)] raises for one of the keys. In a summary,
    [total_evaluations] is the number of samples; [recent_trend] is
    "initial" for one sample and "improving" for two or more, whatever the
    scores are; [average_scores] has one entry for each key ending in
    [_score] under which some sample holds a number, and the entry is the
    quotient over all those numbers, so the quotient is never taken over
    an empty list. Without cached samples the summary is the empty
    dictionary. *)
Theorem performance_summary_spec mean_of cm sid :
  (cached_samples cm sid = [] → _get_performance_summary mean_of cm sid = Ok None) ∧
  (cached_samples cm sid ≠ [] →
   (∀ e, _get_performance_summary mean_of cm sid = Raise e →
         ∃ key, endswith key "_score" = true ∧
                numeric_values key (cached_samples cm sid) ≠ [] ∧
                mean_of (numeric_values key (cached_samples cm sid)) = Raise e) ∧
   (∀ summary, _get_performance_summary mean_of cm sid = Ok summary →
      ∃ ps,
        summary = Some ps ∧
        total_evaluations ps = length (cached_samples cm sid) ∧
        recent_trend ps
          = (if decide (length (cached_samples cm sid) = 1%nat) then "initial"
             else "improving") ∧
        NoDup (map fst (average_scores ps)) ∧
        (∀ key, key ∈ map fst (average_scores ps) ↔
                endswith key "_score" = true ∧
                numeric_values key (cached_samples cm sid) ≠ []) ∧
        (∀ key average, (key, average) ∈ average_scores ps →
           mean_of (numeric_values key (cached_samples cm sid)) = Ok average)) ∧
   ((∀ key, endswith key "_score" = true →
            numeric_values key (cached_samples cm sid) ≠ [] →
            ∃ average, mean_of (numeric_values key (cached_samples cm sid)) = Ok average) →
    ∃ ps, _get_performance_summary mean_of cm sid = Ok (Some ps))).
Proof.
  unfold cached_samples, _get_performance_summary.
  destruct (performance_cache cm !! sid) as [[|d samples]|];
    cbn [default from_option id];
    [by split|split; [done|intros _]|by split].
  remember (d :: samples) as all eqn:Hall.
  destruct (total_scores_table all) as (Hnd & Hkeys & Hvals).
  remember (foldl (fun acc d0 => collect_scores acc (ps_evaluation d0)) [] all)
    as table eqn:Htable. clear Htable.
  destruct (averages mean_of table) as [avgs|e0] eqn:Havg; cbn [mbind result_bind].
  - destruct (averages_Ok mean_of table avgs Havg) as [Hfst Hmean].
    split; [done|]. split; [|by eexists].
    intros summary [= <-]. eexists. split; [reflexivity|].
    cbn [total_evaluations recent_trend average_scores].
    split; [done|]. split.
    { rewrite Hall. cbn [length]. destruct samples; [done|]. by destruct (decide _). }
    split; [by rewrite Hfst|]. split.
    + intros key. rewrite Hfst. apply Hkeys.
    + intros key average Hin. destruct (Hmean key average Hin) as (scores & Hin' & Hok).
      by rewrite <- (Hvals key scores Hin').
  - destruct (averages_Raise mean_of table e0 Havg) as (key & scores & Hin & Hraise).
    assert (key ∈ map fst table) as Hkey.
    { apply list_elem_of_fmap. by exists (key, scores). }
    apply Hkeys in Hkey as [Hk Hne]. rewrite (Hvals key scores Hin) in Hraise.
    split; [|split; [done|]].
    + intros e [= <-]. by exists key.
    + intros Hall_ok. destruct (Hall_ok key Hk Hne) as [average Hok]. congruence.
Qed.

Lemma performance_summary_spec_witness :
  (∃ ps,
     _get_performance_summary exact_mean falling_store 1%N = Ok (Some ps) ∧
     total_evaluations ps = 2%nat ∧
     recent_trend ps = "improving" ∧
     average_scores ps = [("clarity_score", PyFloat (6 # 1))]) ∧
  _get_performance_summary exact_mean falling_store 2%N = Ok None ∧
  _get_performance_summary overflowing_mean oversized_store 1%N = Raise OverflowError.
Proof.
  destruct (performance_summary_spec exact_mean falling_store 1%N) as [_ Hsome].
  destruct (performance_summary_spec exact_mean falling_store 2%N) as [Hnone _].
  destruct Hsome as (_ & Hok & _); [discriminate|].
  destruct (Hok _ eq_refl) as (ps & Hps & Hn & Htrend & _).
  split; [|split; [apply Hnone; reflexivity|reflexivity]].
  exists ps. split; [by rewrite <- Hps|]. split; [exact Hn|]. split; [exact Htrend|].
  vm_compute in Hps. by injection Hps as <-.
Defined.

Lemma occurrences_filter (f : string → bool) t l :
  f t = true → occurrences t (List.filter f l) = occurrences t l.
Proof.
  intros Hf. unfold occurrences. induction l as [|x l IH]; simpl; [done|].
  destruct (f x) eqn:Hx; simpl.
  - destruct (String.eqb t x); simpl; by rewrite IH.
  - destruct (String.eqb_spec t x) as [->|_]; [congruence|exact IH].
Qed.

Lemma truthy_str_nonempty k : truthy_str (Some k) = negb (String.eqb k "").
Proof. by destruct k. Qed.

(** X24. [_analyze_conversation_flow] on a session that holds
    interactions: the kinds of question that are the empty string are
    left out; [question_types_used] holds each other kind once with the
    number of interactions of that kind; [flow_diversity] is the number of
    its keys and never exceeds [total_interactions]; [progression] is the
    last five of the kinds in order, all of them when there are fewer.
    Without interactions the result is the no-data dictionary. *)
Theorem conversation_flow_spec sm :
  (interactions sm = [] → _analyze_conversation_flow sm = None) ∧
  (interactions sm ≠ [] →
   ∃ flow,
     _analyze_conversation_flow sm = Some flow ∧
     total_interactions flow = length (interactions sm) ∧
     NoDup (map fst (question_types_used flow)) ∧
     (∀ k, k ∈ map fst (question_types_used flow) ↔
           k ≠ "" ∧ k ∈ map question_type (interactions sm)) ∧
     (∀ k, k ≠ "" →
           count_of (question_types_used flow) k
           = occurrences k (map question_type (interactions sm))) ∧
     flow_diversity flow = length (question_types_used flow) ∧
     (flow_diversity flow ≤ total_interactions flow)%nat ∧
     progression flow = most_recent 5 (nonempty_kinds sm) ∧
     (length (progression flow) ≤ 5)%nat).
Proof.
  unfold _analyze_conversation_flow.
  destruct (interactions sm) as [|i rest] eqn:Hint; [by split|].
  split; [done|intros _]. rewrite <- Hint.
  assert (List.filter (fun k => truthy_str (Some k)) (map question_type (interactions sm))
          = nonempty_kinds sm) as ->.
  { unfold nonempty_kinds. apply filter_ext. intros k. apply truthy_str_nonempty. }
  eexists. split; [reflexivity|].
  cbn [total_interactions question_types_used flow_diversity progression].
  destruct (topic_frequency_table (nonempty_kinds sm)) as (Hnd & Hmem & Hcount & Hsize).
  assert (∀ k, k ∈ nonempty_kinds sm ↔ k ≠ "" ∧ k ∈ map question_type (interactions sm))
    as Hkinds.
  { intros k. unfold nonempty_kinds. rewrite !list_elem_of_In, filter_In.
    rewrite negb_true_iff. destruct (String.eqb_spec k ""); split; intros [? ?]; done. }
  assert (progression_eq :
            (if (5 <=? length (nonempty_kinds sm))%nat
             then slice_from (nonempty_kinds sm) (-5) else nonempty_kinds sm)
            = most_recent 5 (nonempty_kinds sm)).
  { destruct (Nat.leb_spec 5 (length (nonempty_kinds sm))).
    - apply (slice_from_neg (nonempty_kinds sm) 5).
    - rewrite most_recent_all; [done|lia]. }
  split; [by rewrite Hint|]. split; [exact Hnd|]. split.
  { intros k. by rewrite Hmem, Hkinds. }
  split.
  { intros k Hk. rewrite Hcount. unfold nonempty_kinds. apply occurrences_filter.
    rewrite negb_true_iff. by destruct (String.eqb_spec k ""). }
  split; [exact Hsize|]. split.
  { rewrite Hsize, <- (length_map fst).
    transitivity (length (nonempty_kinds sm)).
    - apply submseteq_length, NoDup_submseteq; [exact Hnd|].
      intros k Hk. by apply Hmem.
    - unfold nonempty_kinds.
      rewrite <- (length_map question_type (interactions sm)).
      apply filter_length_le. }
  split; [exact progression_eq|].
  rewrite progression_eq, most_recent_length. lia.
Qed.

Lemma conversation_flow_spec_witness :
  ∃ flow,
    _analyze_conversation_flow six_kinds_session = Some flow ∧
    total_interactions flow = 6%nat ∧
    progression flow = ["opening"; "follow_up"; "follow_up"; "deep_dive"; "follow_up"] ∧
    count_of (question_types_used flow) "follow_up" = 3%nat ∧
    _analyze_conversation_flow (fresh_session 1%N "chat_system" BEGINNER 0) = None.
Proof.
  destruct (conversation_flow_spec six_kinds_session) as [_ Hsome].
  destruct (conversation_flow_spec (fresh_session 1%N "chat_system" BEGINNER 0))
    as [Hnone _].
  destruct Hsome as (flow & Hrun & Hn & _ & _ & Hcount & _ & _ & Hprog & _);
    [discriminate|].
  exists flow. split; [exact Hrun|]. split; [exact Hn|].
  split; [rewrite Hprog; reflexivity|].
  split; [rewrite Hcount by discriminate; reflexivity|].
  apply Hnone. reflexivity.
Defined.

(** * Properties of the in-memory session repository *)

Lemma slice_page {A} (l : list A) (limit offset : Z) :
  0 ≤ limit → 0 ≤ offset →
  slice l offset (offset + limit) = take (Z.to_nat limit) (drop (Z.to_nat offset) l).
Proof.
  intros Hlimit Hoffset. unfold slice, slice_bound.
  destruct (Z.ltb_spec offset 0) as [?|_]; [lia|].
  destruct (Z.ltb_spec (offset + limit) 0) as [?|_]; [lia|].
  destruct (Z.le_gt_cases (Z.of_nat (length l)) offset) as [Hout|Hin].
  - rewrite (Z.min_r offset) by lia. rewrite !drop_ge by lia. by rewrite !take_nil.
  - rewrite (Z.min_l offset) by lia.
    destruct (Z.le_gt_cases (offset + limit) (Z.of_nat (length l))) as [Hfit|Hover].
    + rewrite Z.min_l by lia. f_equal. lia.
    + rewrite Z.min_r by lia. rewrite !take_ge; [done|rewrite length_drop; lia..].
Qed.

Lemma elem_of_remove_first x y l :
  NoDup l → x ∈ Repository.remove_first y l ↔ x ∈ l ∧ x ≠ y.
Proof.
  induction l as [|z l IH]; simpl; intros Hnd.
  - rewrite elem_of_nil. tauto.
  - apply NoDup_cons in Hnd as [Hz Hnd]. destruct (decide (z = y)) as [->|Hne].
    + rewrite elem_of_cons. split.
      * intros Hx. split; [by right|]. by intros ->.
      * by intros [[->|Hx] Hxy].
    + rewrite !elem_of_cons, (IH Hnd). split.
      * intros [->|[Hx Hxy]]; [split; [by left|done]|split; [by right|done]].
      * intros [[->|Hx] Hxy]; [by left|by right].
Qed.

Lemma remove_first_NoDup y l : NoDup l → NoDup (Repository.remove_first y l).
Proof.
  induction l as [|z l IH]; simpl; intros Hnd; [done|].
  apply NoDup_cons in Hnd as [Hz Hnd]. destruct (decide (z = y)); [done|].
  apply NoDup_cons. split; [|by apply IH].
  rewrite elem_of_remove_first by done. tauto.
Qed.

Lemma remove_first_snoc x l : x ∉ l → Repository.remove_first x (l ++ [x]) = l.
Proof.
  induction l as [|z l IH]; simpl; intros Hx.
  - by destruct (decide (x = x)).
  - destruct (decide (z = x)) as [->|_].
    + exfalso. apply Hx. by left.
    + f_equal. apply IH. intros Hin. apply Hx. by right.
Qed.

(** No list of the index names an identifier that is not stored. *)
Lemma well_indexed_fresh repo sid uid ids :
  well_indexed repo →
  Repository._sessions repo !! sid = None →
  Repository._user_sessions repo !! uid = Some ids →
  sid ∉ ids.
Proof.
  intros [_ Hi] Hfresh Hids Hin.
  destruct (Hi uid ids Hids) as [_ Hmem].
  destruct (Hmem sid Hin) as (s & Hs & _). congruence.
Qed.

Lemma well_indexed_new : well_indexed Repository.new_repository.
Proof. split; intros ? ? Hlook; simpl in Hlook; by rewrite lookup_empty in Hlook. Qed.

Lemma well_indexed_create repo s :
  well_indexed repo →
  Repository._sessions repo !! Session.session_id s = None →
  well_indexed (Repository.create repo s).
Proof.
  intros Hwf Hfresh. pose proof Hwf as [Hs Hi]. split.
  - intros sid s0 Hlook. simpl in Hlook.
    destruct (decide (sid = Session.session_id s)) as [->|Hne].
    + rewrite lookup_insert_eq in Hlook. injection Hlook as <-. split; [done|].
      simpl. eexists. rewrite lookup_insert_eq. split; [done|].
      apply elem_of_app. right. by left.
    + rewrite lookup_insert_ne in Hlook by done.
      destruct (Hs sid s0 Hlook) as [Hid (ids & Hids & Hin)]. split; [done|]. simpl.
      destruct (decide (Session.user_id s0 = Session.user_id s)) as [Heq|Hneq].
      * rewrite Heq, lookup_insert_eq. eexists. split; [done|].
        rewrite <- Heq, Hids. simpl. apply elem_of_app. by left.
      * rewrite lookup_insert_ne by done. by exists ids.
  - intros uid ids Hlook. simpl in Hlook.
    destruct (decide (uid = Session.user_id s)) as [->|Hne].
    + rewrite lookup_insert_eq in Hlook. injection Hlook as <-.
      destruct (Repository._user_sessions repo !! Session.user_id s) as [old|] eqn:Hold;
        simpl.
      * destruct (Hi _ _ Hold) as [Hnd Hmem]. split.
        -- apply NoDup_app. split; [done|]. split; [|apply NoDup_singleton].
           intros x Hx ->%list_elem_of_singleton.
           by apply (well_indexed_fresh repo _ _ old Hwf Hfresh Hold).
        -- intros sid [Hin| ->%list_elem_of_singleton]%elem_of_app.
           ++ destruct (Hmem sid Hin) as (s0 & Hs0 & Hu). exists s0. split; [|done].
              rewrite lookup_insert_ne; [done|]. intros <-. congruence.
           ++ exists s. by rewrite lookup_insert_eq.
      * split; [apply NoDup_singleton|]. intros sid ->%list_elem_of_singleton.
        exists s. by rewrite lookup_insert_eq.
    + rewrite lookup_insert_ne in Hlook by done.
      destruct (Hi _ _ Hlook) as [Hnd Hmem]. split; [done|].
      intros sid Hin. destruct (Hmem sid Hin) as (s0 & Hs0 & Hu). exists s0.
      split; [|done]. simpl. rewrite lookup_insert_ne; [done|]. intros <-. congruence.
Qed.

Lemma well_indexed_update repo s s0 :
  well_indexed repo →
  Repository._sessions repo !! Session.session_id s = Some s0 →
  Session.user_id s0 = Session.user_id s →
  ∃ repo', Repository.update repo s = Ok repo' ∧ well_indexed repo'.
Proof.
  intros [Hs Hi] Hstored Huser. unfold Repository.update. rewrite Hstored.
  eexists. split; [reflexivity|]. split.
  - intros sid s1 Hlook. simpl in *.
    destruct (decide (sid = Session.session_id s)) as [->|Hne].
    + rewrite lookup_insert_eq in Hlook. injection Hlook as <-. split; [done|].
      rewrite <- Huser. by destruct (Hs _ _ Hstored) as [_ ?].
    + rewrite lookup_insert_ne in Hlook by done. by apply Hs.
  - intros uid ids Hlook. simpl in *. destruct (Hi _ _ Hlook) as [Hnd Hmem].
    split; [done|]. intros sid Hin. destruct (Hmem sid Hin) as (s1 & Hs1 & Hu).
    destruct (decide (sid = Session.session_id s)) as [->|Hne].
    + exists s. rewrite lookup_insert_eq. split; [done|]. congruence.
    + exists s1. by rewrite lookup_insert_ne.
Qed.

Lemma well_indexed_delete repo sid :
  well_indexed repo → well_indexed (Repository.delete repo sid).1.
Proof.
  intros Hwf. pose proof Hwf as [Hs Hi]. unfold Repository.delete.
  destruct (Repository._sessions repo !! sid) as [s|] eqn:Hstored; [|done].
  destruct (Hs sid s Hstored) as [Hid (ids & Hids & Hin)].
  rewrite Hids. destruct (Hi _ _ Hids) as [Hnd Hmem]. split.
  - intros sid0 s0 Hlook. simpl in *.
    destruct (decide (sid0 = sid)) as [->|Hne].
    + by rewrite lookup_delete_eq in Hlook.
    + rewrite lookup_delete_ne in Hlook by done.
      destruct (Hs sid0 s0 Hlook) as [Hid0 (ids0 & Hids0 & Hin0)]. split; [done|].
      destruct (decide (Session.user_id s0 = Session.user_id s)) as [Heq|Hneq].
      * rewrite Heq, lookup_insert_eq. eexists. split; [done|].
        rewrite elem_of_remove_first by done. split; [|done]. congruence.
      * rewrite lookup_insert_ne by done. by exists ids0.
  - intros uid ids0 Hlook. simpl in *.
    destruct (decide (uid = Session.user_id s)) as [->|Hne].
    + rewrite lookup_insert_eq in Hlook. injection Hlook as <-.
      split; [by apply remove_first_NoDup|].
      intros sid0 [Hin0 Hne0]%elem_of_remove_first; [|done].
      destruct (Hmem sid0 Hin0) as (s0 & Hs0 & Hu). exists s0.
      by rewrite lookup_delete_ne.
    + rewrite lookup_insert_ne in Hlook by done.
      destruct (Hi _ _ Hlook) as [Hnd0 Hmem0]. split; [done|].
      intros sid0 Hin0. destruct (Hmem0 sid0 Hin0) as (s0 & Hs0 & Hu). exists s0.
      split; [|done]. rewrite lookup_delete_ne; [done|]. intros <-. congruence.
Qed.

(** X25. The index of the repository stays in agreement with its sessions:
    agreement holds for the new repository and is kept by [create] for an
    identifier that is not stored, by [update] with a session of the same
    user as the stored one, and by every [delete]. *)
Theorem repository_well_indexed :
  well_indexed Repository.new_repository ∧
  (∀ repo s,
     well_indexed repo → Repository.get_by_id repo (Session.session_id s) = None →
     well_indexed (Repository.create repo s)) ∧
  (∀ repo s s0,
     well_indexed repo → Repository.get_by_id repo (Session.session_id s) = Some s0 →
     Session.user_id s0 = Session.user_id s →
     ∃ repo', Repository.update repo s = Ok repo' ∧ well_indexed repo') ∧
  (∀ repo sid, well_indexed repo → well_indexed (Repository.delete repo sid).1).
Proof.
  split; [exact well_indexed_new|]. split; [exact well_indexed_create|].
  split; [exact well_indexed_update|exact well_indexed_delete].
Qed.

Lemma small_repository_well_indexed : well_indexed small_repository.
Proof.
  unfold small_repository. cbn [foldl].
  repeat (apply well_indexed_create; [|reflexivity]).
  apply well_indexed_new.
Qed.

Lemma repository_well_indexed_witness :
  well_indexed small_repository ∧
  well_indexed (Repository.delete small_repository 2%N).1.
Proof.
  destruct repository_well_indexed as (Hnew & Hcreate & _ & Hdelete).
  assert (well_indexed small_repository) as Hwf.
  { unfold small_repository. cbn [foldl].
    repeat (apply Hcreate; [|reflexivity]). exact Hnew. }
  split; [exact Hwf|by apply Hdelete].
Defined.

(** ** Listing the sessions of a user *)

Lemma insert_by_created_at_perm s l : Repository.insert_by_created_at s l ≡ₚ s :: l.
Proof.
  induction l as [|x l IH]; simpl; [done|].
  destruct (_ <? _); [done|]. rewrite IH. apply Permutation_swap.
Qed.

Lemma sorted_newest_first_acc_perm l : ∀ acc,
  foldl (fun acc s => Repository.insert_by_created_at s acc) acc l ≡ₚ acc ++ l.
Proof.
  induction l as [|s l IH]; intros acc; simpl.
  - by rewrite app_nil_r.
  - rewrite IH, insert_by_created_at_perm.
    by rewrite (Permutation_middle acc l s).
Qed.

Lemma insert_by_created_at_Forall (P : Session.InterviewSession → Prop) s l :
  P s → Forall P l → Forall P (Repository.insert_by_created_at s l).
Proof.
  intros Hs Hl. induction Hl as [|x l Hx Hl IH]; simpl.
  - by constructor.
  - destruct (_ <? _); repeat constructor; done.
Qed.

Lemma insert_by_created_at_sorted s l :
  newest_first l → newest_first (Repository.insert_by_created_at s l).
Proof.
  unfold newest_first. induction 1 as [|x l Hl IH Hx]; simpl.
  - repeat constructor.
  - destruct (Z.ltb_spec (Session.created_at x) (Session.created_at s)) as [Hlt|Hge].
    + constructor; [by constructor|]. constructor; [lia|].
      eapply Forall_impl; [exact Hx|]. simpl. intros; lia.
    + constructor; [exact IH|]. by apply insert_by_created_at_Forall.
Qed.

Lemma sorted_newest_first_acc_sorted l : ∀ acc,
  newest_first acc →
  newest_first (foldl (fun acc s => Repository.insert_by_created_at s acc) acc l).
Proof.
  induction l as [|s l IH]; intros acc Hacc; simpl; [done|].
  by apply IH, insert_by_created_at_sorted.
Qed.

Lemma listed_sessions_ids repo uid :
  well_indexed repo →
  map Session.session_id (Repository.listed_sessions repo uid)
  = default [] (Repository._user_sessions repo !! uid).
Proof.
  intros [Hs Hi]. unfold Repository.listed_sessions.
  destruct (Repository._user_sessions repo !! uid) as [ids|] eqn:Hids; [|done].
  destruct (Hi _ _ Hids) as [_ Hmem]. simpl. clear Hids.
  induction ids as [|sid ids IH]; [done|].
  destruct (Hmem sid) as (s & Hlook & _); [by left|].
  cbn [omap list_omap]. rewrite Hlook. cbn [map].
  destruct (Hs _ _ Hlook) as [-> _]. f_equal.
  apply IH. intros sid0 Hin0. apply Hmem. by right.
Qed.

Lemma elem_of_listed_sessions repo uid s :
  well_indexed repo →
  s ∈ Repository.listed_sessions repo uid ↔
  Repository._sessions repo !! Session.session_id s = Some s ∧ Session.user_id s = uid.
Proof.
  intros [Hs Hi]. unfold Repository.listed_sessions. rewrite list_elem_of_omap. split.
  - intros (sid & Hin & Hlook).
    destruct (Repository._user_sessions repo !! uid) as [ids|] eqn:Hids;
      [|by apply elem_of_nil in Hin].
    destruct (Hi _ _ Hids) as [_ Hmem]. destruct (Hmem sid Hin) as (s0 & Hs0 & Hu).
    simplify_eq. destruct (Hs _ _ Hlook) as [-> _]. done.
  - intros [Hlook <-]. destruct (Hs _ _ Hlook) as [_ (ids & Hids & Hin)].
    exists (Session.session_id s). by rewrite Hids.
Qed.

(** X26. In a repository whose index agrees with its sessions,
    [get_by_user_id] pages through one listing: the stored sessions of the
    user, each once, newest first. For a limit and an offset that are not
    negative the page holds the [limit] sessions after the first [offset]
    of the listing, and consecutive pages join into the larger page. *)
Theorem get_by_user_id_spec repo uid :
  well_indexed repo →
  ∃ listing,
    (∀ limit offset, 0 ≤ limit → 0 ≤ offset →
       Repository.get_by_user_id repo uid limit offset
       = take (Z.to_nat limit) (drop (Z.to_nat offset) listing)) ∧
    newest_first listing ∧
    NoDup (map Session.session_id listing) ∧
    (∀ s, s ∈ listing ↔
          Repository.get_by_id repo (Session.session_id s) = Some s ∧
          Session.user_id s = uid) ∧
    (∀ a b offset, 0 ≤ a → 0 ≤ b → 0 ≤ offset →
       Repository.get_by_user_id repo uid a offset
       ++ Repository.get_by_user_id repo uid b (offset + a)
       = Repository.get_by_user_id repo uid (a + b) offset).
Proof.
  intros Hwf.
  exists (Repository.sorted_newest_first (Repository.listed_sessions repo uid)).
  assert (Repository.sorted_newest_first (Repository.listed_sessions repo uid)
          ≡ₚ Repository.listed_sessions repo uid) as Hperm.
  { apply (sorted_newest_first_acc_perm (Repository.listed_sessions repo uid) []). }
  split.
  { intros limit offset Hlimit Hoffset. by apply slice_page. }
  split.
  { apply sorted_newest_first_acc_sorted. constructor. }
  split.
  { rewrite Hperm, listed_sessions_ids by done.
    destruct (Repository._user_sessions repo !! uid) as [ids|] eqn:Hids;
      [|apply NoDup_nil_2].
    destruct Hwf as [_ Hi]. by destruct (Hi _ _ Hids). }
  split.
  { intros s. rewrite Hperm. by apply elem_of_listed_sessions. }
  intros a b offset Ha Hb Hoffset. unfold Repository.get_by_user_id.
  rewrite !slice_page by lia.
  replace (Z.to_nat (offset + a)) with (Z.to_nat offset + Z.to_nat a)%nat by lia.
  rewrite <- drop_drop, take_take_drop. f_equal. lia.
Qed.

Lemma get_by_user_id_spec_witness :
  map Session.session_id (Repository.get_by_user_id small_repository 7%N 50 0)
    = [2%N; 4%N; 1%N] ∧
  map Session.session_id (Repository.get_by_user_id small_repository 7%N 1 1) = [4%N] ∧
  ∃ listing,
    newest_first listing ∧
    Repository.get_by_user_id small_repository 7%N 50 0 = take 50 listing.
Proof.
  destruct (get_by_user_id_spec small_repository 7%N small_repository_well_indexed)
    as (listing & Hpage & Hsorted & _).
  split; [reflexivity|]. split; [reflexivity|].
  exists listing. split; [exact Hsorted|].
  rewrite (Hpage 50 0) by lia. reflexivity.
Defined.

(** ** The active session of a user *)

Lemma first_active_Some sessions ids s :
  Repository.first_active sessions ids = Some s →
  Session.status s = Session.ACTIVE ∧ ∃ sid, sid ∈ ids ∧ sessions !! sid = Some s.
Proof.
  induction ids as [|sid ids IH]; simpl; [done|].
  destruct (sessions !! sid) as [s0|] eqn:Hlook.
  - destruct (decide (Session.status s0 = Session.ACTIVE)) as [Hactive|_].
    + intros [= <-]. split; [done|]. exists sid. split; [by left|done].
    + intros Hrest. destruct (IH Hrest) as [? (sid' & ? & ?)]. split; [done|].
      exists sid'. split; [by right|done].
  - intros Hrest. destruct (IH Hrest) as [? (sid' & ? & ?)]. split; [done|].
    exists sid'. split; [by right|done].
Qed.

Lemma first_active_None sessions ids :
  Repository.first_active sessions ids = None ↔
  ∀ sid s, sid ∈ ids → sessions !! sid = Some s → Session.status s ≠ Session.ACTIVE.
Proof.
  induction ids as [|sid ids IH]; simpl.
  - split; [|done]. intros _ sid s Hin. by apply elem_of_nil in Hin.
  - destruct (sessions !! sid) as [s0|] eqn:Hlook.
    + destruct (decide (Session.status s0 = Session.ACTIVE)) as [Hactive|Hended].
      * split; [done|]. intros Hall. exfalso. apply (Hall sid s0); [by left|done|done].
      * rewrite IH. split.
        -- intros Hall sid' s [->|Hin]%elem_of_cons Hs; [congruence|by apply (Hall sid')].
        -- intros Hall sid' s Hin. apply Hall. by right.
    + rewrite IH. split.
      * intros Hall sid' s [->|Hin]%elem_of_cons Hs; [congruence|by apply (Hall sid')].
      * intros Hall sid' s Hin. apply Hall. by right.
Qed.

Lemma first_active_app sessions ids1 ids2 :
  Repository.first_active sessions (ids1 ++ ids2)
  = match Repository.first_active sessions ids1 with
    | Some s => Some s
    | None => Repository.first_active sessions ids2
    end.
Proof.
  induction ids1 as [|sid ids1 IH]; simpl; [done|].
  destruct (sessions !! sid) as [s0|]; [|done].
  by destruct (decide (Session.status s0 = Session.ACTIVE)).
Qed.

Lemma first_active_insert sessions ids sid s :
  sid ∉ ids →
  Repository.first_active (<[sid := s]> sessions) ids
  = Repository.first_active sessions ids.
Proof.
  induction ids as [|sid0 ids IH]; simpl; intros Hnin; [done|].
  rewrite lookup_insert_ne by (intros ->; apply Hnin; by left).
  rewrite IH by (intros Hin; apply Hnin; by right). done.
Qed.

(** X27. In a repository whose index agrees with its sessions,
    [get_active_session_for_user] returns a stored session of that user
    whose status is active, and returns nothing exactly when the user has
    no stored active session. The session created first wins: creating a
    further session leaves the answer as it is, and when there was none a
    newly created active session of the user becomes the answer. *)
Theorem get_active_session_for_user_spec repo uid :
  well_indexed repo →
  (∀ s, Repository.get_active_session_for_user repo uid = Some s →
        Repository.get_by_id repo (Session.session_id s) = Some s ∧
        Session.user_id s = uid ∧ Session.status s = Session.ACTIVE) ∧
  (Repository.get_active_session_for_user repo uid = None ↔
   ∀ s, Repository.get_by_id repo (Session.session_id s) = Some s →
        Session.user_id s = uid → Session.status s ≠ Session.ACTIVE) ∧
  (∀ s new,
     Repository.get_active_session_for_user repo uid = Some s →
     Repository.get_by_id repo (Session.session_id new) = None →
     Repository.get_active_session_for_user (Repository.create repo new) uid = Some s) ∧
  (∀ new,
     Repository.get_active_session_for_user repo uid = None →
     Repository.get_by_id repo (Session.session_id new) = None →
     Session.user_id new = uid → Session.status new = Session.ACTIVE →
     Repository.get_active_session_for_user (Repository.create repo new) uid = Some new).
Proof.
  intros Hwf. pose proof Hwf as [Hs Hi].
  unfold Repository.get_active_session_for_user, Repository.get_by_id.
  assert (∀ new,
            Repository._sessions repo !! Session.session_id new = None →
            Repository.first_active
              (Repository._sessions (Repository.create repo new))
              (default [] (Repository._user_sessions repo !! uid))
            = Repository.first_active (Repository._sessions repo)
                (default [] (Repository._user_sessions repo !! uid))) as Hsame.
  { intros new Hfresh. simpl. apply first_active_insert.
    destruct (Repository._user_sessions repo !! uid) as [ids|] eqn:Hids;
      [|apply not_elem_of_nil].
    by apply (well_indexed_fresh repo _ uid ids). }
  split; [|split; [|split]].
  - intros s Hfound. apply first_active_Some in Hfound as [Hactive (sid & Hin & Hlook)].
    destruct (Repository._user_sessions repo !! uid) as [ids|] eqn:Hids;
      [|by apply elem_of_nil in Hin].
    destruct (Hi _ _ Hids) as [_ Hmem]. destruct (Hmem sid Hin) as (s0 & Hs0 & Hu).
    simplify_eq. destruct (Hs _ _ Hlook) as [-> _]. done.
  - rewrite first_active_None. split.
    + intros Hall s Hlook Hu. destruct (Hs _ _ Hlook) as [_ (ids & Hids & Hin)].
      rewrite Hu in Hids. apply (Hall (Session.session_id s) s); [|done].
      by rewrite Hids.
    + intros Hall sid s Hin Hlook.
      destruct (Repository._user_sessions repo !! uid) as [ids|] eqn:Hids;
        [|by apply elem_of_nil in Hin].
      destruct (Hi _ _ Hids) as [_ Hmem]. destruct (Hmem sid Hin) as (s0 & Hs0 & Hu).
      simplify_eq. destruct (Hs _ _ Hlook) as [Hid _].
      apply Hall; [by rewrite Hid|done].
  - intros s new Hfound Hfresh.
    destruct (decide (Session.user_id new = uid)) as [Hu|Hu].
    + cbn [Repository.create Repository._user_sessions]. rewrite Hu, lookup_insert_eq.
      cbn [default from_option id]. rewrite first_active_app.
      pose proof (Hsame new Hfresh) as Heq. rewrite Hfound in Heq.
      by rewrite Heq.
    + cbn [Repository.create Repository._user_sessions].
      rewrite lookup_insert_ne by done.
      pose proof (Hsame new Hfresh) as Heq. by rewrite Hfound in Heq.
  - intros new Hnone Hfresh Hu Hactive.
    cbn [Repository.create Repository._user_sessions]. rewrite Hu, lookup_insert_eq.
    cbn [default from_option id]. rewrite first_active_app.
    pose proof (Hsame new Hfresh) as Heq. rewrite Hnone in Heq. rewrite Heq.
    cbn [Repository.first_active Repository.create Repository._sessions].
    rewrite lookup_insert_eq. by destruct (decide _).
Qed.

Lemma get_active_session_for_user_spec_witness :
  Repository.get_active_session_for_user small_repository 7%N
    = Some (session_of 2 7 Session.ACTIVE 30) ∧
  Repository.get_active_session_for_user
    (Repository.create small_repository (session_of 5 7 Session.ACTIVE 40)) 7%N
    = Some (session_of 2 7 Session.ACTIVE 30) ∧
  Repository.get_active_session_for_user small_repository 9%N = None.
Proof.
  destruct (get_active_session_for_user_spec small_repository 7%N
              small_repository_well_indexed) as (_ & _ & Holder & _).
  destruct (get_active_session_for_user_spec small_repository 9%N
              small_repository_well_indexed) as (_ & Hnone & _).
  split; [reflexivity|]. split; [by apply Holder|].
  apply Hnone. intros s Hlook Hu. exfalso.
  destruct small_repository_well_indexed as [Hs _].
  destruct (Hs _ _ Hlook) as [_ (ids & Hids & _)]. rewrite Hu in Hids.
  vm_compute in Hids. discriminate.
Defined.

(** ** Deleting *)

(** X28. [delete] returns true exactly when the identifier is stored.
    Afterwards the identifier is unknown: [get_by_id] returns nothing,
    [update] raises [ValueError], and a second [delete] returns false and
    changes nothing; every other session is still stored, and the number
    of sessions has gone down by one when a session was removed. *)
Theorem repository_delete_spec repo sid :
  let result := Repository.delete repo sid in
  (result.2 = true ↔ is_Some (Repository.get_by_id repo sid)) ∧
  Repository.get_by_id result.1 sid = None ∧
  (∀ other, other ≠ sid →
     Repository.get_by_id result.1 other = Repository.get_by_id repo other) ∧
  (∀ s, Session.session_id s = sid →
     Repository.update result.1 s = Raise (ValueError sid)) ∧
  Repository.delete result.1 sid = (result.1, false) ∧
  (Repository.get_by_id repo sid = None → result.1 = repo) ∧
  (is_Some (Repository.get_by_id repo sid) →
   S (Repository.get_session_count result.1) = Repository.get_session_count repo).
Proof.
  intros result. unfold result, Repository.delete, Repository.get_by_id,
    Repository.update, Repository.get_session_count.
  destruct (Repository._sessions repo !! sid) as [s|] eqn:Hstored; cbn [fst snd].
  - cbn [Repository._sessions].
    split; [split; [by eexists|done]|]. split; [apply lookup_delete_eq|].
    split. { intros other Hne. by rewrite lookup_delete_ne. }
    split. { intros s0 ->. by rewrite lookup_delete_eq. }
    split. { by rewrite lookup_delete_eq. }
    split; [done|]. intros _.
    rewrite map_size_delete_Some by (by eexists).
    assert (size (Repository._sessions repo) ≠ 0%nat) as Hpos.
    { intros Hzero%map_size_empty_iff. by rewrite Hzero, lookup_empty in Hstored. }
    lia.
  - split; [split; [done|by intros [? ?]]|]. split; [done|]. split; [done|].
    split. { intros s0 ->. by rewrite Hstored. }
    split. { by rewrite Hstored. }
    split; [done|]. by intros [? ?].
Qed.

Lemma repository_delete_spec_witness :
  (Repository.delete small_repository 2%N).2 = true ∧
  Repository.get_by_id (Repository.delete small_repository 2%N).1 2%N = None ∧
  Repository.get_session_count (Repository.delete small_repository 2%N).1 = 3%nat ∧
  Repository.delete small_repository 9%N = (small_repository, false).
Proof.
  destruct (repository_delete_spec small_repository 2%N)
    as (Hret & Hgone & _ & _ & _ & _ & Hcount).
  split; [apply Hret; by eexists|]. split; [exact Hgone|].
  split; [|reflexivity].
  assert (Repository.get_session_count small_repository = 4%nat) as Hfour
    by reflexivity.
  rewrite Hfour in Hcount. specialize (Hcount (ltac:(by eexists))). lia.
Defined.

(** X29. Creating a session under an identifier that is not stored and
    deleting it again cannot be seen by any reader of a repository whose
    index agrees with its sessions: [get_by_id], [get_by_user_id],
    [get_active_session_for_user] and [get_session_count] answer as
    before. In between, the session is found by its identifier and the
    count is one higher. *)
Theorem repository_create_delete repo s :
  well_indexed repo →
  Repository.get_by_id repo (Session.session_id s) = None →
  let created := Repository.create repo s in
  let deleted := Repository.delete created (Session.session_id s) in
  Repository.get_by_id created (Session.session_id s) = Some s ∧
  Repository.get_session_count created = S (Repository.get_session_count repo) ∧
  deleted.2 = true ∧
  (∀ sid, Repository.get_by_id deleted.1 sid = Repository.get_by_id repo sid) ∧
  (∀ uid limit offset,
     Repository.get_by_user_id deleted.1 uid limit offset
     = Repository.get_by_user_id repo uid limit offset) ∧
  (∀ uid, Repository.get_active_session_for_user deleted.1 uid
          = Repository.get_active_session_for_user repo uid) ∧
  Repository.get_session_count deleted.1 = Repository.get_session_count repo.
Proof.
  intros Hwf Hfresh created deleted. unfold Repository.get_by_id in *.
  assert (Repository._sessions deleted.1 = Repository._sessions repo) as Hsessions.
  { unfold deleted, created, Repository.delete. cbn [Repository.create Repository._sessions].
    rewrite lookup_insert_eq. cbn [fst Repository._sessions].
    by apply delete_insert_id. }
  assert (∀ uid, default [] (Repository._user_sessions deleted.1 !! uid)
                 = default [] (Repository._user_sessions repo !! uid)) as Hindex.
  { intros uid. unfold deleted, created, Repository.delete.
    cbn [Repository.create Repository._sessions Repository._user_sessions].
    rewrite !lookup_insert_eq. cbn [fst Repository._user_sessions].
    rewrite insert_insert_eq.
    destruct (decide (uid = Session.user_id s)) as [->|Hne].
    - rewrite lookup_insert_eq. cbn [default from_option id].
      apply remove_first_snoc.
      destruct (Repository._user_sessions repo !! Session.user_id s) as [ids|] eqn:Hids;
        [|apply not_elem_of_nil].
      by apply (well_indexed_fresh repo _ _ ids Hwf Hfresh Hids).
    - by rewrite lookup_insert_ne. }
  split; [apply lookup_insert_eq|]. split.
  { unfold Repository.get_session_count. by apply map_size_insert_None. }
  split. { unfold deleted, created, Repository.delete.
           cbn [Repository.create Repository._sessions]. by rewrite lookup_insert_eq. }
  split; [by rewrite Hsessions|]. split.
  { intros uid limit offset.
    unfold Repository.get_by_user_id, Repository.listed_sessions.
    by rewrite Hsessions, Hindex. }
  split.
  { intros uid. unfold Repository.get_active_session_for_user.
    by rewrite Hsessions, Hindex. }
  unfold Repository.get_session_count. by rewrite Hsessions.
Qed.

Lemma repository_create_delete_witness :
  let created := Repository.create small_repository (session_of 5 9 Session.ACTIVE 40) in
  Repository.get_by_id created 5%N = Some (session_of 5 9 Session.ACTIVE 40) ∧
  Repository.get_by_user_id (Repository.delete created 5%N).1 7%N 50 0
    = Repository.get_by_user_id small_repository 7%N 50 0 ∧
  (Repository.delete created 5%N).1 ≠ small_repository.
Proof.
  intros created.
  destruct (repository_create_delete small_repository (session_of 5 9 Session.ACTIVE 40)
              small_repository_well_indexed eq_refl)
    as (Hfound & _ & _ & _ & Hlist & _).
  split; [exact Hfound|]. split; [apply Hlist|].
  intros Heq. apply (f_equal (fun r => Repository._user_sessions r !! 9%N)) in Heq.
  vm_compute in Heq. discriminate.
Defined.
